(** * The nearcore changelog updater of borealis-engine-lib

    A shallow embedding of [.github/near_core_changelog_update.py] and the
    properties of its stages.

    Python [str] values are modelled as lists of characters; a character is
    a code point below 256 (Latin-1), carried by [ascii].  On that range the
    classes of Python's [re] module and of [str.strip] are the ones written
    out in [Py]: [\d] is [0-9], [\s] and [str.isspace] are the twelve code
    points of [isspace], and [.] is every character but the line feed.

    The process is modelled by a world: the three environment variables the
    script reads, the files as the texts [read_text] returns and
    [write_text] takes (on a platform whose line separator is the line
    feed), the date of the day, and the lines printed.  Failures of the
    file system other than a missing file are not modelled. *)

From Stdlib Require Import String Ascii List Arith Bool Lia.
Import ListNotations.

Local Open Scope string_scope.
Local Open Scope bool_scope.
Local Open Scope nat_scope.
Local Open Scope list_scope.

Definition text := list ascii.

(** String literals stand for the text they spell. *)
Coercion list_ascii_of_string : string >-> list.

(** The line feed, and the text made of one line feed. *)
Definition LF : ascii := "010"%char.
Definition NL : text := [LF].

(** ** Python's [str] operations used by the script *)
Module Py.

Definition code (c : ascii) : nat := nat_of_ascii c.

Definition between (lo hi : nat) (c : ascii) : bool :=
  (lo <=? code c) && (code c <=? hi).

(** [\d] on code points below 256. *)
Definition isdigit (c : ascii) : bool := between 48 57 c.

(** [[a-z]]. *)
Definition islower_az (c : ascii) : bool := between 97 122 c.

(** [str.isspace] and [\s] on code points below 256:
    U+0009..U+000D, U+001C..U+001F, U+0020, U+0085, U+00A0. *)
Definition isspace (c : ascii) : bool :=
  between 9 13 c || between 28 32 c || (code c =? 133) || (code c =? 160).

(** Truthiness of a [str]: [not s] holds for the empty string only. *)
Definition truthy (s : text) : bool :=
  match s with [] => false | _ :: _ => true end.

(** Truthiness of a value that is a [str] or [None]. *)
Definition truthy_opt (v : option text) : bool :=
  match v with None => false | Some s => truthy s end.

Fixpoint drop_while (p : ascii -> bool) (s : text) : text :=
  match s with
  | [] => []
  | c :: s' => if p c then drop_while p s' else s
  end.

(** [s.lstrip()], [s.rstrip()] and [s.strip()]. *)
Definition lstrip (s : text) : text := drop_while isspace s.
Definition rstrip (s : text) : text := rev (drop_while isspace (rev s)).
Definition strip (s : text) : text := lstrip (rstrip s).

(** [s[i:j]] for indices [0 <= i], [0 <= j]; Python clamps both to the
    length, and so do [firstn] and [skipn]. *)
Definition slice (s : text) (i j : nat) : text := skipn i (firstn j s).

(** [c in s] for a one-character [c]. *)
Definition contains_char (c : ascii) (s : text) : bool :=
  existsb (Ascii.eqb c) s.

(** [s.split(sep)] for a one-character separator: never the empty list. *)
Fixpoint split (sep : ascii) (s : text) : list text :=
  match s with
  | [] => [[]]
  | c :: s' =>
      if Ascii.eqb c sep then [] :: split sep s'
      else match split sep s' with
           | h :: t => (c :: h) :: t
           | [] => [[c]]
           end
  end.

(** [sep.join(parts)]. *)
Fixpoint join (sep : text) (parts : list text) : text :=
  match parts with
  | [] => []
  | [p] => p
  | p :: rest => p ++ sep ++ join sep rest
  end.

End Py.

(** ** The part of Python's [re] module the script relies on

    A backtracking matcher in continuation-passing style: alternatives are
    tried in the order of the pattern, a greedy repetition takes as many
    characters as it can before giving them back one at a time, a lazy one
    takes as few as it can.  Every repetition in the script's patterns is
    over a single character, and that is the form modelled here. *)
Module Re.

Record flags := { MULTILINE : bool; DOTALL : bool }.

Definition FL_0 : flags := {| MULTILINE := false; DOTALL := false |}.
Definition FL_M : flags := {| MULTILINE := true; DOTALL := false |}.
Definition FL_S : flags := {| MULTILINE := false; DOTALL := true |}.

(** One-character patterns. *)
Inductive atom : Type :=
| Chr (c : ascii)              (* a literal character, escaped or not *)
| Cls (p : ascii -> bool)      (* [\d], [\s], a bracketed class *)
| Any.                         (* [.] *)

Inductive regex : Type :=
| Eps                                   (* the empty pattern *)
| One (a : atom)                        (* a *)
| Many (greedy : bool) (a : atom)       (* a* when greedy, a*? otherwise *)
| Bol                                   (* ^ *)
| Eol                                   (* $ *)
| Cat (r1 r2 : regex)                   (* r1 r2 *)
| Alt (r1 r2 : regex)                   (* r1|r2 *)
| Ahead (r : regex)                     (* (?=r) *)
| Group (n : nat) (r : regex).          (* the n-th capturing group (r) *)

(** [a+] and [r?]. *)
Definition Plus (a : atom) : regex := Cat (One a) (Many true a).
Definition Opt (r : regex) : regex := Alt r Eps.

(** A literal text, as a pattern: what [re.escape] produces. *)
Fixpoint Lit (s : text) : regex :=
  match s with
  | [] => Eps
  | c :: s' => Cat (One (Chr c)) (Lit s')
  end.

(** A position in the subject: the text before it (nearest character
    first), the text after it, and the spans of the groups closed so far. *)
Record cursor := {
  before : text;
  after : text;
  spans : list (nat * (nat * nat))
}.

Definition pos (c : cursor) : nat := length (before c).

Definition start_cursor (s : text) (i : nat) : cursor :=
  {| before := rev (firstn i s); after := skipn i s; spans := [] |}.

Definition accepts (fl : flags) (a : atom) (c : ascii) : bool :=
  match a with
  | Chr x => Ascii.eqb c x
  | Cls p => p c
  | Any => DOTALL fl || negb (Ascii.eqb c LF)
  end.

(** [^]: the start of the subject, and with MULTILINE also the position
    after each line feed. *)
Definition at_bol (fl : flags) (c : cursor) : bool :=
  match before c with
  | [] => true
  | x :: _ => MULTILINE fl && Ascii.eqb x LF
  end.

(** [$]: the end of the subject and the position before a line feed that
    ends the subject; with MULTILINE the position before any line feed. *)
Definition at_eol (fl : flags) (c : cursor) : bool :=
  match after c with
  | [] => true
  | x :: rest =>
      Ascii.eqb x LF && (MULTILINE fl || match rest with [] => true | _ => false end)
  end.

Definition step (c : cursor) (x : ascii) (rest : text) : cursor :=
  {| before := x :: before c; after := rest; spans := spans c |}.

Definition close_group (n : nat) (c0 c : cursor) : cursor :=
  {| before := before c; after := after c;
     spans := (n, (pos c0, pos c)) :: spans c |}.

Definition keep_spans (c0 c : cursor) : cursor :=
  {| before := before c0; after := after c0; spans := spans c |}.

Section Matcher.
Variable fl : flags.

(** The repetition of one atom, followed by the continuation [k]. *)
Fixpoint many (greedy : bool) (a : atom) (k : cursor -> option cursor)
    (bf : text) (sp : list (nat * (nat * nat))) (af : text)
    : option cursor :=
  let here := {| before := bf; after := af; spans := sp |} in
  match af with
  | x :: rest =>
      if accepts fl a x then
        if greedy then
          match many greedy a k (x :: bf) sp rest with
          | Some r => Some r
          | None => k here
          end
        else
          match k here with
          | Some r => Some r
          | None => many greedy a k (x :: bf) sp rest
          end
      else k here
  | [] => k here
  end.

(** [run r k c]: match [r] at [c], then the rest of the pattern [k];
    [None] when every way of matching [r] makes [k] fail. *)
Fixpoint run (r : regex) (k : cursor -> option cursor) (c : cursor)
    : option cursor :=
  match r with
  | Eps => k c
  | One a =>
      match after c with
      | x :: rest => if accepts fl a x then k (step c x rest) else None
      | [] => None
      end
  | Many greedy a => many greedy a k (before c) (spans c) (after c)
  | Bol => if at_bol fl c then k c else None
  | Eol => if at_eol fl c then k c else None
  | Cat r1 r2 => run r1 (run r2 k) c
  | Alt r1 r2 =>
      match run r1 k c with
      | Some r => Some r
      | None => run r2 k c
      end
  | Ahead r1 =>
      match run r1 Some c with
      | Some c' => k (keep_spans c c')
      | None => None
      end
  | Group n r1 => run r1 (fun c' => k (close_group n c c')) c
  end.

(** The end of the pattern.  [must_advance] is set by [sub] after an
    empty match: the next match may not be empty at the same place. *)
Definition finish (must_advance : bool) (c0 c : cursor) : option cursor :=
  if must_advance && (pos c =? pos c0) then None else Some c.

(** One attempt at the position [c]: the cursor at the end of the match. *)
Definition attempt (r : regex) (must_advance : bool) (c : cursor)
    : option cursor :=
  run r (finish must_advance c) c.

(** The leftmost match at or after a position: where it starts and where
    it ends.  [must_advance] only concerns the first position tried. *)
Fixpoint scan (r : regex) (must_advance : bool)
    (bf : text) (af : text) : option (cursor * cursor) :=
  let here := {| before := bf; after := af; spans := [] |} in
  match attempt r must_advance here with
  | Some e => Some (here, e)
  | None =>
      match af with
      | [] => None
      | x :: rest => scan r false (x :: bf) rest
      end
  end.
End Matcher.

(** A match object: [start()], [end()] and the spans of its groups. *)
Record Match := {
  m_start : nat;
  m_end : nat;
  m_spans : list (nat * (nat * nat))
}.

Definition to_match (se : cursor * cursor) : Match :=
  {| m_start := pos (fst se); m_end := pos (snd se);
     m_spans := spans (snd se) |}.

Fixpoint lookup_span (n : nat) (sp : list (nat * (nat * nat)))
    : option (nat * nat) :=
  match sp with
  | [] => None
  | (k, se) :: rest => if k =? n then Some se else lookup_span n rest
  end.

(** [m.group(n)] for [n >= 1], taken from the subject [s]; a group that
    took no part in the match gives [None]. *)
Definition group (s : text) (m : Match) (n : nat) : option text :=
  match lookup_span n (m_spans m) with
  | Some (i, j) => Some (Py.slice s i j)
  | None => None
  end.

(** [pattern.match(s)]. *)
Definition match_ (fl : flags) (r : regex) (s : text) : option Match :=
  let c := start_cursor s 0 in
  match attempt fl r false c with
  | Some e => Some (to_match (c, e))
  | None => None
  end.

(** [pattern.search(s, pos)]; also the first item of
    [pattern.finditer(s, pos)]. *)
Definition search_from (fl : flags) (r : regex) (s : text) (i : nat)
    : option Match :=
  option_map to_match (scan fl r false (rev (firstn i s)) (skipn i s)).

(** [pattern.search(s)]. *)
Definition search (fl : flags) (r : regex) (s : text) : option Match :=
  search_from fl r s 0.

(** A replacement template after parsing: literal text and references to
    groups. *)
Inductive piece : Type :=
| Text (t : text)
| Ref (n : nat).

Definition template := list piece.

Definition backslash : ascii := "\"%char.

(** A replacement string without backslash stands for itself.  With a
    backslash [re] would interpret escapes or raise [re.error]; escape
    processing is not modelled, and such a string has no template here
    ([None]). *)
Definition literal_template (t : text) : option template :=
  if Py.contains_char backslash t then None else Some [Text t].

Definition expand_piece (s : text) (e : cursor) (p : piece) : text :=
  match p with
  | Text t => t
  | Ref n =>
      match lookup_span n (spans e) with
      | Some (i, j) => Py.slice s i j
      | None => []
      end
  end.

Definition expand (s : text) (tpl : template) (e : cursor) : text :=
  concat (map (expand_piece s e) tpl).

(** The loop of [re.sub]: search from the end of the previous match, copy
    the text skipped, append the expanded replacement, go on until the
    count is reached or no match is left.  [count = 0] asks for every
    match.  Each round moves the position forward or, after an empty
    match, forbids the next empty match there, so twice the remaining
    length plus two rounds always suffice; [rounds] is that bound. *)
Fixpoint sub_loop (fl : flags) (r : regex) (tpl : template) (s : text)
    (count : nat) (rounds : nat) (done : nat) (must_advance : bool)
    (bf af : text) : text :=
  match rounds with
  | 0 => af
  | S rounds' =>
      if negb (count =? 0) && (count <=? done) then af
      else
        match scan fl r must_advance bf af with
        | None => af
        | Some (b, e) =>
            firstn (pos b - length bf) af
              ++ expand s tpl e
              ++ sub_loop fl r tpl s count rounds' (S done)
                   (pos e =? pos b) (before e) (after e)
        end
  end.

(** [re.sub(pattern, repl, s, count, flags)] with [repl] already parsed. *)
Definition sub (fl : flags) (r : regex) (tpl : template) (s : text)
    (count : nat) : text :=
  sub_loop fl r tpl s count (2 * length s + 2) 0 false [] s.

End Re.

Import Re.

Infix ">>" := Cat (at level 61, right associativity).

(** ** The process around the script: environment, files, clock, output *)

Record environ := {
  NEW_VERSION : option text;
  PR_NUMBER : option text;
  CHANGELOG_PATH : option text
}.

(** Files are modelled by their text, as [Path.read_text] returns it and as
    [Path.write_text] takes it; a path is the text that names it. *)
Record world := {
  env : environ;
  files : text -> option text;
  utc_today : text;                 (* now(UTC).strftime("%Y-%m-%d") *)
  stdout : list text                (* the lines printed so far *)
}.

(** How a call ends: it returns, or the process exits with a status
    ([exit(n)]), or the run leaves what is modelled of [re] (a replacement
    template with a backslash, a group that took no part in its match). *)
Inductive result (A : Type) : Type :=
| Ret (a : A)
| Exit (status : nat)
| Unmodelled.
Arguments Ret {A} a.
Arguments Exit {A} status.
Arguments Unmodelled {A}.

Definition M (A : Type) : Type := world -> result A * world.

Definition ret {A} (a : A) : M A := fun w => (Ret a, w).

Definition bind {A B} (m : M A) (f : A -> M B) : M B :=
  fun w =>
    match m w with
    | (Ret a, w') => f a w'
    | (Exit n, w') => (Exit n, w')
    | (Unmodelled, w') => (Unmodelled, w')
    end.

Notation "x <- m ;; f" := (bind m (fun x => f))
  (at level 100, m at next level, right associativity).
Notation "' p <- m ;; f" := (bind m (fun x => let p := x in f))
  (at level 100, p pattern, m at next level, right associativity).
Notation "m ;;; f" := (bind m (fun _ => f))
  (at level 100, right associativity).

Definition print (line : text) : M unit :=
  fun w => (Ret tt, {| env := env w; files := files w;
                       utc_today := utc_today w;
                       stdout := stdout w ++ [line] |}).

Definition exit {A} (status : nat) : M A := fun w => (Exit status, w).

Definition unmodelled {A} : M A := fun w => (Unmodelled, w).

Definition text_eqb (a b : text) : bool :=
  if list_eq_dec ascii_dec a b then true else false.

Definition Path (p : text) : text := p.

Definition exists_ (path : text) : M bool :=
  fun w => (Ret (match files w path with Some _ => true | None => false end), w).

(** [read_text] of a path that [exists_]; a path that does not exist is
    never read by the script. *)
Definition read_text (path : text) : M text :=
  fun w => match files w path with
           | Some content => (Ret content, w)
           | None => (Unmodelled, w)
           end.

Definition write_text (path content : text) : M unit :=
  fun w => (Ret tt, {| env := env w;
                       files := fun p => if text_eqb p path then Some content
                                         else files w p;
                       utc_today := utc_today w;
                       stdout := stdout w |}).

(** The status the process ends with: [0] when the script returns. *)
Definition exit_status {A} (r : result A) : option nat :=
  match r with
  | Ret _ => Some 0
  | Exit n => Some n
  | Unmodelled => None
  end.

(** What an f-string shows for a value that is a [str] or [None]. *)
Definition fmt (v : option text) : text :=
  match v with Some s => s | None => "None" end.

(** ** The script *)

Definition REPO_URL : text :=
  "https://github.com/aurora-is-near/borealis-engine-lib".

Definition digit_or_dot : atom :=
  Cls (fun c => Py.isdigit c || Ascii.eqb c ".").
Definition digit : atom := Cls Py.isdigit.
Definition lower : atom := Cls Py.islower_az.
Definition space : atom := Cls Py.isspace.
Definition label_char : atom :=
  Cls (fun c => Py.isdigit c || Ascii.eqb c "." || Ascii.eqb c "-"
                || Py.islower_az c).

(** [^[\d\.]+\-[\d\.]+(\-[a-z]+\.\d+)?$] *)
Definition VERSION_PATTERN : regex :=
  Bol >> Plus digit_or_dot >> One (Chr "-") >> Plus digit_or_dot
      >> Opt (Group 1 (One (Chr "-") >> Plus lower >> One (Chr ".")
                        >> Plus digit))
      >> Eol.

(** [^## \[Unreleased\]] *)
Definition UNRELEASED_SECTION_PATTERN : regex :=
  Bol >> Lit "## [Unreleased]".

(** [^## \[([\d\.\-a-z]+)\]] *)
Definition RELEASE_ENTRY_PATTERN : regex :=
  Bol >> Lit "## [" >> Group 1 (Plus label_char) >> One (Chr "]").

(** [#+\s+Changes] *)
Definition CHANGES_SECTION_PATTERN : regex :=
  Plus (Chr "#") >> Plus space >> Lit "Changes".

(** [\[#\d+\]: ] + re.escape(REPO_URL) + [/pull/\d+] *)
Definition PR_LINK_PATTERN : regex :=
  Lit "[#" >> Plus digit >> Lit "]: " >> Lit REPO_URL >> Lit "/pull/"
           >> Plus digit.

Definition is_some {A} (o : option A) : bool :=
  match o with Some _ => true | None => false end.

Definition validate_version (version : option text) : bool :=
  match version with
  | None => false
  | Some v =>
      if negb (Py.truthy v) then false
      else is_some (match_ FL_0 VERSION_PATTERN v)
  end.

Definition get_date_and_path : M (text * text) :=
  fun w =>
    let current_date := utc_today w in
    let custom_path := CHANGELOG_PATH (env w) in
    let changelog_path :=
      if Py.truthy_opt custom_path then Path (fmt custom_path)
      else Path "CHANGES.md" in
    (found <- exists_ changelog_path ;;
     if negb found then
       print ("Error: " ++ changelog_path ++ " not found") ;;;
       exit 1
     else ret (current_date, changelog_path)) w.

Definition extract_nearcore_version (version : text) : text :=
  if Py.contains_char "-" version
  then Py.join "-" (tl (Py.split "-" version))
  else version.

(** [^(?=\[Unreleased\]:)] with MULTILINE *)
Definition link_section_pattern : regex :=
  Bol >> Ahead (Lit "[Unreleased]:").

Definition split_changelog_content (content : text) : M (text * text) :=
  match search FL_M link_section_pattern content with
  | None =>
      print "Error: Could not find the link definitions section in CHANGES.md" ;;;
      exit 1
  | Some m => ret (firstn (m_start m) content, skipn (m_start m) content)
  end.

Definition find_unreleased_section (upper_section : text) : M Match :=
  match search FL_M UNRELEASED_SECTION_PATTERN upper_section with
  | None =>
      print "Error: Could not find [Unreleased] section in CHANGES.md" ;;;
      exit 1
  | Some unreleased_match => ret unreleased_match
  end.

Definition find_previous_version (upper_section : text)
    (unreleased_match : Match) : M (text * nat * text) :=
  match search_from FL_M RELEASE_ENTRY_PATTERN upper_section
          (m_end unreleased_match) with
  | Some first_release =>
      match group upper_section first_release 1 with
      | Some prev_version =>
          let unreleased_section_end := m_start first_release in
          let unreleased_content :=
            Py.strip (Py.slice upper_section (m_end unreleased_match)
                        unreleased_section_end) in
          ret (prev_version, unreleased_section_end, unreleased_content)
      | None => unmodelled
      end
  | None =>
      print "Error: Could not find any previous release entries" ;;;
      exit 1
  end.

Definition create_new_entry (unreleased_content new_entry : text) : text :=
  if negb (Py.truthy unreleased_content) then
    "### Changes" ++ NL ++ NL ++ new_entry
  else
    match search FL_M CHANGES_SECTION_PATTERN unreleased_content with
    | Some changes_match =>
        let changes_end := m_end changes_match in
        firstn changes_end unreleased_content
          ++ NL ++ NL ++ new_entry ++ NL
          ++ Py.lstrip (skipn changes_end unreleased_content)
    | None =>
        "### Changes" ++ NL ++ NL ++ new_entry ++ NL ++ NL
          ++ unreleased_content
    end.

Definition add_pr_link (content pr_link : text) : text :=
  match search FL_0 PR_LINK_PATTERN content with
  | Some _ => content ++ NL ++ pr_link
  | None => content ++ NL ++ NL ++ pr_link
  end.

(** [\[Unreleased\]: .*] and [(\[Unreleased\]: .*\n)] *)
Definition unreleased_link_pattern : regex :=
  Lit "[Unreleased]: " >> Many true Any.
Definition unreleased_link_line_pattern : regex :=
  Group 1 (Lit "[Unreleased]: " >> Many true Any >> One (Chr LF)).

Definition update_link_definitions (bottom_section new_version prev_version : text)
    : option text :=
  match literal_template
          ("[Unreleased]: " ++ REPO_URL ++ "/" ++ new_version ++ "...main") with
  | None => None
  | Some repl1 =>
      let bottom_section := sub FL_0 unreleased_link_pattern repl1 bottom_section 0 in
      let new_link_def :=
        "[" ++ new_version ++ "]: " ++ REPO_URL ++ "/compare/" ++ prev_version
            ++ "..." ++ new_version in
      match literal_template (new_link_def ++ NL) with
      | None => None
      | Some repl2 =>
          Some (sub FL_0 unreleased_link_line_pattern (Ref 1 :: repl2)
                  bottom_section 0)
      end
  end.

(** [## \[Unreleased\].*?(?=## \[|$)] with DOTALL *)
Definition reset_unreleased_pattern : regex :=
  Lit "## [Unreleased]" >> Many false Any >> Ahead (Alt (Lit "## [") Eol).

(** The bullet and the link reference that [update_changelog] composes. *)
Definition new_entry_line (nearcore_version pr_number : text) : text :=
  "* chore: bump nearcore to " ++ nearcore_version ++ " in [#" ++ pr_number ++ "]".
Definition pr_link_line (pr_number : text) : text :=
  "[#" ++ pr_number ++ "]: " ++ REPO_URL ++ "/pull/" ++ pr_number.

(** [update_changelog] from [get_date_and_path()] on (lines 134 to 178),
    where [NEW_VERSION] and [PR_NUMBER] are known to be set. *)
Definition release_version (new_version pr_number : text) : M unit :=
  '(current_date, changelog_path) <- get_date_and_path ;;
  content <- read_text changelog_path ;;
  let version_pattern := Lit "## [" >> Lit new_version >> Lit "]" in
  if is_some (search FL_M version_pattern content) then
    print ("Version " ++ new_version ++ " already exists in "
             ++ changelog_path ++ ", skipping update")
  else
    '(upper_section, bottom_section) <- split_changelog_content content ;;
    unreleased_match <- find_unreleased_section upper_section ;;
    '(prev_version, unreleased_section_end, unreleased_content) <-
       find_previous_version upper_section unreleased_match ;;
    let nearcore_version := extract_nearcore_version new_version in
    let new_entry := new_entry_line nearcore_version pr_number in
    let pr_link := pr_link_line pr_number in
    let modified_unreleased_content :=
      create_new_entry unreleased_content new_entry in
    let modified_unreleased_content :=
      add_pr_link modified_unreleased_content pr_link in
    let new_version_section :=
      "## [" ++ new_version ++ "] " ++ current_date ++ NL ++ NL
        ++ modified_unreleased_content in
    let empty_unreleased := "## [Unreleased]" ++ NL ++ NL in
    let updated_upper_section :=
      firstn (m_end unreleased_match) upper_section
        ++ NL ++ NL ++ new_version_section ++ NL ++ NL
        ++ skipn unreleased_section_end upper_section in
    (* the replacement holds no backslash: it is a literal template *)
    let updated_upper_section :=
      sub FL_S reset_unreleased_pattern [Text empty_unreleased]
        updated_upper_section 1 in
    match update_link_definitions bottom_section new_version prev_version with
    | None => unmodelled
    | Some updated_bottom_section =>
        let updated_content := updated_upper_section ++ updated_bottom_section in
        write_text changelog_path updated_content ;;;
        print ("Successfully updated " ++ changelog_path
                 ++ " with new version " ++ new_version)
    end.

Definition update_changelog : M unit :=
  fun w =>
    let new_version := NEW_VERSION (env w) in
    let pr_number := PR_NUMBER (env w) in
    if Py.truthy_opt new_version && negb (validate_version new_version) then
      (print ("Error: Invalid version format '" ++ fmt new_version
                ++ "'. Valid formats: 'x.y.z-a.b.c' or 'x.y.z-a.b.c-rc.n'") ;;;
       exit 1) w
    else if negb (Py.truthy_opt new_version) || negb (Py.truthy_opt pr_number) then
      (print "Error: NEW_VERSION and PR_NUMBER environment variables must be set" ;;;
       exit 1) w
    else release_version (fmt new_version) (fmt pr_number) w.

(** ** Notions used to state the properties *)

(** The declarative meaning of a pattern: [matches fl r c c'] when [r] can
    match from the position [c] to the position [c']. *)
Inductive matches (fl : flags) : regex -> cursor -> cursor -> Prop :=
| M_Eps c : matches fl Eps c c
| M_One a c x rest :
    after c = x :: rest -> accepts fl a x = true ->
    matches fl (One a) c (step c x rest)
| M_Many_stop g a c : matches fl (Many g a) c c
| M_Many_more g a c x rest c' :
    after c = x :: rest -> accepts fl a x = true ->
    matches fl (Many g a) (step c x rest) c' ->
    matches fl (Many g a) c c'
| M_Bol c : at_bol fl c = true -> matches fl Bol c c
| M_Eol c : at_eol fl c = true -> matches fl Eol c c
| M_Cat r1 r2 c c1 c2 :
    matches fl r1 c c1 -> matches fl r2 c1 c2 -> matches fl (Cat r1 r2) c c2
| M_Alt_l r1 r2 c c' : matches fl r1 c c' -> matches fl (Alt r1 r2) c c'
| M_Alt_r r1 r2 c c' : matches fl r2 c c' -> matches fl (Alt r1 r2) c c'
| M_Ahead r c c' : matches fl r c c' -> matches fl (Ahead r) c (keep_spans c c')
| M_Group n r c c' :
    matches fl r c c' -> matches fl (Group n r) c (close_group n c c').

(** Patterns without a capturing group, and patterns whose lookaheads hold
    none: every pattern of the script is of the second kind. *)
Fixpoint groupless (r : regex) : bool :=
  match r with
  | Cat r1 r2 | Alt r1 r2 => groupless r1 && groupless r2
  | Ahead r1 => groupless r1
  | Group _ _ => false
  | _ => true
  end.

Fixpoint tidy (r : regex) : bool :=
  match r with
  | Cat r1 r2 | Alt r1 r2 => tidy r1 && tidy r2
  | Ahead r1 => groupless r1
  | Group _ r1 => tidy r1
  | _ => true
  end.

(** [strip_prefix p s] is the rest of [s] after its prefix [p]. *)
Fixpoint strip_prefix (p s : text) : option text :=
  match p with
  | [] => Some s
  | c :: p' =>
      match s with
      | x :: s' => if Ascii.eqb x c then strip_prefix p' s' else None
      | [] => None
      end
  end.

Definition starts_with (p s : text) : Prop := exists rest, s = p ++ rest.

(** [p] occurs in [s] at the offset [i]. *)
Definition occurs_at (p s : text) (i : nat) : Prop :=
  exists pre post, s = pre ++ p ++ post /\ length pre = i.

Definition occurs (p s : text) : Prop := exists i, occurs_at p s i.

(** The offset [k] of [s] begins a line: it is the start of the text or
    follows a line feed. *)
Definition line_start (s : text) (k : nat) : Prop :=
  exists pre post, s = pre ++ post /\ length pre = k /\
    (pre = [] \/ exists pre', pre = pre' ++ NL).

(** A line of [s] begins at [k] with the text [p]. *)
Definition line_at (p s : text) (k : nat) : Prop :=
  line_start s k /\ occurs_at p s k.

Fixpoint take_while (p : ascii -> bool) (s : text) : text :=
  match s with
  | [] => []
  | c :: s' => if p c then c :: take_while p s' else []
  end.

Definition no_LF (s : text) : Prop := ~ In LF s.
Definition no_backslash (s : text) : Prop := ~ In backslash s.

(** The lines of a text, without their line feeds. *)
Definition lines (s : text) : list text := Py.split LF s.

(** The position with the text [bf] behind it (nearest character first)
    and the text [af] ahead, no group closed. *)
Definition here (bf af : text) : cursor :=
  {| before := bf; after := af; spans := [] |}.

Definition is_nil {A} (l : list A) : bool :=
  match l with [] => true | _ => false end.

(** The rounds [sub_loop] needs at most from a position: two for each
    character ahead, one more when the next match may be empty there. *)
Definition rounds_needed (must_advance : bool) (af : text) : nat :=
  2 * length af + (if must_advance then 1 else 2).

(** [sub_loop] with the rounds it needs. *)
Definition sub_from (fl : flags) (r : regex) (tpl : template) (s : text)
    (count done : nat) (must_advance : bool) (bf af : text) : text :=
  sub_loop fl r tpl s count (rounds_needed must_advance af) done must_advance bf af.

(** The world after one more line was printed. *)
Definition printed (w : world) (line : text) : world :=
  {| env := env w; files := files w; utc_today := utc_today w;
     stdout := stdout w ++ [line] |}.

(** A changelog with an empty Unreleased section, and a world that holds
    it as [CHANGES.md]. *)
Definition sample_document : text :=
  "## [Unreleased]" ++ NL ++ NL ++ "## [1.0.0-2.0.0] 2024-01-01" ++ NL ++ NL
    ++ "[Unreleased]: https://example.org/1.0.0-2.0.0...main" ++ NL.

Definition sample_environ : environ :=
  {| NEW_VERSION := Some (list_ascii_of_string "1.2.3-4.5.6");
     PR_NUMBER := Some (list_ascii_of_string "42");
     CHANGELOG_PATH := None |}.

Definition sample_world : world :=
  {| env := sample_environ;
     files := fun p => if text_eqb p "CHANGES.md" then Some sample_document
                       else None;
     utc_today := "2026-01-02";
     stdout := [] |}.

(** ** The shape of a version identifier, in the words of the
    specification: [<digits-and-dots>-<digits-and-dots>], then optionally
    [-<lowercase-letters>.<digits>]. *)

Definition all_of (p : ascii -> bool) (s : text) : Prop :=
  s <> [] /\ Forall (fun c => p c = true) s.

Definition digit_or_dot_char (c : ascii) : bool :=
  Py.isdigit c || Ascii.eqb c ".".

Definition version_shape (v : text) : Prop :=
  exists a b,
    all_of digit_or_dot_char a /\ all_of digit_or_dot_char b /\
    (v = a ++ "-" ++ b \/
     exists l d, all_of Py.islower_az l /\ all_of Py.isdigit d /\
                 v = a ++ "-" ++ b ++ "-" ++ l ++ "." ++ d).

(** ** Headings and link references, in the words of the specification *)

(** A heading of any level whose text is [Changes]: one or more [#], then
    white space, then [Changes], up to the end of the line. *)
Definition is_changes_heading (line : text) : bool :=
  let hashes := take_while (Ascii.eqb "#") line in
  let rest := Py.drop_while (Ascii.eqb "#") line in
  let blanks := take_while Py.isspace rest in
  let title := Py.drop_while Py.isspace rest in
  negb (is_nil hashes) && negb (is_nil blanks)
    && text_eqb (Py.rstrip title) "Changes".

Definition has_changes_heading (body : text) : bool :=
  existsb is_changes_heading (lines body).

(** The text [#...# <white space> Changes] begins at the offset [i] of [s]. *)
Definition changes_text_at (s : text) (i : nat) : Prop :=
  exists pre hashes blanks post,
    s = pre ++ hashes ++ blanks ++ "Changes" ++ post /\ length pre = i /\
    all_of (fun c => Ascii.eqb c "#") hashes /\ all_of Py.isspace blanks.

(** The text holds a link reference [[#<digits>]: <repo-url>/pull/<digits>]. *)
Definition pr_link_in (s : text) : Prop :=
  exists pre n1 n2 post,
    s = pre ++ "[#" ++ n1 ++ "]: " ++ REPO_URL ++ "/pull/" ++ n2 ++ post /\
    all_of Py.isdigit n1 /\ all_of Py.isdigit n2.

(** In [result], the line right above the appended [pr_link] is a link
    reference: [pr_link] sits directly below the block of link references. *)
Definition directly_below_links (result pr_link : text) : Prop :=
  exists pre l,
    result = pre ++ l ++ NL ++ pr_link /\ no_LF l /\
    (pre = [] \/ exists pre', pre = pre' ++ NL) /\ pr_link_in l.

(** A body whose link reference is followed by more text. *)
Definition links_then_text : text :=
  "[#1]: " ++ REPO_URL ++ "/pull/1" ++ NL ++ NL ++ "* more".

(** A body that mentions the text [## Changes] inside a bullet, and a body
    with a heading that begins with [Changes] above the heading [Changes]. *)
Definition body_mentioning_changes : text :=
  "* fix typo in the ## Changes heading".

(** A body whose bullet below the heading is indented. *)
Definition body_with_indented_bullet : text :=
  "### Changes" ++ NL ++ NL ++ "  * foo".

(** Every line of the body is still a line of the result. *)
Definition keeps_lines (body result : text) : Prop :=
  forall l, In l (lines body) -> In l (lines result).

Definition body_with_two_headings : text :=
  "### Changes to the API" ++ NL ++ NL ++ "* x" ++ NL ++ NL
    ++ "### Changes" ++ NL ++ NL ++ "* foo".

(** The heading that opens the Unreleased section, and the text that
    resets it. *)
Definition UNRELEASED_HEADING : text := "## [Unreleased]".
Definition empty_unreleased : text := UNRELEASED_HEADING ++ NL ++ NL.

(** The two link definitions that [update_link_definitions] writes. *)
Definition unreleased_link (new_version : text) : text :=
  "[Unreleased]: " ++ REPO_URL ++ "/" ++ new_version ++ "...main".
Definition version_link (new_version prev_version : text) : text :=
  "[" ++ new_version ++ "]: " ++ REPO_URL ++ "/compare/" ++ prev_version
      ++ "..." ++ new_version.

(** ** The run of the script, stage by stage *)

Definition changelog_path_of (w : world) : text :=
  if Py.truthy_opt (CHANGELOG_PATH (env w))
  then Path (fmt (CHANGELOG_PATH (env w)))
  else Path "CHANGES.md".

(** The world after [content] was written to [path]. *)
Definition written (w : world) (path content : text) : world :=
  {| env := env w;
     files := fun p => if text_eqb p path then Some content else files w p;
     utc_today := utc_today w;
     stdout := stdout w |}.

Definition version_heading (new_version : text) : text :=
  "## [" ++ new_version ++ "]".

Definition merged_body (new_version pr_number body : text) : text :=
  add_pr_link
    (create_new_entry body
       (new_entry_line (extract_nearcore_version new_version) pr_number))
    (pr_link_line pr_number).

(** The release section of the new version. *)
Definition new_version_section (new_version pr_number date body : text) : text :=
  "## [" ++ new_version ++ "] " ++ date ++ NL ++ NL
    ++ merged_body new_version pr_number body.

(** The upper region before the reset of the Unreleased section. *)
Definition reassembled (new_version pr_number date upper : text)
    (heading_end release_start : nat) (body : text) : text :=
  firstn heading_end upper ++ NL ++ NL
    ++ new_version_section new_version pr_number date body ++ NL ++ NL
    ++ skipn release_start upper.

Definition msg_not_found (path : text) : text :=
  "Error: " ++ path ++ " not found".
Definition msg_skip (new_version path : text) : text :=
  "Version " ++ new_version ++ " already exists in " ++ path
    ++ ", skipping update".
Definition msg_no_links : text :=
  "Error: Could not find the link definitions section in CHANGES.md".
Definition msg_no_unreleased : text :=
  "Error: Could not find [Unreleased] section in CHANGES.md".
Definition msg_no_previous : text :=
  "Error: Could not find any previous release entries".
Definition msg_updated (new_version path : text) : text :=
  "Successfully updated " ++ path ++ " with new version " ++ new_version.
Definition msg_invalid (new_version : text) : text :=
  "Error: Invalid version format '" ++ new_version
    ++ "'. Valid formats: 'x.y.z-a.b.c' or 'x.y.z-a.b.c-rc.n'".
Definition msg_unset : text :=
  "Error: NEW_VERSION and PR_NUMBER environment variables must be set".

(** [release_version] without the monad: the stages in the order the
    script runs them, each with the way it ends the run. *)
Definition release_outcome (new_version pr_number : text) (w : world)
    : result unit * world :=
  let path := changelog_path_of w in
  match files w path with
  | None => (Exit 1, printed w (msg_not_found path))
  | Some content =>
      if is_some (search FL_M (Lit "## [" >> Lit new_version >> Lit "]") content)
      then (Ret tt, printed w (msg_skip new_version path))
      else
        match search FL_M link_section_pattern content with
        | None => (Exit 1, printed w msg_no_links)
        | Some ms =>
            let upper := firstn (m_start ms) content in
            let bottom := skipn (m_start ms) content in
            match search FL_M UNRELEASED_SECTION_PATTERN upper with
            | None => (Exit 1, printed w msg_no_unreleased)
            | Some m =>
                match search_from FL_M RELEASE_ENTRY_PATTERN upper (m_end m) with
                | None => (Exit 1, printed w msg_no_previous)
                | Some first_release =>
                    match group upper first_release 1 with
                    | None => (Unmodelled, w)
                    | Some prev_version =>
                        let body :=
                          Py.strip (Py.slice upper (m_end m)
                                      (m_start first_release)) in
                        match update_link_definitions bottom new_version
                                prev_version with
                        | None => (Unmodelled, w)
                        | Some links =>
                            (Ret tt,
                             printed
                               (written w path
                                  (sub FL_S reset_unreleased_pattern
                                     [Text empty_unreleased]
                                     (reassembled new_version pr_number
                                        (utc_today w) upper (m_end m)
                                        (m_start first_release) body) 1
                                   ++ links))
                               (msg_updated new_version path))
                        end
                    end
                end
            end
        end
  end.

(** The environment names a well-formed version and a pull request. *)
Definition configured (w : world) (new_version pr_number : text) : Prop :=
  NEW_VERSION (env w) = Some new_version /\
  PR_NUMBER (env w) = Some pr_number /\
  pr_number <> [] /\
  validate_version (Some new_version) = true.

(** [releases nv pr w doc]: from the world [w] the script reaches its last
    stage and writes [doc].  The changelog is [upper ++ bottom], split at
    the first link definition; [upper] has the Unreleased heading after
    [pre], the text [mid] of the Unreleased section, and from the heading
    of the previous release [pv] on the text [old] of the earlier releases;
    [doc] is [head], the new release section, [old] and the new links. *)
Definition releases (new_version pr_number : text) (w : world) (doc : text)
    : Prop :=
  exists content upper bottom pre mid pv tail head links,
    files w (changelog_path_of w) = Some content /\
    ~ occurs (version_heading new_version) content /\
    content = upper ++ bottom /\
    starts_with "[Unreleased]:" bottom /\
    upper = pre ++ UNRELEASED_HEADING ++ mid ++ "## [" ++ pv ++ "]" ++ tail /\
    (pre = [] \/ exists pre', pre = pre' ++ NL) /\
    update_link_definitions bottom new_version pv = Some links /\
    doc = head
            ++ new_version_section new_version pr_number (utc_today w)
                 (Py.strip mid)
            ++ NL ++ NL ++ ("## [" ++ pv ++ "]" ++ tail) ++ links /\
    ((forall i, i < length pre ->
        ~ occurs_at UNRELEASED_HEADING (pre ++ UNRELEASED_HEADING) i) ->
     head = pre ++ UNRELEASED_HEADING ++ NL ++ NL).

(** A release heading [## [<label>]] begins a line of [rest], the text that
    follows the Unreleased heading. *)
Definition release_heading_in (rest : text) : Prop :=
  exists mid pv tail,
    rest = mid ++ NL ++ "## [" ++ pv ++ "]" ++ tail /\
    all_of (fun x => accepts FL_M label_char x) pv.

(** A world whose NEW_VERSION is a well-formed version followed by a line
    feed, over the changelog [sample_document]. *)
Definition world_with_line_feed : world :=
  {| env := {| NEW_VERSION := Some ("1.2.3-4.5.6" ++ NL);
               PR_NUMBER := Some (list_ascii_of_string "42");
               CHANGELOG_PATH := None |};
     files := fun p => if text_eqb p "CHANGES.md" then Some sample_document
                       else None;
     utc_today := "2026-01-02";
     stdout := [] |}.

(** The world of a second run: the environment of [sample_world], the
    files its run left, a later day, a fresh output. *)
Definition second_world : world :=
  {| env := sample_environ;
     files := files (snd (update_changelog sample_world));
     utc_today := "2026-01-03";
     stdout := [] |}.

(** ** The link region, line by line *)

Definition UNRELEASED_LABEL : text := "[Unreleased]: ".

(** [cut_at p s] cuts [s] at the first place where [p] occurs: the text
    before it and the text after it. *)
Fixpoint cut_at (p s : text) : option (text * text) :=
  match strip_prefix p s with
  | Some rest => Some ([], rest)
  | None =>
      match s with
      | [] => None
      | x :: s' =>
          match cut_at p s' with
          | Some (a, b) => Some (x :: a, b)
          | None => None
          end
      end
  end.

(** A line with its [[Unreleased]: ...] part, if it has one, replaced. *)
Definition rewrite_line (link line : text) : text :=
  match cut_at UNRELEASED_LABEL line with
  | Some (a, _) => a ++ link
  | None => line
  end.

(** The line [new] put below every line that holds [[Unreleased]: ] and is
    ended by a line feed, that is every such line but the last. *)
Fixpoint insert_lines (new : text) (ls : list text) : list text :=
  match ls with
  | [] => []
  | [l] => [l]
  | l :: rest =>
      (if is_some (cut_at UNRELEASED_LABEL l) then [l; new] else [l])
        ++ insert_lines new rest
  end.

Definition updated_lines (new_version prev_version : text) (ls : list text)
    : list text :=
  insert_lines (version_link new_version prev_version)
    (map (rewrite_line (unreleased_link new_version)) ls).

(** The number of lines that begin with [[Unreleased]: ]. *)
Definition unreleased_link_lines (s : text) : nat :=
  length (filter (fun l => is_some (strip_prefix UNRELEASED_LABEL l)) (lines s)).


Definition not_LF (c : ascii) : bool := negb (Ascii.eqb c LF).

(** A changelog whose introduction mentions the text [## [Unreleased]]
    inside a line. *)
Definition document_with_note : text :=
  "Notes go under the ## [Unreleased] heading." ++ NL ++ NL
    ++ "## [Unreleased]" ++ NL ++ NL
    ++ "## [1.0.0-2.0.0] 2024-01-01" ++ NL ++ NL
    ++ "[Unreleased]: https://example.org/1.0.0-2.0.0...main" ++ NL.

Definition world_with_note : world :=
  {| env := sample_environ;
     files := fun p => if text_eqb p "CHANGES.md" then Some document_with_note
                       else None;
     utc_today := "2026-01-02";
     stdout := [] |}.

Definition sample_links : text :=
  "[Unreleased]: https://example.org/1.0.0-2.0.0...main" ++ NL
    ++ "[1.0.0-2.0.0]: https://example.org/compare/0.9.0-1.9.0...1.0.0-2.0.0"
    ++ NL.

(** ** Release headings *)

(** A release heading [## [<label>]] with the label [pv] begins a line of
    [s] at the offset [k]. *)
Definition release_heading_at (s : text) (k : nat) (pv : text) : Prop :=
  exists pre tail,
    s = pre ++ "## [" ++ pv ++ "]" ++ tail /\ length pre = k /\
    (pre = [] \/ exists pre', pre = pre' ++ NL) /\
    all_of (fun x => accepts FL_M label_char x) pv.

(** The match object of a match without groups. *)
Definition plain_match (start stop : nat) : Match :=
  {| m_start := start; m_end := stop; m_spans := [] |}.

(** An upper region with an introduction, and the match of its Unreleased
    heading. *)
Definition sample_upper : text :=
  "# Changelog" ++ NL ++ NL ++ "## [Unreleased]" ++ NL ++ NL
    ++ "### Changes" ++ NL ++ NL ++ "* foo" ++ NL ++ NL
    ++ "## [1.0.0-2.0.0] 2024-01-01" ++ NL ++ NL.

(** A changelog with an introduction and an entry waiting in its
    Unreleased section, and a world that holds it as [CHANGES.md]. *)
Definition sample_changelog : text :=
  sample_upper ++ "[Unreleased]: https://example.org/1.0.0-2.0.0...main" ++ NL.

Definition world_with_entry : world :=
  {| env := sample_environ;
     files := fun p => if text_eqb p "CHANGES.md" then Some sample_changelog
                       else None;
     utc_today := "2026-01-02";
     stdout := [] |}.

(** The world of a later release: another version and pull request, the
    files the run from [world_with_entry] left, a later day. *)
Definition later_world : world :=
  {| env := {| NEW_VERSION := Some (list_ascii_of_string "1.3.0-4.6.0");
               PR_NUMBER := Some (list_ascii_of_string "43");
               CHANGELOG_PATH := None |};
     files := files (snd (update_changelog world_with_entry));
     utc_today := "2026-02-03";
     stdout := [] |}.

(** ** Releases in a row, seen from the link region *)

(** The link region after the releases [versions], oldest first, each
    compared with the one before it, the first with [prev_version]. *)
Fixpoint all_updates (region prev_version : text) (versions : list text)
    : option text :=
  match versions with
  | [] => Some region
  | v :: rest =>
      match update_link_definitions region v prev_version with
      | Some region' => all_updates region' v rest
      | None => None
      end
  end.

(** The links of the releases [versions] above the links [below], the
    newest first. *)
Fixpoint version_links (prev_version : text) (versions : list text)
    (below : text) : text :=
  match versions with
  | [] => below
  | v :: rest =>
      version_links v rest (version_link v prev_version ++ NL ++ below)
  end.

(** * Properties *)

(** ** Texts *)

Lemma strip_prefix_app (p r : text) : strip_prefix p (p ++ r) = Some r.
Proof.
  induction p as [|c p IH]; simpl; [reflexivity|].
  now rewrite Ascii.eqb_refl.
Qed.

Lemma strip_prefix_Some (p s r : text) :
  strip_prefix p s = Some r -> s = p ++ r.
Proof.
  revert s; induction p as [|c p IH]; simpl; intros s H.
  - now inversion H.
  - destruct s as [|x s]; [discriminate|].
    destruct (Ascii.eqb x c) eqn:E; [|discriminate].
    apply Ascii.eqb_eq in E; subst. f_equal. now apply IH.
Qed.

Lemma strip_prefix_None (p s : text) :
  strip_prefix p s = None -> ~ starts_with p s.
Proof.
  intros H [r ->]. rewrite strip_prefix_app in H. discriminate.
Qed.

Lemma rev_cons_app {A} (x : A) (l m : list A) :
  rev (x :: l) ++ m = rev l ++ x :: m.
Proof. simpl. now rewrite <- app_assoc. Qed.

Lemma firstn_length_app {A} (u v : list A) : firstn (length u) (u ++ v) = u.
Proof. induction u; simpl; [reflexivity | now f_equal]. Qed.

Lemma skipn_length_app {A} (u v : list A) : skipn (length u) (u ++ v) = v.
Proof. induction u; simpl; [reflexivity | assumption]. Qed.

Lemma app_split_lt {A} (pre post u v : list A) :
  pre ++ post = u ++ v -> length pre < length u ->
  exists u2, u = pre ++ u2 /\ post = u2 ++ v /\ u2 <> [].
Proof.
  revert u. induction pre as [|x pre IH]; intros [|y u] E L; simpl in *; try lia.
  - exists (y :: u). now repeat split.
  - inversion E; subst. destruct (IH u H1) as (u2 & -> & -> & N); [lia|].
    now exists u2.
Qed.

Lemma app_split_le {A} (pre post u v : list A) :
  pre ++ post = u ++ v -> length pre <= length u ->
  exists u2, u = pre ++ u2 /\ post = u2 ++ v.
Proof.
  revert u. induction pre as [|x pre IH]; intros u E L; simpl in *.
  - now exists u.
  - destruct u as [|y u]; simpl in *; [lia|].
    inversion E; subst. destruct (IH u H1) as (u2 & -> & ->); [lia|].
    now exists u2.
Qed.

Lemma take_drop_while (p : ascii -> bool) (s : text) :
  take_while p s ++ Py.drop_while p s = s.
Proof.
  induction s as [|c s IH]; simpl; [reflexivity|].
  destruct (p c); simpl; [now rewrite IH | reflexivity].
Qed.

(** ** The matcher against the meaning of patterns *)

Section Engine.
Variable fl : flags.

Lemma cursor_eta (c : cursor) :
  {| before := before c; after := after c; spans := spans c |} = c.
Proof. now destruct c. Qed.

Lemma many_sound (g : bool) (a : atom) (k : cursor -> option cursor) :
  forall af bf sp res,
    many fl g a k bf sp af = Some res ->
    exists c', matches fl (Many g a)
                 {| before := bf; after := af; spans := sp |} c'
               /\ k c' = Some res.
Proof.
  induction af as [|x rest IH]; intros bf sp res H; simpl in H.
  - eexists; split; [apply M_Many_stop | exact H].
  - destruct (accepts fl a x) eqn:Ea.
    + assert (Hmore : many fl g a k (x :: bf) sp rest = Some res ->
               exists c', matches fl (Many g a)
                 {| before := bf; after := x :: rest; spans := sp |} c'
                 /\ k c' = Some res).
      { intros H'. destruct (IH _ _ _ H') as (c' & Hm & Hk).
        exists c'; split; [|exact Hk].
        eapply M_Many_more; [reflexivity | exact Ea | exact Hm]. }
      destruct g.
      * destruct (many fl true a k (x :: bf) sp rest) eqn:E.
        -- inversion H; subst. now apply Hmore.
        -- eexists; split; [apply M_Many_stop | exact H].
      * destruct (k {| before := bf; after := x :: rest; spans := sp |}) eqn:E.
        -- inversion H; subst.
           eexists; split; [apply M_Many_stop | exact E].
        -- now apply Hmore.
    + eexists; split; [apply M_Many_stop | exact H].
Qed.

(** Whatever the matcher finds is a match of the pattern. *)
Lemma run_sound (r : regex) :
  forall k c res,
    run fl r k c = Some res ->
    exists c', matches fl r c c' /\ k c' = Some res.
Proof.
  induction r as [|a|g a| | |r1 IH1 r2 IH2|r1 IH1 r2 IH2|r1 IH1|n r1 IH1];
    intros k c res H; simpl in H.
  - exists c; split; [constructor | exact H].
  - destruct (after c) as [|x rest] eqn:Ec; [discriminate|].
    destruct (accepts fl a x) eqn:Ea; [|discriminate].
    exists (step c x rest); split; [apply M_One; assumption | exact H].
  - apply many_sound in H. now rewrite cursor_eta in H.
  - destruct (at_bol fl c) eqn:E; [|discriminate].
    exists c; split; [now constructor | exact H].
  - destruct (at_eol fl c) eqn:E; [|discriminate].
    exists c; split; [now constructor | exact H].
  - destruct (IH1 _ _ _ H) as (c1 & H1 & Hk1).
    destruct (IH2 _ _ _ Hk1) as (c2 & H2 & Hk2).
    exists c2; split; [eapply M_Cat; eassumption | exact Hk2].
  - destruct (run fl r1 k c) eqn:E.
    + inversion H; subst.
      destruct (IH1 _ _ _ E) as (c' & H1 & Hk).
      exists c'; split; [now apply M_Alt_l | exact Hk].
    + destruct (IH2 _ _ _ H) as (c' & H2 & Hk).
      exists c'; split; [now apply M_Alt_r | exact Hk].
  - destruct (run fl r1 Some c) as [c1|] eqn:E; [|discriminate].
    destruct (IH1 _ _ _ E) as (c' & H1 & Hk). inversion Hk; subst.
    eexists; split; [apply M_Ahead; exact H1 | exact H].
  - destruct (IH1 _ _ _ H) as (c' & H1 & Hk).
    eexists; split; [apply M_Group; exact H1 | exact Hk].
Qed.

(** A match only moves forward: it consumes a piece of the text. *)
Lemma matches_advance (r : regex) (c c' : cursor) :
  matches fl r c c' ->
  exists m, after c = m ++ after c' /\ before c' = rev m ++ before c.
Proof.
  induction 1 as [c|a c x rest Hc Ha|g a c|g a c x rest c' Hc Ha _ IH|c Hb
                 |c He|r1 r2 c c1 c2 _ IH1 _ IH2|r1 r2 c c' _ IH
                 |r1 r2 c c' _ IH|r c c' _ IH|n r c c' _ IH];
    try (exists []; split; reflexivity).
  - exists [x]; split; [exact Hc | reflexivity].
  - destruct IH as (m & E1 & E2). simpl in E1, E2.
    exists (x :: m); split.
    + now rewrite Hc, E1.
    + now rewrite E2, rev_cons_app.
  - destruct IH1 as (m1 & A1 & B1), IH2 as (m2 & A2 & B2).
    exists (m1 ++ m2); split.
    + now rewrite A1, A2, app_assoc.
    + now rewrite B2, B1, rev_app_distr, app_assoc.
  - exact IH.
  - exact IH.
  - exact IH.
Qed.

Lemma matches_groupless (r : regex) (c c' : cursor) :
  matches fl r c c' -> groupless r = true -> spans c' = spans c.
Proof.
  induction 1; simpl; intros G; try reflexivity;
    try (apply andb_prop in G; destruct G as [G1 G2]).
  - rewrite IHmatches by exact G. reflexivity.
  - rewrite IHmatches2, IHmatches1 by assumption. reflexivity.
  - auto.
  - auto.
  - auto.
  - discriminate.
Qed.

Lemma many_complete (g : bool) (a : atom) (k : cursor -> option cursor)
    (c c' : cursor) :
  matches fl (Many g a) c c' -> k c' <> None ->
  many fl g a k (before c) (spans c) (after c) <> None.
Proof.
  remember (Many g a) as r eqn:Er.
  induction 1 as [| |g' a' c|g' a' c x rest c' Hc Ha _ IH| | | | | | |];
    try discriminate; inversion Er; subst; intros Hk.
  - destruct (after c) as [|x rest] eqn:Ec; simpl; rewrite <- ?Ec, ?cursor_eta;
      [exact Hk|].
    destruct (accepts fl a x); [|exact Hk].
    destruct g.
    + destruct (many fl true a k (x :: before c) (spans c) rest);
        [discriminate | exact Hk].
    + destruct (k c); [discriminate | now elim Hk].
  - specialize (IH eq_refl Hk). simpl in IH.
    rewrite Hc. simpl. rewrite Ha.
    destruct g.
    + destruct (many fl true a k (x :: before c) (spans c) rest);
        [discriminate | now elim IH].
    + destruct (k {| before := before c; after := x :: rest; spans := spans c |});
        [discriminate | exact IH].
Qed.

(** Whenever the pattern has a match after which the rest of the pattern
    succeeds, the matcher succeeds too. *)
Lemma run_complete (r : regex) (c c' : cursor) :
  matches fl r c c' -> tidy r = true ->
  forall k, k c' <> None -> run fl r k c <> None.
Proof.
  induction 1 as [c|a c x rest Hc Ha|g a c|g a c x rest c' Hc Ha Hm _|c Hb
                 |c He|r1 r2 c c1 c2 _ IH1 _ IH2|r1 r2 c c' _ IH
                 |r1 r2 c c' _ IH|r c c' Hm IH|n r c c' _ IH];
    simpl; intros T k Hk.
  - exact Hk.
  - now rewrite Hc, Ha.
  - apply many_complete with (c' := c); [constructor | exact Hk].
  - apply many_complete with (c' := c'); [|exact Hk].
    eapply M_Many_more; eassumption.
  - now rewrite Hb.
  - now rewrite He.
  - apply andb_prop in T; destruct T as [T1 T2].
    apply IH1; [exact T1|]. apply IH2; [exact T2 | exact Hk].
  - apply andb_prop in T; destruct T as [T1 T2].
    specialize (IH T1 k Hk). destruct (run fl r1 k c); [discriminate | now elim IH].
  - apply andb_prop in T; destruct T as [T1 T2].
    destruct (run fl r1 k c); [discriminate | now apply IH].
  - destruct (run fl r Some c) as [c1|] eqn:E.
    + destruct (run_sound _ _ _ _ E) as (c2 & H2 & Hs). inversion Hs; subst.
      unfold keep_spans in *.
      rewrite (matches_groupless _ _ _ H2 T).
      rewrite (matches_groupless _ _ _ Hm T) in Hk. exact Hk.
    + exfalso. revert E. apply IH; [|discriminate].
      clear -T. induction r; simpl in *; try reflexivity;
        try (apply andb_prop in T; destruct T; rewrite IHr1, IHr2 by assumption;
             reflexivity); try discriminate.
      exact T.
  - apply IH; [exact T | exact Hk].
Qed.

End Engine.

(** ** Rewriting rules for the matcher *)

Section Rules.
Variable fl : flags.

Lemma run_Cat r1 r2 k c : run fl (r1 >> r2) k c = run fl r1 (run fl r2 k) c.
Proof. reflexivity. Qed.

Lemma run_Group n r k c :
  run fl (Group n r) k c = run fl r (fun c' => k (close_group n c c')) c.
Proof. reflexivity. Qed.

Lemma run_Many g a k c :
  run fl (Many g a) k c = many fl g a k (before c) (spans c) (after c).
Proof. reflexivity. Qed.

Lemma run_One a k c :
  run fl (One a) k c =
  match after c with
  | x :: rest => if accepts fl a x then k (step c x rest) else None
  | [] => None
  end.
Proof. reflexivity. Qed.

Lemma run_Lit (p : text) (k : cursor -> option cursor) :
  forall c,
    run fl (Lit p) k c =
    match strip_prefix p (after c) with
    | Some r => k {| before := rev p ++ before c; after := r; spans := spans c |}
    | None => None
    end.
Proof.
  induction p as [|a p IH]; intros c; simpl.
  - now rewrite cursor_eta.
  - destruct (after c) as [|x rest]; [reflexivity|].
    destruct (Ascii.eqb x a) eqn:E; [|reflexivity].
    apply Ascii.eqb_eq in E; subst x.
    rewrite IH. simpl. now rewrite <- app_assoc.
Qed.

(** A greedy repetition whose continuation accepts the longest run ends
    there. *)
Lemma many_greedy_hit (a : atom) (k : cursor -> option cursor) :
  forall af bf sp r,
    k {| before := rev (take_while (accepts fl a) af) ++ bf;
         after := Py.drop_while (accepts fl a) af; spans := sp |} = Some r ->
    many fl true a k bf sp af = Some r.
Proof.
  induction af as [|x rest IH]; intros bf sp r H;
    cbn [many take_while Py.drop_while] in *; [exact H|].
  destruct (accepts fl a x); [|exact H].
  rewrite rev_cons_app in H. now rewrite (IH _ _ _ H).
Qed.

(** A greedy repetition whose continuation fails in front of every
    character of the repeated class is decided at the end of the longest
    run. *)
Lemma many_greedy_det (a : atom) (k : cursor -> option cursor) :
  (forall bf x rest sp, accepts fl a x = true ->
      k {| before := bf; after := x :: rest; spans := sp |} = None) ->
  forall af bf sp,
    many fl true a k bf sp af =
    k {| before := rev (take_while (accepts fl a) af) ++ bf;
         after := Py.drop_while (accepts fl a) af; spans := sp |}.
Proof.
  intros Hk. induction af as [|x rest IH]; intros bf sp;
    cbn [many take_while Py.drop_while]; [reflexivity|].
  destruct (accepts fl a x) eqn:Ea; [|reflexivity].
  rewrite IH, rev_cons_app.
  destruct (k _) eqn:E; [reflexivity|]. now rewrite Hk.
Qed.

(** A lazy repetition stops at the first place where the continuation
    succeeds. *)
Lemma many_lazy_first (a : atom) (k : cursor -> option cursor) :
  forall u v bf sp r0,
    Forall (fun x => accepts fl a x = true) u ->
    k {| before := rev u ++ bf; after := v; spans := sp |} = Some r0 ->
    exists u1 u2 r,
      u = u1 ++ u2 /\
      many fl false a k bf sp (u ++ v) = Some r /\
      k {| before := rev u1 ++ bf; after := u2 ++ v; spans := sp |} = Some r.
Proof.
  induction u as [|x u IH]; intros v bf sp r0 Hu Hk; simpl in *.
  - exists [], [], r0. split; [reflexivity|]. split; [|exact Hk].
    destruct v as [|y v]; simpl; [exact Hk|].
    destruct (accepts fl a y); now rewrite ?Hk.
  - inversion Hu as [|? ? Hx Hu']; subst. rewrite Hx.
    destruct (k {| before := bf; after := x :: u ++ v; spans := sp |}) as [r|] eqn:E.
    + exists [], (x :: u), r. now repeat split.
    + rewrite <- app_assoc in Hk. simpl in Hk.
      destruct (IH _ _ _ _ Hu' Hk) as (u1 & u2 & r & -> & Hm & Hr).
      exists (x :: u1), u2, r. repeat split; [exact Hm|].
      now rewrite rev_cons_app.
Qed.

Lemma scan_hit r adv bf af e :
  attempt fl r adv (here bf af) = Some e ->
  scan fl r adv bf af = Some (here bf af, e).
Proof. intros H. destruct af; simpl; unfold here in H; now rewrite H. Qed.

Lemma scan_miss r adv bf x rest :
  attempt fl r adv (here bf (x :: rest)) = None ->
  scan fl r adv bf (x :: rest) = scan fl r false (x :: bf) rest.
Proof. intros H. simpl. unfold here in H. now rewrite H. Qed.

(** Positions at which every attempt fails are skipped. *)
Lemma scan_skip r :
  forall u v bf,
    (forall u1 u2, u = u1 ++ u2 -> u2 <> [] ->
       attempt fl r false (here (rev u1 ++ bf) (u2 ++ v)) = None) ->
    scan fl r false bf (u ++ v) = scan fl r false (rev u ++ bf) v.
Proof.
  induction u as [|x u IH]; intros v bf H; [reflexivity|].
  rewrite <- app_comm_cons, scan_miss.
  - rewrite IH; [now rewrite rev_cons_app|].
    intros u1 u2 E N. specialize (H (x :: u1) u2).
    rewrite rev_cons_app in H. apply H; [now rewrite E | exact N].
  - apply (H [] (x :: u)); [reflexivity | discriminate].
Qed.

(** What a successful scan tells: where the match starts, that the
    attempt made there gave its end, and that every earlier attempt
    failed. *)
Lemma scan_sound r :
  forall af adv bf b e,
    scan fl r adv bf af = Some (b, e) ->
    exists u v,
      af = u ++ v /\ b = here (rev u ++ bf) v /\
      attempt fl r (adv && is_nil u) b = Some e /\
      (forall u1 u2, u = u1 ++ u2 -> u2 <> [] ->
         attempt fl r (adv && is_nil u1) (here (rev u1 ++ bf) (u2 ++ v)) = None).
Proof.
  induction af as [|x rest IH]; intros adv bf b e H; simpl in H.
  - destruct (attempt fl r adv _) as [e'|] eqn:E; [|discriminate].
    inversion H; subst. exists [], []. rewrite andb_true_r.
    repeat split; [exact E|].
    intros u1 u2 E12 N. destruct u1, u2; try discriminate. now elim N.
  - destruct (attempt fl r adv _) as [e'|] eqn:E.
    + inversion H; subst. exists [], (x :: rest). rewrite andb_true_r.
      repeat split; [exact E|].
      intros u1 u2 E12 N. destruct u1, u2; try discriminate. now elim N.
    + destruct (IH _ _ _ _ H) as (u & v & -> & -> & Ha & Hn). simpl in Ha.
      exists (x :: u), v. rewrite rev_cons_app, andb_false_r.
      repeat split; [exact Ha|].
      intros [|y u1] u2 E12 N; simpl in *.
      * subst u2. rewrite andb_true_r. exact E.
      * inversion E12; subst. rewrite andb_false_r.
        specialize (Hn u1 u2 eq_refl N). simpl in Hn.
        now rewrite <- app_assoc.
Qed.

Lemma scan_None r :
  forall af adv bf,
    scan fl r adv bf af = None ->
    forall u v, af = u ++ v ->
      attempt fl r (adv && is_nil u) (here (rev u ++ bf) v) = None.
Proof.
  induction af as [|x rest IH]; intros adv bf H u v E; simpl in H.
  - destruct u, v; try discriminate. rewrite andb_true_r.
    now destruct (attempt fl r adv _).
  - destruct (attempt fl r adv _) eqn:Ea; [discriminate|].
    destruct u as [|y u]; simpl in *.
    + subst v. now rewrite andb_true_r.
    + inversion E; subst. rewrite andb_false_r.
      specialize (IH _ _ H u v eq_refl). simpl in IH.
      now rewrite <- app_assoc.
Qed.

(** A match never ends before it starts, and it starts at or after the
    position the scan began at. *)
Lemma attempt_sound r adv c e :
  attempt fl r adv c = Some e ->
  matches fl r c e /\ (adv = true -> pos e <> pos c).
Proof.
  unfold attempt. intros H.
  destruct (run_sound _ _ _ _ _ H) as (c' & Hm & Hf).
  unfold finish in Hf.
  destruct (adv && (pos c' =? pos c)) eqn:E; [discriminate|].
  inversion Hf; subst. split; [exact Hm|].
  intros ->. simpl in E. now apply Nat.eqb_neq.
Qed.

Lemma scan_advance r adv bf af b e :
  scan fl r adv bf af = Some (b, e) ->
  exists u m,
    af = u ++ m ++ after e /\
    before b = rev u ++ bf /\ after b = m ++ after e /\
    before e = rev m ++ before b /\
    (adv = true -> u = [] -> m <> []).
Proof.
  intros H. destruct (scan_sound _ _ _ _ _ _ H) as (u & v & -> & -> & Ha & _).
  destruct (attempt_sound _ _ _ _ Ha) as (Hm & Hadv).
  destruct (matches_advance _ _ _ _ Hm) as (m & E1 & E2). simpl in E1, E2.
  exists u, m. subst v. repeat split; try assumption.
  intros -> -> ->. simpl in *. apply Hadv; [reflexivity|].
  unfold pos. now rewrite E2.
Qed.

End Rules.

(** ** The loop of [re.sub] never runs out of rounds *)

Section Sub.
Variables (fl : flags) (r : regex) (tpl : template) (s : text) (count : nat).

Lemma scan_rounds adv bf af b e :
  scan fl r adv bf af = Some (b, e) ->
  rounds_needed (pos e =? pos b) (after e) < rounds_needed adv af.
Proof.
  intros H. destruct (scan_advance _ _ _ _ _ _ _ H) as (u & m & E & Eb & _ & Ee & Hadv).
  unfold rounds_needed, pos. rewrite Ee, E, !length_app, length_rev.
  destruct (Nat.eqb_spec (length m + length (before b)) (length (before b))) as [Z|Z].
  - assert (m = []) by (destruct m; [reflexivity | simpl in Z; lia]). subst m.
    destruct adv; [|simpl; lia].
    destruct u; [now elim (Hadv eq_refl eq_refl) | simpl; lia].
  - destruct m; [simpl in Z; lia|]. destruct adv; simpl; lia.
Qed.

Lemma sub_loop_rounds :
  forall rounds1 rounds2 done adv bf af,
    rounds_needed adv af <= rounds1 ->
    rounds_needed adv af <= rounds2 ->
    sub_loop fl r tpl s count rounds1 done adv bf af =
    sub_loop fl r tpl s count rounds2 done adv bf af.
Proof.
  induction rounds1 as [|n1 IH]; intros rounds2 done adv bf af H1 H2.
  - unfold rounds_needed in H1. destruct adv; lia.
  - destruct rounds2 as [|n2]; [unfold rounds_needed in H2; destruct adv; lia|].
    cbn [sub_loop].
    destruct (negb (count =? 0) && (count <=? done)); [reflexivity|].
    destruct (scan fl r adv bf af) as [[b e]|] eqn:E; [|reflexivity].
    apply scan_rounds in E.
    f_equal. f_equal. apply IH; lia.
Qed.

(** The loop, one round at a time. *)
Lemma sub_from_eq done adv bf af :
  sub_from fl r tpl s count done adv bf af =
  if negb (count =? 0) && (count <=? done) then af
  else match scan fl r adv bf af with
       | None => af
       | Some (b, e) =>
           firstn (pos b - length bf) af ++ expand s tpl e
             ++ sub_from fl r tpl s count (S done) (pos e =? pos b)
                  (before e) (after e)
       end.
Proof.
  unfold sub_from at 1.
  assert (R : exists n, rounds_needed adv af = S n)
    by (unfold rounds_needed; destruct adv;
        [exists (2 * length af) | exists (S (2 * length af))]; lia).
  destruct R as [n R]. rewrite R. cbn [sub_loop].
  destruct (negb (count =? 0) && (count <=? done)); [reflexivity|].
  destruct (scan fl r adv bf af) as [[b e]|] eqn:E; [|reflexivity].
  apply scan_rounds in E. f_equal. f_equal.
  unfold sub_from. apply sub_loop_rounds; lia.
Qed.

Lemma sub_eq : sub fl r tpl s count = sub_from fl r tpl s count 0 false [] s.
Proof. reflexivity. Qed.

End Sub.

(** One substitution ([count = 1]) replaces the leftmost match. *)
Lemma sub_once fl r tpl s :
  sub fl r tpl s 1 =
  match scan fl r false [] s with
  | None => s
  | Some (b, e) => firstn (pos b) s ++ expand s tpl e ++ after e
  end.
Proof.
  rewrite sub_eq, sub_from_eq. cbn [Nat.eqb Nat.leb negb andb].
  destruct (scan fl r false [] s) as [[b e]|]; [|reflexivity].
  rewrite sub_from_eq. cbn. now rewrite Nat.sub_0_r.
Qed.

(** ** Searching, in terms of the subject *)

Lemma search_sound fl r s m :
  search fl r s = Some m ->
  exists u v e,
    s = u ++ v /\ m_start m = length u /\
    attempt fl r false (here (rev u) v) = Some e /\
    m_end m = pos e /\ m_spans m = spans e /\
    (forall u1 u2, u = u1 ++ u2 -> u2 <> [] ->
       attempt fl r false (here (rev u1) (u2 ++ v)) = None).
Proof.
  unfold search, search_from. cbn [firstn skipn rev].
  destruct (scan fl r false [] s) as [[b e]|] eqn:E; [|discriminate].
  intros H; inversion H; subst; clear H.
  destruct (scan_sound _ _ _ _ _ _ _ E) as (u & v & -> & -> & Ha & Hn).
  rewrite app_nil_r in *. exists u, v, e. cbn.
  unfold pos; cbn. rewrite length_rev.
  repeat split; [exact Ha|].
  intros u1 u2 E12 N. specialize (Hn u1 u2 E12 N). now rewrite app_nil_r in Hn.
Qed.

Lemma search_None fl r s :
  search fl r s = None ->
  forall u v, s = u ++ v -> attempt fl r false (here (rev u) v) = None.
Proof.
  unfold search, search_from. cbn [firstn skipn rev].
  destruct (scan fl r false [] s) as [[b e]|] eqn:E; [discriminate|].
  intros _ u v Es. pose proof (scan_None _ _ _ _ _ E u v Es) as H.
  now rewrite app_nil_r in H.
Qed.

Lemma search_is_some fl r s u v :
  s = u ++ v -> attempt fl r false (here (rev u) v) <> None ->
  is_some (search fl r s) = true.
Proof.
  intros Es Ha. destruct (search fl r s) eqn:E; [reflexivity|].
  now rewrite (search_None _ _ _ E u v Es) in Ha.
Qed.

Lemma at_bol_M_rev (pre post : text) :
  at_bol FL_M (here (rev pre) post) = true <->
  pre = [] \/ exists pre', pre = pre' ++ NL.
Proof.
  unfold at_bol; cbn.
  destruct pre as [|x pre' _] using rev_ind; cbn.
  - split; [now left | reflexivity].
  - rewrite rev_app_distr; cbn. split.
    + intros H. apply Ascii.eqb_eq in H; subst. right. now exists pre'.
    + intros [H|[p H]]; [now destruct pre'|].
      apply app_inj_tail in H. destruct H as [_ ->]. reflexivity.
Qed.

Lemma split_at_length {A} (pre pre' post post' : list A) :
  pre ++ post = pre' ++ post' -> length pre = length pre' ->
  pre = pre' /\ post = post'.
Proof.
  revert pre'. induction pre as [|x pre IH]; intros [|y pre'] E L;
    try discriminate; [now split|].
  inversion E; subst. inversion L. destruct (IH _ H1 H0) as [-> ->]. now split.
Qed.

Lemma occurs_at_split (p pre post : text) :
  (exists rest, strip_prefix p post = Some rest) <->
  occurs_at p (pre ++ post) (length pre).
Proof.
  split.
  - intros [rest H]. apply strip_prefix_Some in H. subst.
    now exists pre, rest.
  - intros (pre' & post' & E & L).
    apply split_at_length in E; [|now symmetry]. destruct E as [-> ->].
    exists post'. apply strip_prefix_app.
Qed.

(** A line beginning with [p] at the end of [pre], inside [pre ++ post]. *)
Lemma line_at_split (p pre post : text) :
  line_at p (pre ++ post) (length pre) <->
  (pre = [] \/ exists pre', pre = pre' ++ NL) /\ exists rest, post = p ++ rest.
Proof.
  unfold line_at, line_start. split.
  - intros [(a & b & E & L & Hb) Ho]. apply split_at_length in E; [|now symmetry].
    destruct E as [-> ->]. split; [exact Hb|].
    apply occurs_at_split in Ho. destruct Ho as [rest Ho].
    exists rest. now apply strip_prefix_Some.
  - intros [Hb [rest ->]]. split.
    + now exists pre, (p ++ rest).
    + now exists pre, rest.
Qed.

Lemma line_at_inv (p s : text) (k : nat) :
  line_at p s k -> exists pre post, s = pre ++ post /\ length pre = k.
Proof. intros [(pre & post & E & L & _) _]. now exists pre, post. Qed.

(** ** Splitting the document (C9) *)

Lemma attempt_link_section bf af :
  attempt FL_M link_section_pattern false (here bf af) =
  if at_bol FL_M (here bf af) then
    match strip_prefix "[Unreleased]:" af with
    | Some _ => Some (here bf af)
    | None => None
    end
  else None.
Proof.
  unfold attempt, link_section_pattern. cbn [run].
  destruct (at_bol FL_M (here bf af)); [|reflexivity].
  rewrite run_Lit. cbn [after here].
  destruct (strip_prefix _ af); reflexivity.
Qed.

Lemma link_section_hit pre post :
  attempt FL_M link_section_pattern false (here (rev pre) post) <> None <->
  line_at "[Unreleased]:" (pre ++ post) (length pre).
Proof.
  rewrite attempt_link_section, line_at_split.
  destruct (at_bol FL_M (here (rev pre) post)) eqn:B.
  - apply at_bol_M_rev in B.
    destruct (strip_prefix "[Unreleased]:" post) as [rest|] eqn:S.
    + apply strip_prefix_Some in S. split; [|discriminate].
      intros _. split; [exact B | now exists rest].
    + split; [now intros H|]. intros [_ [rest ->]].
      now rewrite strip_prefix_app in S.
  - split; [now intros H|]. intros [H _].
    apply (proj2 (at_bol_M_rev pre post)) in H. congruence.
Qed.

Lemma split_changelog_content_found content w upper bottom w' :
  split_changelog_content content w = (Ret (upper, bottom), w') ->
  w' = w /\ upper ++ bottom = content /\
  line_at "[Unreleased]:" content (length upper) /\
  forall k, line_at "[Unreleased]:" content k -> length upper <= k.
Proof.
  unfold split_changelog_content.
  destruct (search FL_M link_section_pattern content) as [m|] eqn:E;
    [|discriminate].
  destruct (search_sound _ _ _ _ E) as (u & v & e & -> & Hs & Ha & _ & _ & Hn).
  unfold ret. intros H; inversion H; subst; clear H.
  rewrite Hs, firstn_length_app, skipn_length_app.
  assert (Hl : line_at "[Unreleased]:" (u ++ v) (length u))
    by (apply link_section_hit; congruence).
  split; [reflexivity|]. split; [reflexivity|]. split; [exact Hl|].
  intros k Hk. destruct (Nat.le_gt_cases (length u) k) as [|Lt]; [assumption|].
  exfalso. destruct (line_at_inv _ _ _ Hk) as (pre & post & Es & <-).
  destruct (app_split_lt _ _ _ _ (eq_sym Es) Lt) as (u2 & -> & -> & N).
  rewrite <- app_assoc in Hk.
  apply (proj2 (link_section_hit pre (u2 ++ v))) in Hk. apply Hk.
  now apply Hn.
Qed.

Lemma link_section_absent content :
  search FL_M link_section_pattern content = None ->
  forall k, ~ line_at "[Unreleased]:" content k.
Proof.
  intros E k Hk. destruct (line_at_inv _ _ _ Hk) as (pre & post & -> & <-).
  apply link_section_hit in Hk. apply Hk.
  now apply (search_None _ _ _ E).
Qed.

(** C9. When some line of the document begins with [[Unreleased]:], the
    splitter returns [(upper, bottom)] with [upper ++ bottom] the document
    itself and [bottom] beginning at the first such line; when no line
    does, it prints a diagnostic and the process exits with status 1. *)
Theorem split_changelog_content_partition (content : text) (w : world) :
  ((exists k, line_at "[Unreleased]:" content k) ->
   exists upper bottom,
     split_changelog_content content w = (Ret (upper, bottom), w) /\
     upper ++ bottom = content /\
     starts_with "[Unreleased]:" bottom /\
     line_at "[Unreleased]:" content (length upper) /\
     forall k, line_at "[Unreleased]:" content k -> length upper <= k)
  /\
  ((forall k, ~ line_at "[Unreleased]:" content k) ->
   split_changelog_content content w =
   (Exit 1,
    printed w "Error: Could not find the link definitions section in CHANGES.md")).
Proof.
  destruct (split_changelog_content content w) as [[[upper bottom]|n|] w'] eqn:E.
  - destruct (split_changelog_content_found _ _ _ _ _ E) as (-> & Ec & Hl & Hmin).
    split.
    + intros _. exists upper, bottom.
      split; [reflexivity|]. split; [exact Ec|]. split; [|split; assumption].
      rewrite <- Ec in Hl. apply line_at_split in Hl. exact (proj2 Hl).
    + intros Hno. now elim (Hno _ Hl).
  - unfold split_changelog_content in E.
    destruct (search FL_M link_section_pattern content) eqn:Es; [discriminate|].
    split.
    + intros [k Hk]. now elim (link_section_absent _ Es k).
    + intros _. cbv [bind print exit] in E. cbv [printed]. now symmetry.
  - unfold split_changelog_content in E.
    destruct (search FL_M link_section_pattern content); discriminate.
Qed.

Lemma split_changelog_content_partition_witness :
  exists upper bottom,
    split_changelog_content sample_document sample_world
      = (Ret (upper, bottom), sample_world) /\
    upper ++ bottom = sample_document /\
    starts_with "[Unreleased]:" bottom /\
    line_at "[Unreleased]:" sample_document (length upper) /\
    forall k, line_at "[Unreleased]:" sample_document k -> length upper <= k.
Proof.
  apply (proj1 (split_changelog_content_partition sample_document sample_world)).
  exists 46.
  apply (line_at_split "[Unreleased]:"
           ("## [Unreleased]" ++ NL ++ NL ++ "## [1.0.0-2.0.0] 2024-01-01" ++ NL ++ NL)
           ("[Unreleased]: https://example.org/1.0.0-2.0.0...main" ++ NL)).
  split.
  - right. exists ("## [Unreleased]" ++ NL ++ NL ++ "## [1.0.0-2.0.0] 2024-01-01" ++ NL).
    reflexivity.
  - exists (" https://example.org/1.0.0-2.0.0...main" ++ NL). reflexivity.
Defined.

(** ** The nearcore version and the bullet (C8) *)

Lemma split_no_sep (sep : ascii) (s : text) :
  Py.contains_char sep s = false -> Py.split sep s = [s].
Proof.
  induction s as [|c s IH]; simpl; intros H; [reflexivity|].
  apply orb_false_elim in H. destruct H as [H1 H2].
  rewrite Ascii.eqb_sym, H1, (IH H2). reflexivity.
Qed.

Lemma split_not_nil (sep : ascii) (s : text) : Py.split sep s <> [].
Proof.
  destruct s as [|c s]; simpl; [discriminate|].
  destruct (Ascii.eqb c sep); [discriminate|].
  destruct (Py.split sep s); discriminate.
Qed.

Lemma split_at_sep (sep : ascii) (a b : text) :
  Py.contains_char sep a = false ->
  Py.split sep (a ++ sep :: b) = a :: Py.split sep b.
Proof.
  induction a as [|c a IH]; simpl; intros H.
  - now rewrite Ascii.eqb_refl.
  - apply orb_false_elim in H. destruct H as [H1 H2].
    rewrite Ascii.eqb_sym, H1, (IH H2). reflexivity.
Qed.

Lemma join_cons (sep p q : text) (rest : list text) :
  Py.join sep (p :: q :: rest) = p ++ sep ++ Py.join sep (q :: rest).
Proof. reflexivity. Qed.

Lemma join_split (sep : ascii) (s : text) :
  Py.join [sep] (Py.split sep s) = s.
Proof.
  induction s as [|c s IH]; [reflexivity|].
  cbn [Py.split]. pose proof (split_not_nil sep s) as Hn.
  destruct (Py.split sep s) as [|h t]; [now elim Hn|].
  destruct (Ascii.eqb_spec c sep) as [->|N].
  - rewrite join_cons, IH. reflexivity.
  - destruct t as [|h' t].
    + cbn [Py.join] in *. now rewrite IH.
    + rewrite join_cons. rewrite join_cons in IH.
      rewrite <- IH. reflexivity.
Qed.

Lemma contains_char_app (c : ascii) (a b : text) :
  Py.contains_char c (a ++ b) = Py.contains_char c a || Py.contains_char c b.
Proof. apply existsb_app. Qed.

(** C8. The nearcore version is what follows the first hyphen of the
    version identifier, and the identifier itself when it holds no hyphen;
    the bullet reads [* chore: bump nearcore to <version> in [#<pr>]]. *)
Theorem extract_nearcore_version_spec (version : text) :
  (forall semver rest,
     version = semver ++ "-" ++ rest ->
     Py.contains_char "-" semver = false ->
     extract_nearcore_version version = rest)
  /\ (Py.contains_char "-" version = false ->
      extract_nearcore_version version = version)
  /\ extract_nearcore_version "1.2.3-4.5.6-rc.1" = "4.5.6-rc.1"
  /\ (forall pr_number,
        new_entry_line (extract_nearcore_version version) pr_number =
        "* chore: bump nearcore to " ++ extract_nearcore_version version
          ++ " in [#" ++ pr_number ++ "]").
Proof.
  repeat split.
  - intros semver rest -> H. unfold extract_nearcore_version.
    rewrite contains_char_app. cbn [list_ascii_of_string app].
    replace (Py.contains_char "-" ("-"%char :: rest)) with true
      by (cbn; reflexivity).
    rewrite orb_true_r, split_at_sep by exact H. cbn [tl].
    apply (join_split "-").
  - intros H. unfold extract_nearcore_version. now rewrite H.
Qed.

Lemma extract_nearcore_version_spec_witness :
  extract_nearcore_version "0.9.1-2.4.0" = "2.4.0"
  /\ extract_nearcore_version "2.4.0" = "2.4.0".
Proof.
  split.
  - apply (proj1 (extract_nearcore_version_spec "0.9.1-2.4.0") "0.9.1" "2.4.0");
      reflexivity.
  - apply (proj1 (proj2 (extract_nearcore_version_spec "2.4.0"))). reflexivity.
Defined.

(** ** Building and reading matches *)

Section Shapes.
Variable fl : flags.

Lemma matches_One_inv a c c' :
  matches fl (One a) c c' ->
  exists x, accepts fl a x = true /\ after c = x :: after c' /\
            before c' = x :: before c /\ spans c' = spans c.
Proof. inversion 1; subst. exists x. now repeat split. Qed.

Lemma matches_Many_inv g a c c' :
  matches fl (Many g a) c c' ->
  exists m, Forall (fun x => accepts fl a x = true) m /\
            after c = m ++ after c' /\ before c' = rev m ++ before c /\
            spans c' = spans c.
Proof.
  remember (Many g a) as r eqn:Er.
  induction 1 as [| |g' a' c|g' a' c x rest c' Hc Ha _ IH| | | | | | |];
    try discriminate; inversion Er; subst.
  - exists []. now repeat split.
  - destruct (IH eq_refl) as (m & Hf & E1 & E2 & E3). simpl in *.
    exists (x :: m). repeat split.
    + now constructor.
    + now rewrite Hc, E1.
    + now rewrite E2, rev_cons_app.
    + exact E3.
Qed.

Lemma matches_Plus_inv a c c' :
  matches fl (Plus a) c c' ->
  exists m, m <> [] /\ Forall (fun x => accepts fl a x = true) m /\
            after c = m ++ after c' /\ before c' = rev m ++ before c /\
            spans c' = spans c.
Proof.
  unfold Plus. inversion 1 as [| | | | | |r1 r2 c0 c1 c2 H1 H2| | | |]; subst.
  apply matches_One_inv in H1. destruct H1 as (x & Hx & E1 & E2 & E3).
  apply matches_Many_inv in H2. destruct H2 as (m & Hm & F1 & F2 & F3).
  exists (x :: m). repeat split.
  - discriminate.
  - now constructor.
  - now rewrite E1, F1.
  - now rewrite F2, E2, rev_cons_app.
  - congruence.
Qed.

Lemma matches_Lit_inv p :
  forall c c', matches fl (Lit p) c c' ->
    after c = p ++ after c' /\ before c' = rev p ++ before c /\
    spans c' = spans c.
Proof.
  induction p as [|x p IH]; intros c c' H; simpl in H.
  - inversion H; subst. now repeat split.
  - inversion H as [| | | | | |r1 r2 c0 c1 c2 H1 H2| | | |]; subst.
    apply matches_One_inv in H1. destruct H1 as (y & Hy & E1 & E2 & E3).
    simpl in Hy. apply Ascii.eqb_eq in Hy. subst y.
    destruct (IH _ _ H2) as (F1 & F2 & F3). repeat split.
    + now rewrite E1, F1.
    + now rewrite F2, E2, rev_cons_app.
    + congruence.
Qed.

Lemma matches_One_intro a bf x rest sp :
  accepts fl a x = true ->
  matches fl (One a) {| before := bf; after := x :: rest; spans := sp |}
    {| before := x :: bf; after := rest; spans := sp |}.
Proof.
  intros H.
  exact (M_One fl a {| before := bf; after := x :: rest; spans := sp |}
           x rest eq_refl H).
Qed.

Lemma matches_Many_intro g a :
  forall m bf rest sp,
    Forall (fun x => accepts fl a x = true) m ->
    matches fl (Many g a) {| before := bf; after := m ++ rest; spans := sp |}
      {| before := rev m ++ bf; after := rest; spans := sp |}.
Proof.
  induction m as [|x m IH]; intros bf rest sp H.
  - apply M_Many_stop.
  - inversion H; subst. rewrite rev_cons_app.
    eapply M_Many_more; [reflexivity | eassumption | apply IH; assumption].
Qed.

Lemma matches_Plus_intro a m bf rest sp :
  m <> [] -> Forall (fun x => accepts fl a x = true) m ->
  matches fl (Plus a) {| before := bf; after := m ++ rest; spans := sp |}
    {| before := rev m ++ bf; after := rest; spans := sp |}.
Proof.
  intros N H. destruct m as [|x m]; [now elim N|]. inversion H; subst.
  rewrite rev_cons_app. eapply M_Cat.
  - now apply matches_One_intro.
  - now apply matches_Many_intro.
Qed.

Lemma matches_Lit_intro p :
  forall bf rest sp,
    matches fl (Lit p) {| before := bf; after := p ++ rest; spans := sp |}
      {| before := rev p ++ bf; after := rest; spans := sp |}.
Proof.
  induction p as [|x p IH]; intros bf rest sp; simpl Lit.
  - apply M_Eps.
  - rewrite rev_cons_app. eapply M_Cat.
    + apply matches_One_intro. apply Ascii.eqb_refl.
    + apply IH.
Qed.

End Shapes.

Section Inversion.
Variable fl : flags.

Lemma matches_Cat_inv r1 r2 c c' :
  matches fl (Cat r1 r2) c c' ->
  exists c1, matches fl r1 c c1 /\ matches fl r2 c1 c'.
Proof. inversion 1; subst. eauto. Qed.

Lemma matches_Alt_inv r1 r2 c c' :
  matches fl (Alt r1 r2) c c' -> matches fl r1 c c' \/ matches fl r2 c c'.
Proof. inversion 1; subst; auto. Qed.

Lemma matches_Group_inv n r c c' :
  matches fl (Group n r) c c' ->
  exists c1, matches fl r c c1 /\ c' = close_group n c c1.
Proof. inversion 1; subst. eauto. Qed.

Lemma matches_Ahead_inv r c c' :
  matches fl (Ahead r) c c' ->
  exists c1, matches fl r c c1 /\ c' = keep_spans c c1.
Proof. inversion 1; subst. eauto. Qed.

Lemma matches_Eps_inv c c' : matches fl Eps c c' -> c' = c.
Proof. now inversion 1. Qed.

Lemma matches_Bol_inv c c' : matches fl Bol c c' -> c' = c /\ at_bol fl c = true.
Proof. now inversion 1. Qed.

Lemma matches_Eol_inv c c' : matches fl Eol c c' -> c' = c /\ at_eol fl c = true.
Proof. now inversion 1. Qed.
End Inversion.

Ltac invert_matches :=
  repeat match goal with
    | H : matches _ (Plus _) _ _ |- _ =>
        apply matches_Plus_inv in H; destruct H as (? & ? & ? & ? & ? & ?)
    | H : matches _ (Lit _) _ _ |- _ =>
        apply matches_Lit_inv in H; destruct H as (? & ? & ?)
    | H : matches _ (One _) _ _ |- _ =>
        apply matches_One_inv in H; destruct H as (? & ? & ? & ? & ?)
    | H : matches _ (Many _ _) _ _ |- _ =>
        apply matches_Many_inv in H; destruct H as (? & ? & ? & ? & ?)
    | H : matches _ (Opt _) _ _ |- _ => unfold Opt in H
    | H : matches _ (Cat _ _) _ _ |- _ =>
        apply matches_Cat_inv in H; destruct H as (? & ? & ?)
    | H : matches _ (Alt _ _) _ _ |- _ =>
        apply matches_Alt_inv in H; destruct H as [?|?]
    | H : matches _ (Group _ _) _ _ |- _ =>
        apply matches_Group_inv in H; destruct H as (? & ? & ?); subst
    | H : matches _ (Ahead _) _ _ |- _ =>
        apply matches_Ahead_inv in H; destruct H as (? & ? & ?); subst
    | H : matches _ Eps _ _ |- _ => apply matches_Eps_inv in H; subst
    | H : matches _ Bol _ _ |- _ =>
        apply matches_Bol_inv in H; destruct H as (? & ?); subst
    | H : matches _ Eol _ _ |- _ =>
        apply matches_Eol_inv in H; destruct H as (? & ?); subst
    end.

(** ** The version validator (C7) *)

Lemma at_eol_0 (c : cursor) :
  at_eol FL_0 c = true <-> after c = [] \/ after c = NL.
Proof.
  unfold at_eol. destruct (after c) as [|x [|y rest]]; cbn.
  - split; [now left | reflexivity].
  - rewrite andb_true_r. split.
    + intros H. apply Ascii.eqb_eq in H. subst. now right.
    + intros [H|H]; [discriminate|]. inversion H. reflexivity.
  - rewrite andb_false_r. split; [discriminate|]. intros [H|H]; discriminate.
Qed.

Lemma validate_version_match (v : text) :
  validate_version (Some v) = true <->
  v <> [] /\ exists e, attempt FL_0 VERSION_PATTERN false (here [] v) = Some e.
Proof.
  unfold validate_version, match_, start_cursor. cbn [firstn skipn rev].
  fold (here [] v). destruct v as [|x v]; cbn [Py.truthy negb].
  - split; [discriminate | now intros [H _]].
  - destruct (attempt FL_0 VERSION_PATTERN false _) as [e|]; cbn.
    + split; [|reflexivity]. intros _. split; [discriminate | now exists e].
    + split; [discriminate|]. now intros [_ [e H]].
Qed.

Ltac name_chars :=
  repeat match goal with
    | H : accepts _ (Chr _) ?x = true |- _ =>
        cbn in H; apply Ascii.eqb_eq in H; subst x
    end.

Lemma version_pattern_sound (v : text) (e : cursor) :
  matches FL_0 VERSION_PATTERN (here [] v) e ->
  exists v', version_shape v' /\ (v = v' \/ v = v' ++ NL).
Proof.
  unfold VERSION_PATTERN. intros H. invert_matches; cbn [here after] in *;
    name_chars;
    match goal with H : at_eol _ _ = true |- _ =>
      apply at_eol_0 in H; cbn [close_group after] in H; rename H into Hend end.
  - (* with the pre-release group *)
    match goal with
    | Hv : v = ?a ++ after ?c0, H0 : after ?c0 = _ :: after ?c2,
      Hb : after ?c2 = ?b ++ after ?c3, H3 : after ?c3 = _ :: after ?c4,
      Hl : after ?c4 = ?l ++ after ?c5, H5 : after ?c5 = _ :: after ?c6,
      Hd : after ?c6 = ?d ++ after ?c7 |- _ =>
        exists (a ++ "-" ++ b ++ "-" ++ l ++ "." ++ d); split;
        [ exists a, b; split; [split; assumption|]; split; [split; assumption|];
          right; exists l, d; split; [split; assumption|];
          split; [split; assumption | reflexivity]
        | rewrite Hv, H0, Hb, H3, Hl, H5, Hd; cbn [app list_ascii_of_string];
          destruct Hend as [Hend|Hend]; rewrite Hend; [left | right];
          repeat (rewrite <- ?app_assoc; cbn [app]); rewrite ?app_nil_r;
          reflexivity ]
    end.
  - match goal with
    | Hv : v = ?a ++ after ?c0, H0 : after ?c0 = _ :: after ?c2,
      Hb : after ?c2 = ?b ++ after ?c3 |- _ =>
        exists (a ++ "-" ++ b); split;
        [ exists a, b; split; [split; assumption|]; split; [split; assumption|];
          left; reflexivity
        | rewrite Hv, H0, Hb; cbn [app list_ascii_of_string];
          destruct Hend as [Hend|Hend]; rewrite Hend; [left | right];
          repeat (rewrite <- ?app_assoc; cbn [app]); rewrite ?app_nil_r;
          reflexivity ]
    end.
Qed.

Lemma version_pattern_complete (v' t : text) :
  version_shape v' -> t = [] \/ t = NL ->
  exists e, attempt FL_0 VERSION_PATTERN false (here [] (v' ++ t)) = Some e.
Proof.
  intros (a & b & [Na Fa] & [Nb Fb] & Hv) Ht.
  assert (Hend : forall bf sp,
             at_eol FL_0 {| before := bf; after := t; spans := sp |} = true)
    by (intros; apply at_eol_0; exact Ht).
  enough (Hm : exists c', matches FL_0 VERSION_PATTERN (here [] (v' ++ t)) c').
  { destruct Hm as [c' Hm].
    pose proof (run_complete FL_0 _ _ _ Hm eq_refl
                  (finish false (here [] (v' ++ t)))) as Hc.
    unfold attempt.
    destruct (run FL_0 VERSION_PATTERN _ _) as [e|]; [now exists e|].
    exfalso. apply Hc; [discriminate | reflexivity]. }
  unfold VERSION_PATTERN, here.
  destruct Hv as [->|(l & d & [Nl Fl] & [Nd Fd] & ->)];
    repeat (rewrite <- ?app_assoc; cbn [app list_ascii_of_string]).
  - eexists. eapply M_Cat; [apply M_Bol; reflexivity|].
    eapply M_Cat; [apply matches_Plus_intro; [exact Na | exact Fa]|].
    eapply M_Cat; [apply matches_One_intro; reflexivity|].
    eapply M_Cat; [apply matches_Plus_intro; [exact Nb | exact Fb]|].
    eapply M_Cat; [apply M_Alt_r, M_Eps|].
    apply M_Eol, Hend.
  - eexists. eapply M_Cat; [apply M_Bol; reflexivity|].
    eapply M_Cat; [apply matches_Plus_intro; [exact Na | exact Fa]|].
    eapply M_Cat; [apply matches_One_intro; reflexivity|].
    eapply M_Cat; [apply matches_Plus_intro; [exact Nb | exact Fb]|].
    eapply M_Cat.
    + apply M_Alt_l, M_Group.
      eapply M_Cat; [apply matches_One_intro; reflexivity|].
      eapply M_Cat; [apply matches_Plus_intro; [exact Nl | exact Fl]|].
      eapply M_Cat; [apply matches_One_intro; reflexivity|].
      apply matches_Plus_intro; [exact Nd | exact Fd].
    + apply M_Eol. unfold close_group. cbn [before after spans]. apply Hend.
Qed.

Lemma version_shape_not_nil (v : text) : version_shape v -> v <> [].
Proof.
  intros (a & b & [Na _] & _ & [->|(l & d & _ & _ & ->)]);
    destruct a; try (now elim Na); discriminate.
Qed.

(** What the validator accepts: the shape, and the shape followed by one
    line feed. *)
Lemma validate_version_accepts (v : text) :
  validate_version (Some v) = true <->
  version_shape v \/ exists v', version_shape v' /\ v = v' ++ NL.
Proof.
  rewrite validate_version_match. split.
  - intros [_ [e He]]. apply attempt_sound in He. destruct He as [Hm _].
    destruct (version_pattern_sound _ _ Hm) as (v' & Hs & [->| ->]);
      [now left | right; now exists v'].
  - intros [Hs|(v' & Hs & ->)].
    + split; [now apply version_shape_not_nil|].
      rewrite <- (app_nil_r v). apply version_pattern_complete; auto.
    + split.
      * pose proof (version_shape_not_nil _ Hs). destruct v'; [congruence|discriminate].
      * apply version_pattern_complete; auto.
Qed.

Lemma validate_version_None : validate_version None = false.
Proof. reflexivity. Qed.

Lemma validate_version_empty : validate_version (Some []) = false.
Proof. reflexivity. Qed.

Lemma all_of_last (p : ascii -> bool) (s : text) :
  all_of p s -> exists s' x, s = s' ++ [x] /\ p x = true.
Proof.
  intros [N F]. destruct s as [|y s] using rev_ind; [now elim N|].
  exists s, y. split; [reflexivity|].
  apply Forall_app in F. destruct F as [_ F]. now inversion F.
Qed.

(** The last character of a version of the shape is a digit or a dot. *)
Lemma version_shape_last (v : text) :
  version_shape v ->
  exists v' x, v = v' ++ [x] /\ digit_or_dot_char x = true.
Proof.
  intros (a & b & _ & Hb & [->|(l & d & _ & Hd & ->)]).
  - destruct (all_of_last _ _ Hb) as (b' & x & -> & Hx).
    exists (a ++ "-" ++ b'), x. split; [|exact Hx].
    now rewrite <- !app_assoc.
  - destruct (all_of_last _ _ Hd) as (d' & x & -> & Hx).
    exists (a ++ "-" ++ b ++ "-" ++ l ++ "." ++ d'), x. split.
    + now rewrite <- !app_assoc.
    + unfold digit_or_dot_char. now rewrite Hx.
Qed.

(** C7, checked on the version [1.2.3-4.5.6] followed by a line feed: the
    validator accepts it, although it is not of the shape
    [<digits-and-dots>-<digits-and-dots>[-<lowercase-letters>.<digits>]]. *)
Theorem validate_version_trailing_newline :
  validate_version (Some ("1.2.3-4.5.6" ++ NL)) = true
  /\ ~ version_shape ("1.2.3-4.5.6" ++ NL).
Proof.
  split; [reflexivity|].
  intros H. destruct (version_shape_last _ H) as (v' & x & E & Hx).
  change ("1.2.3-4.5.6" ++ NL) with ("1.2.3-4.5.6" ++ [LF]) in E.
  apply app_inj_tail in E. destruct E as [_ <-]. discriminate.
Qed.

(** ** Lines *)

Lemma lines_not_nil (s : text) : lines s <> [].
Proof. apply split_not_nil. Qed.

Lemma contains_char_false (c : ascii) (s : text) :
  Py.contains_char c s = false <-> ~ In c s.
Proof.
  unfold Py.contains_char. split.
  - intros H Hin. assert (existsb (Ascii.eqb c) s = true)
      by (apply existsb_exists; exists c; split; [exact Hin | apply Ascii.eqb_refl]).
    congruence.
  - intros H. destruct (existsb (Ascii.eqb c) s) eqn:E; [|reflexivity].
    apply existsb_exists in E. destruct E as (x & Hx & Ex).
    apply Ascii.eqb_eq in Ex. subst. now elim H.
Qed.

Lemma lines_no_LF (l : text) : no_LF l -> lines l = [l].
Proof. intros H. apply split_no_sep. now apply contains_char_false. Qed.

Lemma lines_app_LF (pre l : text) : lines (pre ++ LF :: l) = lines pre ++ lines l.
Proof.
  unfold lines. induction pre as [|c p IH]; cbn [app Py.split].
  - now rewrite Ascii.eqb_refl.
  - rewrite IH. destruct (Ascii.eqb c LF); [reflexivity|].
    pose proof (split_not_nil LF p) as N.
    destruct (Py.split LF p); [now elim N | reflexivity].
Qed.

(** The piece of a text after its last line feed is its last line. *)
Lemma last_line (pre l : text) :
  no_LF l -> pre = [] \/ (exists pre', pre = pre' ++ NL) ->
  last (lines (pre ++ l)) [] = l.
Proof.
  intros Hl [->|[pre' ->]].
  - cbn [app]. now rewrite lines_no_LF.
  - rewrite <- app_assoc. cbn [NL app].
    rewrite lines_app_LF, (lines_no_LF l) by exact Hl.
    apply last_last.
Qed.

(** Every line of a text is a piece of it. *)
Lemma In_lines (s l : text) :
  In l (lines s) -> exists a b, s = a ++ l ++ b.
Proof.
  unfold lines. revert l. induction s as [|c s IH]; intros l H; cbn [Py.split] in H.
  - destruct H as [<-|[]]. now exists [], [].
  - pose proof (split_not_nil LF s) as N.
    destruct (Ascii.eqb_spec c LF) as [->|Nc].
    + destruct H as [<-|H].
      * now exists [], (LF :: s).
      * destruct (IH _ H) as (a & b & ->). now exists (LF :: a), b.
    + destruct (Py.split LF s) as [|h t] eqn:E; [now elim N|].
      destruct H as [<-|H].
      * destruct (IH h (or_introl eq_refl)) as (a & b & Es).
        (* the first line of [s] begins [s] *)
        assert (Hh : exists b', s = h ++ b').
        { clear -E. revert h t E. induction s as [|d s IHs]; intros h t E;
            cbn [Py.split] in E.
          - inversion E. now exists [].
          - destruct (Ascii.eqb d LF).
            + inversion E. now exists (d :: s).
            + pose proof (split_not_nil LF s) as N.
              destruct (Py.split LF s) as [|h' t'] eqn:E'; [now elim N|].
              inversion E; subst. destruct (IHs _ _ eq_refl) as [b' ->].
              now exists b'. }
        destruct Hh as [b' ->]. now exists [], b'.
      * destruct (IH l (or_intror H)) as (a & b & ->). now exists (c :: a), b.
Qed.

Lemma no_LF_app (a b : text) : no_LF (a ++ b) <-> no_LF a /\ no_LF b.
Proof.
  unfold no_LF. split.
  - intros H. split; intros Hin; apply H, in_or_app; auto.
  - intros [Ha Hb] Hin. apply in_app_or in Hin. tauto.
Qed.

Lemma cut_last_line (pre : text) :
  exists pre1 a, pre = pre1 ++ a /\ no_LF a /\
                 (pre1 = [] \/ exists p, pre1 = p ++ NL).
Proof.
  induction pre as [|c pre IH] using rev_ind.
  - exists [], []. repeat split; [intros [] | now left].
  - destruct IH as (pre1 & a & -> & Ha & Hp).
    destruct (Ascii.eqb_spec c LF) as [->|N].
    + exists ((pre1 ++ a) ++ NL), []. rewrite app_nil_r.
      repeat split; [intros [] | right; now exists (pre1 ++ a)].
    + exists pre1, (a ++ [c]). rewrite app_assoc. repeat split; [|exact Hp].
      apply no_LF_app. split; [exact Ha|]. intros [H|[]]. congruence.
Qed.

Lemma cut_first_line (post : text) :
  exists b post2, post = b ++ post2 /\ no_LF b /\
                  (post2 = [] \/ exists q, post2 = LF :: q).
Proof.
  induction post as [|c post IH].
  - exists [], []. repeat split; [intros [] | now left].
  - destruct (Ascii.eqb_spec c LF) as [->|N].
    + exists [], (LF :: post). repeat split; [intros [] | right; now exists post].
    + destruct IH as (b & post2 & -> & Hb & Hq).
      exists (c :: b), post2. repeat split; [|exact Hq].
      intros [H|H]; [congruence | now apply Hb].
Qed.

Lemma In_line (pre1 l post2 : text) :
  no_LF l ->
  pre1 = [] \/ (exists p, pre1 = p ++ NL) ->
  post2 = [] \/ (exists q, post2 = LF :: q) ->
  In l (lines (pre1 ++ l ++ post2)).
Proof.
  intros Hl Hp Hq.
  assert (H : In l (lines (l ++ post2))).
  { destruct Hq as [->|[q ->]].
    - rewrite app_nil_r, lines_no_LF by exact Hl. now left.
    - unfold lines. rewrite split_at_sep by (now apply contains_char_false).
      now left. }
  destruct Hp as [->|[p ->]]; [exact H|].
  rewrite <- app_assoc. cbn [NL app]. rewrite lines_app_LF.
  apply in_or_app. now right.
Qed.

(** A piece without line feed lies inside one line. *)
Lemma piece_in_line (pre x post : text) :
  no_LF x ->
  exists a b, In (a ++ x ++ b) (lines (pre ++ x ++ post)).
Proof.
  intros Hx.
  destruct (cut_last_line pre) as (pre1 & a & -> & Ha & Hp).
  destruct (cut_first_line post) as (b & post2 & -> & Hb & Hq).
  exists a, b.
  replace ((pre1 ++ a) ++ x ++ b ++ post2) with (pre1 ++ (a ++ x ++ b) ++ post2)
    by (now rewrite <- !app_assoc).
  apply In_line; [|exact Hp | exact Hq].
  apply no_LF_app; split; [exact Ha|]. apply no_LF_app; now split.
Qed.

Lemma groupless_Lit (p : text) : groupless (Lit p) = true.
Proof. induction p; simpl; [reflexivity | assumption]. Qed.

Lemma tidy_Lit (p : text) : tidy (Lit p) = true.
Proof. induction p; simpl; [reflexivity | assumption]. Qed.

(** An attempt succeeds exactly when the pattern has a match there (the
    attempt is free to end anywhere). *)
Lemma attempt_iff_matches fl r c :
  tidy r = true ->
  (exists e, attempt fl r false c = Some e) <-> exists c', matches fl r c c'.
Proof.
  intros T. split.
  - intros [e He]. exists e. now apply attempt_sound in He.
  - intros [c' Hm]. unfold attempt.
    pose proof (run_complete fl _ _ _ Hm T (finish false c)) as Hc.
    destruct (run fl r (finish false c) c) as [e|]; [now exists e|].
    exfalso. apply Hc; [discriminate | reflexivity].
Qed.

Lemma search_iff fl r s :
  tidy r = true ->
  is_some (search fl r s) = true <->
  exists u v c', s = u ++ v /\ matches fl r (here (rev u) v) c'.
Proof.
  intros T. split.
  - destruct (search fl r s) as [m|] eqn:E; [|discriminate]. intros _.
    destruct (search_sound _ _ _ _ E) as (u & v & e & -> & _ & Ha & _).
    exists u, v, e. split; [reflexivity|]. now apply attempt_sound in Ha.
  - intros (u & v & c' & -> & Hm).
    apply search_is_some with (u := u) (v := v); [reflexivity|].
    destruct (proj2 (attempt_iff_matches fl r (here (rev u) v) T)) as [e He];
      [now exists c' | congruence].
Qed.

(** ** The link reference of the pull request (C6) *)

Lemma pr_link_matches bf af :
  (exists c', matches FL_0 PR_LINK_PATTERN (here bf af) c') <->
  exists n1 n2 post,
    af = "[#" ++ n1 ++ "]: " ++ REPO_URL ++ "/pull/" ++ n2 ++ post /\
    all_of Py.isdigit n1 /\ all_of Py.isdigit n2.
Proof.
  unfold PR_LINK_PATTERN. split.
  - intros [c' H]. invert_matches. cbn [here after] in *.
    match goal with
    | H1 : af = _ ++ after ?c1, H2 : after ?c1 = ?n1 ++ after ?c2,
      H3 : after ?c2 = _ ++ after ?c3, H4 : after ?c3 = _ ++ after ?c4,
      H5 : after ?c4 = _ ++ after ?c5, H6 : after ?c5 = ?n2 ++ after ?c6 |- _ =>
        exists n1, n2, (after c6); split;
        [ rewrite H1, H2, H3, H4, H5, H6; now rewrite <- ?app_assoc
        | split; split; assumption ]
    end.
  - intros (n1 & n2 & post & -> & [N1 F1] & [N2 F2]). unfold here.
    eexists.
    eapply M_Cat; [apply matches_Lit_intro|].
    eapply M_Cat; [apply matches_Plus_intro; [exact N1 | exact F1]|].
    eapply M_Cat; [apply matches_Lit_intro|].
    eapply M_Cat; [apply matches_Lit_intro|].
    eapply M_Cat; [apply matches_Lit_intro|].
    rewrite <- (app_nil_r post) at 1. rewrite app_nil_r.
    apply matches_Plus_intro; [exact N2 | exact F2].
Qed.

Lemma tidy_PR_LINK_PATTERN : tidy PR_LINK_PATTERN = true.
Proof. reflexivity. Qed.

Lemma pr_link_search (s : text) :
  is_some (search FL_0 PR_LINK_PATTERN s) = true <-> pr_link_in s.
Proof.
  rewrite (search_iff _ _ _ tidy_PR_LINK_PATTERN). split.
  - intros (u & v & c' & -> & Hm).
    destruct (proj1 (pr_link_matches (rev u) v)) as (n1 & n2 & post & -> & H1 & H2);
      [now exists c'|].
    now exists u, n1, n2, post.
  - intros (pre & n1 & n2 & post & -> & H1 & H2).
    destruct (proj2 (pr_link_matches (rev pre)
                ("[#" ++ n1 ++ "]: " ++ REPO_URL ++ "/pull/" ++ n2 ++ post)))
      as [c' Hm]; [now exists n1, n2, post|].
    eexists pre, _, c'. split; [reflexivity | exact Hm].
Qed.

Lemma all_of_no_LF (p : ascii -> bool) (s : text) :
  p LF = false -> all_of p s -> no_LF s.
Proof.
  intros Hp [_ F] Hin. rewrite Forall_forall in F. specialize (F _ Hin). congruence.
Qed.

Lemma text_no_LF (s : text) : Py.contains_char LF s = false -> no_LF s.
Proof. apply contains_char_false. Qed.

(** A link reference never spans two lines: the body holds one exactly
    when one of its lines does. *)
Lemma pr_link_in_lines (s : text) :
  pr_link_in s <-> exists l, In l (lines s) /\ pr_link_in l.
Proof.
  split.
  - intros (pre & n1 & n2 & post & -> & H1 & H2).
    set (x := "[#" ++ n1 ++ "]: " ++ REPO_URL ++ "/pull/" ++ n2).
    assert (Hx : no_LF x).
    { unfold x. repeat (apply no_LF_app; split);
        try (now apply text_no_LF);
        now apply (all_of_no_LF Py.isdigit). }
    destruct (piece_in_line pre x post Hx) as (a & b & Hin).
    exists (a ++ x ++ b). split.
    + unfold x in *. repeat rewrite <- app_assoc in *. exact Hin.
    + exists a, n1, n2, b. unfold x. repeat rewrite <- app_assoc.
      split; [reflexivity | split; assumption].
  - intros (l & Hin & (pre & n1 & n2 & post & -> & H1 & H2)).
    destruct (In_lines _ _ Hin) as (a & b & ->).
    exists (a ++ pre), n1, n2, (post ++ b). repeat rewrite <- app_assoc.
    split; [reflexivity | split; assumption].
Qed.

Lemma add_pr_link_eq (content pr_link : text) :
  add_pr_link content pr_link =
  if is_some (search FL_0 PR_LINK_PATTERN content)
  then content ++ NL ++ pr_link
  else content ++ NL ++ NL ++ pr_link.
Proof. unfold add_pr_link. now destruct (search FL_0 PR_LINK_PATTERN content). Qed.

(** C6, as the script does it.  When a line of the body holds a link
    reference of this repository, the new reference is appended to the end
    of the body after one line feed, so that it sits directly below the
    block of references whenever that block ends the body; otherwise it is
    appended after a blank line. *)
Theorem add_pr_link_spec (content pr_link : text) :
  ((exists l, In l (lines content) /\ pr_link_in l) ->
   add_pr_link content pr_link = content ++ NL ++ pr_link)
  /\ ((forall l, In l (lines content) -> ~ pr_link_in l) ->
      add_pr_link content pr_link = content ++ NL ++ NL ++ pr_link)
  /\ (pr_link_in (last (lines content) []) ->
      directly_below_links (add_pr_link content pr_link) pr_link).
Proof.
  rewrite add_pr_link_eq.
  assert (Hyes : (exists l, In l (lines content) /\ pr_link_in l) ->
                 is_some (search FL_0 PR_LINK_PATTERN content) = true)
    by (intros H; now apply pr_link_search, pr_link_in_lines).
  split; [|split].
  - intros H. now rewrite (Hyes H).
  - intros H. destruct (is_some _) eqn:E; [|reflexivity].
    apply pr_link_search, pr_link_in_lines in E.
    destruct E as (l & Hin & Hl). now elim (H l).
  - intros Hlast.
    rewrite Hyes.
    + destruct (cut_last_line content) as (pre1 & a & -> & Ha & Hp).
      rewrite (last_line pre1 a Ha Hp) in Hlast.
      exists pre1, a. rewrite <- app_assoc. now repeat split.
    + exists (last (lines content) []). split; [|exact Hlast].
      pose proof (lines_not_nil content) as N.
      destruct (lines content) as [|h t] using rev_ind; [now elim N|].
      rewrite last_last. apply in_or_app. right. now left.
Qed.

Lemma add_pr_link_spec_witness :
  add_pr_link ("* a in [#1]" ++ NL ++ NL ++ "[#1]: " ++ REPO_URL ++ "/pull/1")
    (pr_link_line "42")
  = ("* a in [#1]" ++ NL ++ NL ++ "[#1]: " ++ REPO_URL ++ "/pull/1")
      ++ NL ++ pr_link_line "42".
Proof.
  apply (proj1 (add_pr_link_spec _ _)).
  exists ("[#1]: " ++ REPO_URL ++ "/pull/1"). split.
  - vm_compute. right. right. now left.
  - exists [], "1", "1", []. split; [reflexivity|].
    split; (split; [discriminate | repeat constructor]).
Defined.

(** C6 as stated fails on a body whose link reference is followed by other
    text: a line holds a link reference, yet the new reference is not
    directly below the block of references. *)
Lemma add_pr_link_not_below_block :
  (exists l, In l (lines links_then_text) /\ pr_link_in l)
  /\ ~ directly_below_links
         (add_pr_link links_then_text (pr_link_line "42")) (pr_link_line "42").
Proof.
  assert (Hin : exists l, In l (lines links_then_text) /\ pr_link_in l).
  { exists ("[#1]: " ++ REPO_URL ++ "/pull/1"). split.
    - vm_compute. now left.
    - apply pr_link_search. reflexivity. }
  split; [exact Hin|].
  rewrite add_pr_link_eq.
  replace (is_some (search FL_0 PR_LINK_PATTERN links_then_text)) with true
    by (symmetry; now apply pr_link_search, pr_link_in_lines).
  intros (pre & l & E & Hl & Hp & Hlink).
  replace (pre ++ l ++ NL ++ pr_link_line "42")
    with ((pre ++ l) ++ NL ++ pr_link_line "42") in E
    by (now rewrite <- app_assoc).
  apply app_inv_tail in E.
  pose proof (last_line pre l Hl Hp) as Hlast. rewrite <- E in Hlast.
  vm_compute in Hlast. subst l.
  apply pr_link_search in Hlink. vm_compute in Hlink. discriminate.
Qed.

(** ** Merging the bullet into the unreleased body (C4, C5) *)

Lemma create_new_entry_empty (new_entry : text) :
  create_new_entry [] new_entry = "### Changes" ++ NL ++ NL ++ new_entry.
Proof. reflexivity. Qed.

(** Scenario A: empty body, version [1.2.3-4.5.6], pull request 42. *)
Lemma scenario_A :
  add_pr_link
    (create_new_entry []
       (new_entry_line (extract_nearcore_version "1.2.3-4.5.6") "42"))
    (pr_link_line "42")
  = "### Changes" ++ NL ++ NL ++ "* chore: bump nearcore to 4.5.6 in [#42]"
      ++ NL ++ NL ++ "[#42]: " ++ REPO_URL ++ "/pull/42".
Proof. reflexivity. Qed.

(** Scenario B: the body is the heading [### Changes] and one bullet. *)
Lemma scenario_B (new_entry : text) :
  create_new_entry ("### Changes" ++ NL ++ NL ++ "* foo") new_entry
  = "### Changes" ++ NL ++ NL ++ new_entry ++ NL ++ "* foo".
Proof. reflexivity. Qed.

(** C5, checked on a body that has no heading [Changes] but mentions the
    text [## Changes] in a bullet: the bullet is cut after that text, and
    no [### Changes] heading is put above the body. *)
Theorem create_new_entry_cuts_bullet :
  let bullet := new_entry_line "4.5.6" "42" in
  has_changes_heading body_mentioning_changes = false
  /\ create_new_entry body_mentioning_changes bullet
     = "* fix typo in the ## Changes" ++ NL ++ NL ++ bullet ++ NL ++ "heading"
  /\ create_new_entry body_mentioning_changes bullet
     <> "### Changes" ++ NL ++ NL ++ bullet ++ NL ++ NL
          ++ body_mentioning_changes.
Proof.
  cbv zeta. split; [reflexivity|]. split; [reflexivity|].
  intros H. vm_compute in H. discriminate.
Qed.

(** On a body whose heading [### Changes] comes after a heading that begins
    with [Changes], the bullet is put inside the earlier heading, which is
    cut in two, and not after the heading [Changes]. *)
Lemma create_new_entry_cuts_heading :
  let bullet := new_entry_line "4.5.6" "42" in
  has_changes_heading body_with_two_headings = true
  /\ create_new_entry body_with_two_headings bullet
     = "### Changes" ++ NL ++ NL ++ bullet ++ NL ++ "to the API" ++ NL ++ NL
         ++ "* x" ++ NL ++ NL ++ "### Changes" ++ NL ++ NL ++ "* foo"
  /\ create_new_entry body_with_two_headings bullet
     <> "### Changes to the API" ++ NL ++ NL ++ "* x" ++ NL ++ NL
          ++ "### Changes" ++ NL ++ NL ++ bullet ++ NL ++ "* foo".
Proof.
  cbv zeta. split; [reflexivity|]. split; [reflexivity|].
  intros H. vm_compute in H. discriminate.
Qed.

(** ** Locating the Unreleased heading and the previous release *)

Lemma search_from_sound fl r s i m :
  search_from fl r s i = Some m ->
  exists u v e,
    skipn i s = u ++ v /\ m_start m = length (firstn i s) + length u /\
    attempt fl r false (here (rev u ++ rev (firstn i s)) v) = Some e /\
    m_end m = pos e /\ m_spans m = spans e.
Proof.
  unfold search_from.
  destruct (scan fl r false (rev (firstn i s)) (skipn i s)) as [[b e]|] eqn:E;
    [|discriminate].
  intros H; inversion H; subst; clear H.
  destruct (scan_sound _ _ _ _ _ _ _ E) as (u & v & Es & -> & Ha & _).
  exists u, v, e. cbn. unfold pos; cbn.
  rewrite length_app, !length_rev. repeat split; [exact Es | lia | exact Ha].
Qed.

Lemma attempt_unreleased bf af :
  attempt FL_M UNRELEASED_SECTION_PATTERN false (here bf af) =
  if at_bol FL_M (here bf af) then
    match strip_prefix "## [Unreleased]" af with
    | Some rest =>
        Some {| before := rev "## [Unreleased]" ++ bf; after := rest; spans := [] |}
    | None => None
    end
  else None.
Proof.
  unfold attempt, UNRELEASED_SECTION_PATTERN. cbn [run].
  destruct (at_bol FL_M (here bf af)); [|reflexivity].
  rewrite run_Lit. cbn [after here before spans].
  destruct (strip_prefix _ af); reflexivity.
Qed.

Lemma unreleased_found upper m :
  search FL_M UNRELEASED_SECTION_PATTERN upper = Some m ->
  exists pre rest,
    upper = pre ++ UNRELEASED_HEADING ++ rest /\
    m_start m = length pre /\ m_end m = length (pre ++ UNRELEASED_HEADING) /\
    (pre = [] \/ exists pre', pre = pre' ++ NL).
Proof.
  intros E.
  destruct (search_sound _ _ _ _ E) as (u & v & e & -> & Hs & Ha & He & _).
  rewrite attempt_unreleased in Ha.
  destruct (at_bol FL_M (here (rev u) v)) eqn:B; [|discriminate].
  destruct (strip_prefix "## [Unreleased]" v) as [rest|] eqn:S; [|discriminate].
  apply strip_prefix_Some in S. subst v. inversion Ha; subst e; clear Ha.
  exists u, rest. repeat split; try assumption.
  - rewrite He. unfold pos. cbn. rewrite length_app, length_rev. cbn. lia.
  - now apply at_bol_M_rev in B.
Qed.

Lemma find_unreleased_section_found upper w m w' :
  find_unreleased_section upper w = (Ret m, w') ->
  w' = w /\
  exists pre rest,
    upper = pre ++ UNRELEASED_HEADING ++ rest /\
    m_start m = length pre /\ m_end m = length (pre ++ UNRELEASED_HEADING) /\
    (pre = [] \/ exists pre', pre = pre' ++ NL).
Proof.
  unfold find_unreleased_section.
  destruct (search FL_M UNRELEASED_SECTION_PATTERN upper) as [m0|] eqn:E;
    [|discriminate].
  unfold ret. intros H; inversion H; subst; clear H. split; [reflexivity|].
  now apply unreleased_found.
Qed.

Lemma find_unreleased_section_outcome upper w :
  (exists m, find_unreleased_section upper w = (Ret m, w))
  \/ find_unreleased_section upper w =
     (Exit 1, printed w "Error: Could not find [Unreleased] section in CHANGES.md").
Proof.
  unfold find_unreleased_section.
  destruct (search FL_M UNRELEASED_SECTION_PATTERN upper) as [m|];
    [left; now exists m | right; reflexivity].
Qed.

Lemma label_char_accepts fl x :
  accepts fl label_char x = true -> x <> backslash /\ x <> LF.
Proof.
  cbn. intros H. split; intros ->; discriminate.
Qed.

Lemma release_entry_inv bf af e :
  attempt FL_M RELEASE_ENTRY_PATTERN false (here bf af) = Some e ->
  exists l tail,
    af = "## [" ++ l ++ "]" ++ tail /\
    all_of (fun x => accepts FL_M label_char x) l /\
    at_bol FL_M (here bf af) = true /\
    after e = tail /\
    spans e = [(1, (length bf + 4, length bf + 4 + length l))].
Proof.
  intros H. apply attempt_sound in H. destruct H as [H _].
  unfold RELEASE_ENTRY_PATTERN in H. invert_matches. name_chars.
  cbn [here after before spans] in *.
  match goal with
  | H1 : af = _ ++ after ?c1, H2 : after ?c1 = ?l ++ after ?c2,
    H3 : after (close_group _ _ ?c2) = _ :: after e,
    B1 : before ?c1 = _, B2 : before ?c2 = _,
    S1 : spans ?c1 = _, S2 : spans ?c2 = _,
    S3 : spans e = _ |- _ =>
      exists l, (after e); cbn [close_group after spans] in *;
      split; [rewrite H1, H2, H3; reflexivity|];
      split; [split; assumption|];
      split; [assumption|]; split; [reflexivity|];
      rewrite S3, S2, S1; unfold pos; rewrite B2, B1;
      rewrite !length_app, !length_rev; cbn [length list_ascii_of_string];
      do 3 f_equal; lia
  end.
Qed.

Lemma slice_app (p l q : text) :
  Py.slice (p ++ l ++ q) (length p) (length p + length l) = l.
Proof.
  unfold Py.slice.
  replace (p ++ l ++ q) with ((p ++ l) ++ q) by (now rewrite app_assoc).
  rewrite <- length_app, firstn_length_app. apply skipn_length_app.
Qed.

Lemma firstn_skipn_length {A} (i : nat) (s : list A) :
  i <= length s -> length (firstn i s) = i.
Proof. intros H. rewrite length_firstn. lia. Qed.

Lemma previous_release_found upper i first_release :
  i <= length upper ->
  search_from FL_M RELEASE_ENTRY_PATTERN upper i = Some first_release ->
  exists pv mid tail,
    group upper first_release 1 = Some pv /\
    m_start first_release = i + length mid /\
    Py.slice upper i (m_start first_release) = mid /\
    skipn i upper = mid ++ "## [" ++ pv ++ "]" ++ tail /\
    skipn (m_start first_release) upper = "## [" ++ pv ++ "]" ++ tail /\
    all_of (fun x => accepts FL_M label_char x) pv.
Proof.
  intros Hle E.
  destruct (search_from_sound _ _ _ _ _ E) as (u & v & e & Es & Hs & Ha & _ & Hsp).
  destruct (release_entry_inv _ _ _ Ha) as (l & tail & -> & Hl & _ & _ & Hspans).
  rewrite length_app, !length_rev, (firstn_skipn_length _ _ Hle) in Hspans.
  rewrite (firstn_skipn_length _ _ Hle) in Hs.
  assert (Eu : upper = firstn i upper ++ u ++ "## [" ++ l ++ "]" ++ tail)
    by (rewrite <- Es; symmetry; apply firstn_skipn).
  set (F := firstn i upper) in *.
  assert (LF_ : length F = i) by (apply firstn_skipn_length; exact Hle).
  exists l, u, tail.
  split.
  { unfold group. rewrite Hsp, Hspans. cbn [lookup_span Nat.eqb].
    f_equal. rewrite Eu.
    replace (F ++ u ++ "## [" ++ l ++ "]" ++ tail)
      with ((F ++ u ++ "## [") ++ l ++ "]" ++ tail)
      by (now rewrite <- !app_assoc).
    replace (length u + i + 4) with (length (F ++ u ++ "## ["))
      by (rewrite !length_app, LF_; cbn; lia).
    apply slice_app. }
  split; [exact Hs|]. rewrite Hs.
  split. { rewrite Eu at 1. rewrite <- LF_. apply slice_app. }
  split; [exact Es|]. split; [|exact Hl].
  rewrite Eu at 1.
  replace (F ++ u ++ "## [" ++ l ++ "]" ++ tail)
    with ((F ++ u) ++ "## [" ++ l ++ "]" ++ tail) by (now rewrite <- app_assoc).
  replace (i + length u) with (length (F ++ u))
    by (rewrite length_app, LF_; lia).
  apply skipn_length_app.
Qed.

Lemma find_previous_version_cases upper m w :
  m_end m <= length upper ->
  (find_previous_version upper m w =
     (Exit 1, printed w "Error: Could not find any previous release entries"))
  \/ exists pv mid tail,
       find_previous_version upper m w =
         (Ret (pv, m_end m + length mid, Py.strip mid), w) /\
       skipn (m_end m) upper = mid ++ "## [" ++ pv ++ "]" ++ tail /\
       skipn (m_end m + length mid) upper = "## [" ++ pv ++ "]" ++ tail /\
       all_of (fun x => accepts FL_M label_char x) pv.
Proof.
  intros Hle. unfold find_previous_version.
  destruct (search_from FL_M RELEASE_ENTRY_PATTERN upper (m_end m))
    as [first_release|] eqn:E; [|now left].
  right.
  destruct (previous_release_found _ _ _ Hle E)
    as (pv & mid & tail & G & Hs & Hsl & E1 & E2 & Hl).
  exists pv, mid, tail. rewrite G, Hsl, Hs. rewrite Hs in E2.
  split; [reflexivity|]. split; [exact E1|]. split; [exact E2 | exact Hl].
Qed.

(** ** Resetting the Unreleased section *)

(** What follows the lazy repetition of the reset pattern: the lookahead,
    then the end of the pattern. *)
Lemma reset_tail_keeps c0 c r :
  run FL_S (Ahead (Alt (Lit "## [") Eol)) (finish false c0) c = Some r ->
  before r = before c /\ after r = after c.
Proof.
  cbn [run]. destruct (match run FL_S (Lit "## [") Some c with
                       | Some r0 => Some r0
                       | None => if at_eol FL_S c then Some c else None
                       end) as [c'|]; [|discriminate].
  unfold finish. cbn [andb]. intros H; inversion H. now split.
Qed.

Lemma reset_tail_hit c0 bf sp X :
  run FL_S (Ahead (Alt (Lit "## [") Eol)) (finish false c0)
    {| before := bf; after := "## [" ++ X; spans := sp |} <> None.
Proof.
  cbn [run]. rewrite run_Lit. cbn [after]. rewrite strip_prefix_app.
  cbn. discriminate.
Qed.

Lemma attempt_reset bf af :
  attempt FL_S reset_unreleased_pattern false (here bf af) =
  match strip_prefix UNRELEASED_HEADING af with
  | Some r =>
      many FL_S false Any
        (run FL_S (Ahead (Alt (Lit "## [") Eol)) (finish false (here bf af)))
        (rev UNRELEASED_HEADING ++ bf) [] r
  | None => None
  end.
Proof.
  unfold attempt, reset_unreleased_pattern. rewrite run_Cat, run_Lit.
  cbn [after here before spans].
  destruct (strip_prefix _ af); reflexivity.
Qed.

(** An attempt at the heading ends at or before the next [## []. *)
Lemma reset_attempt_frame bf u X :
  exists u1 u2 e,
    u = u1 ++ u2 /\
    attempt FL_S reset_unreleased_pattern false
      (here bf (UNRELEASED_HEADING ++ u ++ "## [" ++ X)) = Some e /\
    before e = rev u1 ++ rev UNRELEASED_HEADING ++ bf /\
    after e = u2 ++ "## [" ++ X.
Proof.
  rewrite attempt_reset, strip_prefix_app.
  set (k := run FL_S (Ahead (Alt (Lit "## [") Eol)) (finish false _)).
  assert (Hu : Forall (fun x => accepts FL_S Any x = true) u)
    by (apply Forall_forall; reflexivity).
  destruct (k {| before := rev u ++ rev UNRELEASED_HEADING ++ bf;
                 after := "## [" ++ X; spans := [] |}) as [r0|] eqn:Ek;
    [|exfalso; revert Ek; unfold k; apply reset_tail_hit].
  destruct (many_lazy_first FL_S Any k u ("## [" ++ X) _ [] r0 Hu Ek)
    as (u1 & u2 & r & -> & Hm & Hr).
  exists u1, u2, r. split; [reflexivity|]. split; [exact Hm|].
  apply reset_tail_keeps in Hr. exact Hr.
Qed.

Lemma reset_scan_frame X :
  forall A0 bf,
  exists b e w,
    scan FL_S reset_unreleased_pattern false bf
      (A0 ++ UNRELEASED_HEADING ++ NL ++ NL ++ "## [" ++ X) = Some (b, e) /\
    after e = w ++ "## [" ++ X.
Proof.
  induction A0 as [|x A0 IH]; intros bf.
  - destruct (reset_attempt_frame bf (NL ++ NL) X) as (u1 & u2 & e & _ & Ha & _ & He).
    rewrite <- app_assoc in Ha.
    eexists _, e, u2. split; [|exact He].
    apply scan_hit. exact Ha.
  - cbn [app].
    destruct (attempt FL_S reset_unreleased_pattern false
                (here bf (x :: A0 ++ UNRELEASED_HEADING ++ NL ++ NL ++ "## [" ++ X)))
      as [e|] eqn:Ea.
    + assert (Hp : exists u, x :: A0 ++ UNRELEASED_HEADING ++ NL ++ NL
                              = UNRELEASED_HEADING ++ u).
      { rewrite attempt_reset in Ea.
        destruct (strip_prefix UNRELEASED_HEADING _) as [r|] eqn:S; [|discriminate].
        apply strip_prefix_Some in S.
        replace (x :: A0 ++ UNRELEASED_HEADING ++ NL ++ NL ++ "## [" ++ X)
          with ((x :: A0 ++ UNRELEASED_HEADING ++ NL ++ NL) ++ "## [" ++ X) in S
          by (cbn [app]; now rewrite <- !app_assoc).
        symmetry in S. apply app_split_le in S.
        - destruct S as (u2 & -> & _). now exists u2.
        - cbn [length app]. rewrite !length_app. cbn. lia. }
      destruct Hp as [u Hp].
      destruct (reset_attempt_frame bf u X) as (u1 & u2 & e' & _ & Ha & _ & He).
      replace (UNRELEASED_HEADING ++ u ++ "## [" ++ X)
        with (x :: A0 ++ UNRELEASED_HEADING ++ NL ++ NL ++ "## [" ++ X) in Ha
        by (rewrite (app_assoc UNRELEASED_HEADING u), <- Hp; cbn [app];
            now rewrite <- !app_assoc).
      rewrite Ea in Ha. inversion Ha; subst e'.
      eexists _, e, u2. split; [|exact He]. apply scan_hit. exact Ea.
    + rewrite scan_miss by exact Ea. apply IH.
Qed.

(** The reset leaves everything from the new release heading on as it is. *)
Lemma reset_sub_frame tpl A0 X :
  exists head,
    sub FL_S reset_unreleased_pattern tpl
      (A0 ++ UNRELEASED_HEADING ++ NL ++ NL ++ "## [" ++ X) 1
    = head ++ "## [" ++ X.
Proof.
  rewrite sub_once.
  destruct (reset_scan_frame X A0 []) as (b & e & w & -> & He).
  rewrite He. eexists. now rewrite !app_assoc.
Qed.

(** When the heading is the first place where the text [## [Unreleased]]
    occurs, the reset changes nothing: the heading is already followed by a
    blank line and the new release heading. *)
Lemma reset_sub_id A0 X :
  (forall i, i < length A0 ->
     ~ occurs_at UNRELEASED_HEADING (A0 ++ UNRELEASED_HEADING) i) ->
  sub FL_S reset_unreleased_pattern [Text empty_unreleased]
    (A0 ++ UNRELEASED_HEADING ++ NL ++ NL ++ "## [" ++ X) 1
  = A0 ++ UNRELEASED_HEADING ++ NL ++ NL ++ "## [" ++ X.
Proof.
  intros Hfirst. rewrite sub_once, scan_skip.
  - rewrite app_nil_r.
    erewrite scan_hit.
    2:{ rewrite attempt_reset, strip_prefix_app. cbn. reflexivity. }
    unfold pos, here. cbn [before after fst snd].
    rewrite length_rev, firstn_length_app. cbn [expand map expand_piece concat].
    rewrite app_nil_r. unfold empty_unreleased.
    now rewrite <- !app_assoc.
  - intros u1 u2 -> N. rewrite attempt_reset.
    destruct (strip_prefix UNRELEASED_HEADING _) as [r|] eqn:S; [|reflexivity].
    exfalso. apply strip_prefix_Some in S.
    replace (u2 ++ UNRELEASED_HEADING ++ NL ++ NL ++ "## [" ++ X)
      with ((u2 ++ UNRELEASED_HEADING) ++ NL ++ NL ++ "## [" ++ X) in S
      by (now rewrite <- app_assoc).
    symmetry in S. apply app_split_le in S;
      [|rewrite length_app; lia].
    destruct S as (t & Et & _).
    apply (Hfirst (length u1)).
    + rewrite length_app. destruct u2; [now elim N | cbn; lia].
    + exists u1, t. split; [|reflexivity]. now rewrite <- app_assoc, Et.
Qed.

(** ** The run of the script *)

Lemma get_date_and_path_eq w :
  get_date_and_path w =
  match files w (changelog_path_of w) with
  | Some _ => (Ret (utc_today w, changelog_path_of w), w)
  | None => (Exit 1, printed w (msg_not_found (changelog_path_of w)))
  end.
Proof.
  unfold get_date_and_path, changelog_path_of, exists_.
  cbv [bind ret print exit].
  destruct (files w _); reflexivity.
Qed.

Lemma release_version_eq new_version pr_number w :
  release_version new_version pr_number w
  = release_outcome new_version pr_number w.
Proof.
  unfold release_version, release_outcome.
  cbv [bind]. rewrite get_date_and_path_eq.
  destruct (files w (changelog_path_of w)) as [content|] eqn:Ef; [|reflexivity].
  unfold read_text. rewrite Ef.
  destruct (is_some (search FL_M _ content)); [reflexivity|].
  unfold split_changelog_content.
  destruct (search FL_M link_section_pattern content) as [ms|]; [|reflexivity].
  cbv [ret]. unfold find_unreleased_section.
  destruct (search FL_M UNRELEASED_SECTION_PATTERN _) as [m|]; [|reflexivity].
  cbv [ret]. unfold find_previous_version.
  destruct (search_from FL_M RELEASE_ENTRY_PATTERN _ _) as [fr|]; [|reflexivity].
  destruct (group _ fr 1) as [pv|]; [|reflexivity].
  cbv [ret].
  destruct (update_link_definitions _ _ _) as [links|]; reflexivity.
Qed.

Lemma not_In_app {A} (x : A) (a b : list A) :
  ~ In x (a ++ b) <-> ~ In x a /\ ~ In x b.
Proof.
  split.
  - intros H. split; intros Hin; apply H, in_or_app; auto.
  - intros [Ha Hb] Hin. apply in_app_or in Hin. tauto.
Qed.

Lemma all_of_not_In (p : ascii -> bool) (s : text) (c : ascii) :
  all_of p s -> p c = false -> ~ In c s.
Proof.
  intros [_ F] Hp Hin. rewrite Forall_forall in F. specialize (F _ Hin). congruence.
Qed.

Lemma text_not_In (c : ascii) (s : text) :
  Py.contains_char c s = false -> ~ In c s.
Proof. apply contains_char_false. Qed.

(** A version of the shape holds no character outside digits, dots,
    hyphens and lower-case letters. *)
Lemma version_shape_not_In (v : text) (c : ascii) :
  version_shape v ->
  digit_or_dot_char c = false -> Py.islower_az c = false -> c <> "-"%char ->
  ~ In c v.
Proof.
  intros (a & b & Ha & Hb & Hv) Hd Hl Hh.
  assert (Hdigit : Py.isdigit c = false)
    by (unfold digit_or_dot_char in Hd; now apply orb_false_elim in Hd).
  assert (Hdot : c <> "."%char)
    by (intros ->; discriminate).
  destruct Hv as [->|(l & d & Hl' & Hd' & ->)];
    repeat (apply not_In_app; split);
    try (eapply all_of_not_In; eassumption);
    cbn; intros [E|[]]; congruence.
Qed.

Lemma validated_no_backslash (v : text) :
  validate_version (Some v) = true -> no_backslash v.
Proof.
  intros H. apply validate_version_accepts in H.
  destruct H as [H|(v' & H & ->)].
  - apply version_shape_not_In; [exact H | reflexivity | reflexivity | discriminate].
  - apply not_In_app. split.
    + apply version_shape_not_In; [exact H | reflexivity | reflexivity | discriminate].
    + cbn. intros [E|[]]. discriminate.
Qed.

Lemma label_no_backslash (l : text) :
  all_of (fun x => accepts FL_M label_char x) l -> no_backslash l.
Proof. intros H. eapply all_of_not_In; [exact H | reflexivity]. Qed.

Lemma literal_template_Some (t : text) :
  no_backslash t -> literal_template t = Some [Text t].
Proof.
  intros H. unfold literal_template.
  now rewrite (proj2 (contains_char_false backslash t) H).
Qed.

Lemma update_link_definitions_eq bottom new_version prev_version :
  no_backslash new_version -> no_backslash prev_version ->
  update_link_definitions bottom new_version prev_version =
  Some (sub FL_0 unreleased_link_line_pattern
          [Ref 1; Text (version_link new_version prev_version ++ NL)]
          (sub FL_0 unreleased_link_pattern
             [Text (unreleased_link new_version)] bottom 0) 0).
Proof.
  intros Hn Hp. unfold update_link_definitions.
  rewrite literal_template_Some.
  2:{ unfold no_backslash. repeat (apply not_In_app; split);
        try assumption; apply text_not_In; reflexivity. }
  rewrite literal_template_Some.
  2:{ unfold no_backslash. repeat (apply not_In_app; split);
        try assumption; apply text_not_In; reflexivity. }
  reflexivity.
Qed.

Lemma version_heading_search (new_version content : text) :
  is_some (search FL_M (Lit "## [" >> Lit new_version >> Lit "]") content) = true
  <-> occurs (version_heading new_version) content.
Proof.
  rewrite search_iff
    by (cbn [tidy]; now rewrite !tidy_Lit).
  unfold occurs, occurs_at, version_heading. split.
  - intros (u & v & c' & -> & Hm). invert_matches. cbn [here after] in *.
    match goal with
    | H1 : v = _ ++ after ?c1, H2 : after ?c1 = _ ++ after ?c2,
      H3 : after ?c2 = _ ++ after c' |- _ =>
        exists (length u), u, (after c'); split; [|reflexivity];
        rewrite H1, H2, H3; now rewrite <- !app_assoc
    end.
  - intros (i & pre & post & -> & _).
    exists pre, (("## [" ++ new_version ++ "]") ++ post). eexists.
    split; [reflexivity|]. unfold here. rewrite <- !app_assoc.
    eapply M_Cat; [apply matches_Lit_intro|].
    eapply M_Cat; [apply matches_Lit_intro|].
    apply matches_Lit_intro.
Qed.

Lemma link_section_found content ms :
  search FL_M link_section_pattern content = Some ms ->
  exists upper bottom,
    content = upper ++ bottom /\ m_start ms = length upper /\
    starts_with "[Unreleased]:" bottom.
Proof.
  intros E.
  destruct (search_sound _ _ _ _ E) as (u & v & e & -> & Hs & Ha & _).
  exists u, v. repeat split; [exact Hs|].
  assert (Hl : line_at "[Unreleased]:" (u ++ v) (length u))
    by (apply link_section_hit; congruence).
  apply line_at_split in Hl. exact (proj2 Hl).
Qed.

(** The ways [release_version] ends, for a version without backslash. *)
Lemma release_outcome_cases new_version pr_number w :
  no_backslash new_version ->
  let path := changelog_path_of w in
  (exists msg, release_outcome new_version pr_number w = (Exit 1, printed w msg)
               /\ starts_with "Error: " msg)
  \/ (exists content,
        files w path = Some content /\
        occurs (version_heading new_version) content /\
        release_outcome new_version pr_number w
          = (Ret tt, printed w (msg_skip new_version path)))
  \/ (exists doc,
        releases new_version pr_number w doc /\
        release_outcome new_version pr_number w
          = (Ret tt, printed (written w path doc) (msg_updated new_version path))).
Proof.
  intros Hnb path. unfold release_outcome. fold path.
  destruct (files w path) as [content|] eqn:Ef.
  2:{ left. eexists. split; [reflexivity|]. now eexists. }
  destruct (is_some (search FL_M _ content)) eqn:Ev.
  { right. left. exists content. repeat split.
    now apply version_heading_search. }
  assert (Hnv : ~ occurs (version_heading new_version) content)
    by (intros H; apply version_heading_search in H; congruence).
  destruct (search FL_M link_section_pattern content) as [ms|] eqn:El.
  2:{ left. eexists. split; [reflexivity|]. now eexists. }
  destruct (link_section_found _ _ El) as (upper & bottom & Ec & Hms & Hb).
  rewrite Hms, Ec, firstn_length_app, skipn_length_app.
  destruct (search FL_M UNRELEASED_SECTION_PATTERN upper) as [m|] eqn:Eu.
  2:{ left. eexists. split; [reflexivity|]. now eexists. }
  destruct (unreleased_found _ _ Eu) as (pre & rest & Eup & _ & Hme & Hpre).
  assert (Hle : m_end m <= length upper)
    by (rewrite Hme, Eup, !length_app; lia).
  destruct (search_from FL_M RELEASE_ENTRY_PATTERN upper (m_end m))
    as [fr|] eqn:Er.
  2:{ left. eexists. split; [reflexivity|]. now eexists. }
  destruct (previous_release_found _ _ _ Hle Er)
    as (pv & mid & tail & G & Hs & Hsl & E1 & E2 & Hl).
  unfold reassembled. rewrite G, Hsl, E2.
  assert (Hrest : rest = mid ++ "## [" ++ pv ++ "]" ++ tail).
  { rewrite <- E1, Hme, Eup.
    replace (pre ++ UNRELEASED_HEADING ++ rest)
      with ((pre ++ UNRELEASED_HEADING) ++ rest) by (now rewrite <- app_assoc).
    now rewrite skipn_length_app. }
  assert (Hfirst : firstn (m_end m) upper = pre ++ UNRELEASED_HEADING).
  { rewrite Hme, Eup.
    replace (pre ++ UNRELEASED_HEADING ++ rest)
      with ((pre ++ UNRELEASED_HEADING) ++ rest) by (now rewrite <- app_assoc).
    apply firstn_length_app. }
  rewrite (update_link_definitions_eq bottom new_version pv Hnb
             (label_no_backslash _ Hl)).
  right. right.
  rewrite Hfirst.
  set (section := new_version_section new_version pr_number (utc_today w)
                    (Py.strip mid)).
  set (old := "## [" ++ pv ++ "]" ++ tail).
  set (links := sub FL_0 unreleased_link_line_pattern _ _ 0).
  set (X := new_version ++ "] " ++ utc_today w ++ NL ++ NL
              ++ merged_body new_version pr_number (Py.strip mid)
              ++ NL ++ NL ++ old).
  assert (EX : (pre ++ UNRELEASED_HEADING) ++ NL ++ NL ++ section ++ NL ++ NL ++ old
               = pre ++ UNRELEASED_HEADING ++ NL ++ NL ++ "## [" ++ X).
  { unfold section, new_version_section, X. now rewrite <- !app_assoc. }
  rewrite EX.
  destruct (reset_sub_frame [Text empty_unreleased] pre X) as [head Hhead].
  exists (head ++ section ++ NL ++ NL ++ old ++ links). split.
  - exists content, upper, bottom, pre, mid, pv, tail, head, links.
    split; [exact Ef|]. split; [exact Hnv|]. split; [exact Ec|].
    split; [exact Hb|]. split; [now rewrite Eup, Hrest|].
    split; [exact Hpre|].
    split; [apply update_link_definitions_eq;
            [exact Hnb | exact (label_no_backslash _ Hl)]|].
    split; [unfold old; now rewrite <- !app_assoc|].
    intros Hocc. pose proof (reset_sub_id pre X Hocc) as Hid.
    rewrite Hhead in Hid.
    replace (pre ++ UNRELEASED_HEADING ++ NL ++ NL ++ "## [" ++ X)
      with ((pre ++ UNRELEASED_HEADING ++ NL ++ NL) ++ "## [" ++ X) in Hid
      by (now rewrite <- !app_assoc).
    now apply app_inv_tail in Hid.
  - rewrite Hhead. unfold X, section, new_version_section.
    do 3 f_equal. now rewrite <- !app_assoc.
Qed.

Lemma text_eqb_refl (a : text) : text_eqb a a = true.
Proof. unfold text_eqb. destruct (list_eq_dec ascii_dec a a); congruence. Qed.

Lemma validated_not_nil (v : text) : validate_version (Some v) = true -> v <> [].
Proof. intros H ->. discriminate. Qed.

Lemma truthy_not_nil (s : text) : Py.truthy s = true <-> s <> [].
Proof. destruct s; cbn; split; congruence. Qed.

Lemma update_changelog_configured w new_version pr_number :
  configured w new_version pr_number ->
  update_changelog w = release_outcome new_version pr_number w.
Proof.
  intros (Hn & Hp & Np & Hv). unfold update_changelog.
  rewrite Hn, Hp, Hv. cbn [Py.truthy_opt negb andb fmt].
  rewrite (proj2 (truthy_not_nil _) (validated_not_nil _ Hv)).
  rewrite (proj2 (truthy_not_nil _) Np). cbn [negb orb andb].
  apply release_version_eq.
Qed.

Lemma update_changelog_unconfigured w :
  Py.truthy_opt (NEW_VERSION (env w)) = false
  \/ Py.truthy_opt (PR_NUMBER (env w)) = false
  \/ validate_version (NEW_VERSION (env w)) = false ->
  update_changelog w
    = (Exit 1, printed w (msg_invalid (fmt (NEW_VERSION (env w)))))
  \/ update_changelog w = (Exit 1, printed w msg_unset).
Proof.
  intros H. unfold update_changelog.
  destruct (Py.truthy_opt (NEW_VERSION (env w))) eqn:Tn; cbn [andb negb orb].
  - destruct (validate_version (NEW_VERSION (env w))) eqn:V; cbn [negb].
    + destruct (Py.truthy_opt (PR_NUMBER (env w))) eqn:Tp; cbn [negb].
      * destruct H as [H|[H|H]]; discriminate.
      * now right.
    + now left.
  - now right.
Qed.

Lemma configured_or_not w :
  (exists new_version pr_number, configured w new_version pr_number)
  \/ (Py.truthy_opt (NEW_VERSION (env w)) = false
      \/ Py.truthy_opt (PR_NUMBER (env w)) = false
      \/ validate_version (NEW_VERSION (env w)) = false).
Proof.
  unfold configured.
  destruct (NEW_VERSION (env w)) as [nv|]; [|right; now left].
  destruct (PR_NUMBER (env w)) as [pr|]; [|right; right; now left].
  destruct (validate_version (Some nv)) eqn:V; [|right; right; now right].
  destruct pr as [|c pr]; [right; right; now left|].
  left. exists nv, (c :: pr). repeat split; [discriminate | exact V].
Qed.

(** Whatever the world, the run returns or exits with status 1; it never
    leaves what is modelled. *)
Lemma update_changelog_cases w :
  let path := changelog_path_of w in
  (exists msg, update_changelog w = (Exit 1, printed w msg)
               /\ starts_with "Error: " msg)
  \/ (exists new_version pr_number content,
        configured w new_version pr_number /\
        files w path = Some content /\
        occurs (version_heading new_version) content /\
        update_changelog w = (Ret tt, printed w (msg_skip new_version path)))
  \/ (exists new_version pr_number doc,
        configured w new_version pr_number /\
        releases new_version pr_number w doc /\
        update_changelog w
          = (Ret tt, printed (written w path doc) (msg_updated new_version path))).
Proof.
  intros path.
  destruct (configured_or_not w) as [(nv & pr & Hc)|Hu].
  - rewrite (update_changelog_configured _ _ _ Hc).
    assert (Hnb : no_backslash nv)
      by (apply validated_no_backslash; apply Hc).
    destruct (release_outcome_cases nv pr w Hnb)
      as [H|[(content & Hf & Ho & E)|(doc & Hr & E)]].
    + now left.
    + right. left. now exists nv, pr, content.
    + right. right. now exists nv, pr, doc.
  - left. destruct (update_changelog_unconfigured _ Hu) as [E|E];
      rewrite E; eexists; (split; [reflexivity | now eexists]).
Qed.

Lemma releases_heading new_version pr_number w doc :
  releases new_version pr_number w doc ->
  occurs (version_heading new_version) doc.
Proof.
  intros (content & upper & bottom & pre & mid & pv & tail & head & links
          & _ & _ & _ & _ & _ & _ & _ & -> & _).
  exists (length head), head. eexists. split; [|reflexivity].
  unfold new_version_section, version_heading.
  repeat rewrite <- app_assoc. reflexivity.
Qed.

(** C1. A run over a changelog that already holds the heading of
    NEW_VERSION (with NEW_VERSION well-formed and PR_NUMBER set) returns,
    which is exit status 0, after printing the skip message and without
    touching any file; and after a run that ended with status 0, a second
    run with the same environment over the files the first run left does
    exactly that. *)
Theorem update_changelog_idempotent (w : world) :
  (forall new_version pr_number content,
     configured w new_version pr_number ->
     files w (changelog_path_of w) = Some content ->
     occurs (version_heading new_version) content ->
     update_changelog w
       = (Ret tt, printed w (msg_skip new_version (changelog_path_of w)))
     /\ exit_status (fst (update_changelog w)) = Some 0
     /\ files (snd (update_changelog w)) = files w)
  /\
  (forall r w1,
     update_changelog w = (r, w1) -> exit_status r = Some 0 ->
     forall w2, env w2 = env w -> files w2 = files w1 ->
       exists msg,
         update_changelog w2 = (Ret tt, printed w2 msg)
         /\ starts_with "Version " msg
         /\ exit_status (fst (update_changelog w2)) = Some 0
         /\ files (snd (update_changelog w2)) = files w1).
Proof.
  assert (Hskip : forall w new_version pr_number content,
            configured w new_version pr_number ->
            files w (changelog_path_of w) = Some content ->
            occurs (version_heading new_version) content ->
            update_changelog w
            = (Ret tt, printed w (msg_skip new_version (changelog_path_of w)))).
  { intros w0 nv pr content Hc Hf Ho.
    rewrite (update_changelog_configured _ _ _ Hc). unfold release_outcome.
    rewrite Hf. apply version_heading_search in Ho. now rewrite Ho. }
  split.
  - intros nv pr content Hc Hf Ho.
    rewrite (Hskip w nv pr content Hc Hf Ho). now repeat split.
  - intros r w1 E Hr w2 Henv Hfiles.
    assert (Hpath : changelog_path_of w2 = changelog_path_of w)
      by (unfold changelog_path_of; now rewrite Henv).
    assert (Hconf : forall nv pr, configured w nv pr -> configured w2 nv pr)
      by (unfold configured; now rewrite Henv).
    assert (Hgoal : forall nv pr content,
              configured w nv pr ->
              files w1 (changelog_path_of w) = Some content ->
              occurs (version_heading nv) content ->
              exists msg,
                update_changelog w2 = (Ret tt, printed w2 msg)
                /\ starts_with "Version " msg
                /\ exit_status (fst (update_changelog w2)) = Some 0
                /\ files (snd (update_changelog w2)) = files w1).
    { intros nv pr content Hc Hf Ho.
      assert (E2 : update_changelog w2
                   = (Ret tt, printed w2 (msg_skip nv (changelog_path_of w2)))).
      { apply (Hskip w2 nv pr content); [now apply Hconf | | exact Ho].
        now rewrite Hpath, Hfiles. }
      exists (msg_skip nv (changelog_path_of w2)). rewrite E2.
      split; [reflexivity|]. split; [now eexists|].
      split; [reflexivity | exact Hfiles]. }
    destruct (update_changelog_cases w)
      as [(msg & E1 & _)|[(nv & pr & content & Hc & Hf & Ho & E1)
                         |(nv & pr & doc & Hc & Hrel & E1)]];
      rewrite E1 in E; inversion E; subst r w1; clear E.
    + discriminate.
    + apply (Hgoal nv pr content Hc); [exact Hf | exact Ho].
    + apply (Hgoal nv pr doc Hc).
      * cbn. now rewrite text_eqb_refl.
      * eapply releases_heading; exact Hrel.
Qed.

Lemma update_changelog_idempotent_witness :
  exists msg,
    update_changelog second_world = (Ret tt, printed second_world msg)
    /\ starts_with "Version " msg
    /\ exit_status (fst (update_changelog second_world)) = Some 0
    /\ files (snd (update_changelog second_world))
       = files (snd (update_changelog sample_world)).
Proof.
  apply (proj2 (update_changelog_idempotent sample_world)
           (fst (update_changelog sample_world))
           (snd (update_changelog sample_world))).
  - destruct (update_changelog sample_world); reflexivity.
  - vm_compute. reflexivity.
  - reflexivity.
  - reflexivity.
Defined.

(** ** Failing runs *)

Lemma unreleased_hit pre post :
  attempt FL_M UNRELEASED_SECTION_PATTERN false (here (rev pre) post) <> None <->
  line_at UNRELEASED_HEADING (pre ++ post) (length pre).
Proof.
  rewrite attempt_unreleased, line_at_split.
  destruct (at_bol FL_M (here (rev pre) post)) eqn:B.
  - apply at_bol_M_rev in B.
    destruct (strip_prefix "## [Unreleased]" post) as [rest|] eqn:S.
    + apply strip_prefix_Some in S. split; [|discriminate].
      intros _. split; [exact B | now exists rest].
    + split; [now intros H|]. intros [_ [rest ->]].
      unfold UNRELEASED_HEADING in S. now rewrite strip_prefix_app in S.
  - split; [now intros H|]. intros [H _].
    apply (proj2 (at_bol_M_rev pre post)) in H. congruence.
Qed.

Lemma unreleased_absent upper :
  (forall k, ~ line_at UNRELEASED_HEADING upper k) ->
  search FL_M UNRELEASED_SECTION_PATTERN upper = None.
Proof.
  intros H. destruct (search FL_M UNRELEASED_SECTION_PATTERN upper) as [m|] eqn:E;
    [|reflexivity].
  exfalso.
  destruct (search_sound _ _ _ _ E) as (u & v & e & -> & _ & Ha & _).
  apply (H (length u)). apply unreleased_hit. congruence.
Qed.

Lemma link_section_None content :
  (forall k, ~ line_at "[Unreleased]:" content k) ->
  search FL_M link_section_pattern content = None.
Proof.
  intros H. destruct (search FL_M link_section_pattern content) as [m|] eqn:E;
    [|reflexivity].
  exfalso.
  destruct (search_sound _ _ _ _ E) as (u & v & e & -> & _ & Ha & _).
  apply (H (length u)). apply link_section_hit. congruence.
Qed.

Lemma release_absent upper m :
  search FL_M UNRELEASED_SECTION_PATTERN upper = Some m ->
  ~ release_heading_in (skipn (m_end m) upper) ->
  search_from FL_M RELEASE_ENTRY_PATTERN upper (m_end m) = None.
Proof.
  intros Eu Hno.
  destruct (search_from FL_M RELEASE_ENTRY_PATTERN upper (m_end m)) as [fr|] eqn:E;
    [|reflexivity].
  exfalso. apply Hno.
  destruct (unreleased_found _ _ Eu) as (pre & rest & Eup & _ & Hme & _).
  destruct (search_from_sound _ _ _ _ _ E) as (u & v & e & Es & _ & Ha & _).
  destruct (release_entry_inv _ _ _ Ha) as (l & tail & -> & Hl & Hb & _).
  assert (Hf : firstn (m_end m) upper = pre ++ UNRELEASED_HEADING).
  { rewrite Hme, Eup.
    replace (pre ++ UNRELEASED_HEADING ++ rest)
      with ((pre ++ UNRELEASED_HEADING) ++ rest) by (now rewrite <- app_assoc).
    apply firstn_length_app. }
  rewrite Hf, <- rev_app_distr in Hb. apply at_bol_M_rev in Hb.
  destruct Hb as [Hb|[p Hb]].
  - destruct pre; discriminate.
  - destruct u as [|x u _] using rev_ind.
    + rewrite app_nil_r in Hb.
      replace (pre ++ UNRELEASED_HEADING)
        with ((pre ++ "## [Unreleased") ++ ["]"%char]) in Hb
        by (now rewrite <- app_assoc).
      apply app_inj_tail in Hb. destruct Hb as [_ Hb]. discriminate.
    + rewrite !app_assoc in Hb. apply app_inj_tail in Hb. destruct Hb as [_ ->].
      exists u, l, tail. split; [|exact Hl].
      rewrite Es. now rewrite <- !app_assoc.
Qed.

(** A run that one of the script's own checks stops (a variable unset or
    empty, a version that [validate_version] rejects, a missing file, a
    document without its link region, its Unreleased heading or an earlier
    release) prints one diagnostic and exits with status 1; and whatever
    makes a run end otherwise than by returning, it ends with status 1, one
    diagnostic printed, and the files as they were: the only write of the
    script is the last thing but one it does. *)
Lemma update_changelog_failures (w : world) :
  let path := changelog_path_of w in
  (Py.truthy_opt (NEW_VERSION (env w)) = false
   \/ Py.truthy_opt (PR_NUMBER (env w)) = false
   \/ validate_version (NEW_VERSION (env w)) = false ->
   exists msg, update_changelog w = (Exit 1, printed w msg)
               /\ starts_with "Error: " msg)
  /\
  (forall new_version pr_number,
     configured w new_version pr_number ->
     (files w path = None ->
      update_changelog w = (Exit 1, printed w (msg_not_found path)))
     /\
     (forall content,
        files w path = Some content ->
        ~ occurs (version_heading new_version) content ->
        ((forall k, ~ line_at "[Unreleased]:" content k) ->
         update_changelog w = (Exit 1, printed w msg_no_links))
        /\
        (forall upper bottom,
           split_changelog_content content w = (Ret (upper, bottom), w) ->
           ((forall k, ~ line_at UNRELEASED_HEADING upper k) ->
            update_changelog w = (Exit 1, printed w msg_no_unreleased))
           /\
           (forall m,
              find_unreleased_section upper w = (Ret m, w) ->
              ~ release_heading_in (skipn (m_end m) upper) ->
              update_changelog w = (Exit 1, printed w msg_no_previous)))))
  /\
  (forall r w',
     update_changelog w = (r, w') -> r <> Ret tt ->
     r = Exit 1 /\ files w' = files w
     /\ exists msg, stdout w' = stdout w ++ [msg] /\ starts_with "Error: " msg).
Proof.
  intros path. split; [|split].
  - intros Hu. destruct (update_changelog_unconfigured _ Hu) as [E|E];
      rewrite E; eexists; (split; [reflexivity | now eexists]).
  - intros nv pr Hc. rewrite (update_changelog_configured _ _ _ Hc).
    unfold release_outcome. fold path. split.
    + intros Hf. now rewrite Hf.
    + intros content Hf Hno. rewrite Hf.
      destruct (is_some (search FL_M _ content)) eqn:Ev;
        [apply version_heading_search in Ev; contradiction|].
      split.
      * intros Hl. now rewrite (link_section_None _ Hl).
      * intros upper bottom Hsplit. unfold split_changelog_content in Hsplit.
        destruct (search FL_M link_section_pattern content) as [ms|];
          [|discriminate].
        unfold ret in Hsplit. inversion Hsplit as [[Eu Eb]]. rewrite Eu. split.
        -- intros Hu. now rewrite (unreleased_absent _ Hu).
        -- intros m Hm Hrel. unfold find_unreleased_section in Hm.
           destruct (search FL_M UNRELEASED_SECTION_PATTERN upper) as [m0|] eqn:Es;
             [|discriminate].
           unfold ret in Hm. inversion Hm; subst m0.
           now rewrite (release_absent _ _ Es Hrel).
  - intros r w' E Hr.
    destruct (update_changelog_cases w)
      as [(msg & E1 & Hmsg)|[(nv & pr & content & _ & _ & _ & E1)
                            |(nv & pr & doc & _ & _ & E1)]];
      rewrite E1 in E; inversion E; subst r w'; try (now elim Hr).
    split; [reflexivity|]. split; [reflexivity|]. now exists msg.
Qed.

Lemma update_changelog_failures_witness :
  let w := {| env := sample_environ; files := fun _ => None;
              utc_today := "2026-01-02"; stdout := [] |} in
  update_changelog w = (Exit 1, printed w (msg_not_found "CHANGES.md")).
Proof.
  cbv zeta.
  apply (proj1 (proj2 (update_changelog_failures
           {| env := sample_environ; files := fun _ => None;
              utc_today := "2026-01-02"; stdout := [] |}))
           "1.2.3-4.5.6" "42").
  - split; [reflexivity|]. split; [reflexivity|].
    split; [discriminate | vm_compute; reflexivity].
  - reflexivity.
Defined.

(** C2, checked on a NEW_VERSION of invalid shape, the version
    [1.2.3-4.5.6] followed by a line feed.  The run does not end with
    status 1 and a diagnostic: [validate_version] lets the version pass,
    the run returns, which is status 0, prints the success message and
    rewrites the changelog, with the line feed inside the new heading, the
    bullet and the links. *)
Theorem update_changelog_accepts_invalid_version :
  ~ version_shape ("1.2.3-4.5.6" ++ NL)
  /\ fst (update_changelog world_with_line_feed) = Ret tt
  /\ exit_status (fst (update_changelog world_with_line_feed)) = Some 0
  /\ exit_status (fst (update_changelog world_with_line_feed)) <> Some 1
  /\ stdout (snd (update_changelog world_with_line_feed))
     = [msg_updated ("1.2.3-4.5.6" ++ NL) "CHANGES.md"]
  /\ files (snd (update_changelog world_with_line_feed)) "CHANGES.md"
     = Some ("## [Unreleased]" ++ NL ++ NL
               ++ "## [1.2.3-4.5.6" ++ NL ++ "] 2026-01-02" ++ NL ++ NL
               ++ "### Changes" ++ NL ++ NL
               ++ "* chore: bump nearcore to 4.5.6" ++ NL ++ " in [#42]"
               ++ NL ++ NL
               ++ "[#42]: " ++ REPO_URL ++ "/pull/42" ++ NL ++ NL
               ++ "## [1.0.0-2.0.0] 2024-01-01" ++ NL ++ NL
               ++ "[Unreleased]: " ++ REPO_URL ++ "/1.2.3-4.5.6" ++ NL
               ++ "[1.2.3-4.5.6" ++ NL ++ "]: " ++ REPO_URL
               ++ "/compare/1.0.0-2.0.0...1.2.3-4.5.6" ++ NL ++ NL
               ++ "...main" ++ NL)
  /\ files (snd (update_changelog world_with_line_feed)) "CHANGES.md"
     <> files world_with_line_feed "CHANGES.md".
Proof.
  split.
  { intros H. destruct (version_shape_last _ H) as (v' & x & E & Hx).
    change ("1.2.3-4.5.6" ++ NL) with ("1.2.3-4.5.6" ++ [LF]) in E.
    apply app_inj_tail in E. destruct E as [_ <-]. discriminate. }
  split; [vm_compute; reflexivity|].
  split; [vm_compute; reflexivity|].
  split; [vm_compute; discriminate|].
  split; [vm_compute; reflexivity|].
  assert (E : files (snd (update_changelog world_with_line_feed)) "CHANGES.md"
     = Some ("## [Unreleased]" ++ NL ++ NL
               ++ "## [1.2.3-4.5.6" ++ NL ++ "] 2026-01-02" ++ NL ++ NL
               ++ "### Changes" ++ NL ++ NL
               ++ "* chore: bump nearcore to 4.5.6" ++ NL ++ " in [#42]"
               ++ NL ++ NL
               ++ "[#42]: " ++ REPO_URL ++ "/pull/42" ++ NL ++ NL
               ++ "## [1.0.0-2.0.0] 2024-01-01" ++ NL ++ NL
               ++ "[Unreleased]: " ++ REPO_URL ++ "/1.2.3-4.5.6" ++ NL
               ++ "[1.2.3-4.5.6" ++ NL ++ "]: " ++ REPO_URL
               ++ "/compare/1.0.0-2.0.0...1.2.3-4.5.6" ++ NL ++ NL
               ++ "...main" ++ NL))
    by (vm_compute; reflexivity).
  split; [exact E|].
  rewrite E. intros H. vm_compute in H. discriminate.
Qed.

(** ** The link region (C3) *)

Lemma accepts_Any_0 (c : ascii) : accepts FL_0 Any c = not_LF c.
Proof. reflexivity. Qed.

Lemma attempt_unreleased_link bf af :
  attempt FL_0 unreleased_link_pattern false (here bf af) =
  match strip_prefix UNRELEASED_LABEL af with
  | Some r =>
      Some {| before := rev (take_while not_LF r) ++ rev UNRELEASED_LABEL ++ bf;
              after := Py.drop_while not_LF r; spans := [] |}
  | None => None
  end.
Proof.
  unfold attempt, unreleased_link_pattern. rewrite run_Cat, run_Lit.
  cbn [after here before spans].
  destruct (strip_prefix _ af) as [r|]; [|reflexivity].
  cbn [run before after spans]. apply many_greedy_hit. reflexivity.
Qed.

Lemma attempt_unreleased_link_line bf af :
  attempt FL_0 unreleased_link_line_pattern false (here bf af) =
  match strip_prefix UNRELEASED_LABEL af with
  | Some r =>
      match Py.drop_while not_LF r with
      | x :: rest =>
          if Ascii.eqb x LF then
            Some {| before := x :: rev (take_while not_LF r)
                                ++ rev UNRELEASED_LABEL ++ bf;
                    after := rest;
                    spans := [(1, (length bf,
                                   length (x :: rev (take_while not_LF r)
                                             ++ rev UNRELEASED_LABEL ++ bf)))] |}
          else None
      | [] => None
      end
  | None => None
  end.
Proof.
  unfold attempt, unreleased_link_line_pattern.
  rewrite run_Group, run_Cat, run_Lit. cbn [after here before spans].
  destruct (strip_prefix _ af) as [r|]; [|reflexivity].
  rewrite run_Cat, run_Many. cbn [before after spans].
  rewrite many_greedy_det.
  - fold not_LF. rewrite run_One. cbn [after].
    destruct (Py.drop_while _ r) as [|x rest]; [reflexivity|].
    change (accepts FL_0 (Chr LF) x) with (Ascii.eqb x LF).
    destruct (Ascii.eqb x LF); reflexivity.
  - intros bf' x rest sp Hx. rewrite run_One. cbn [after].
    change (accepts FL_0 (Chr LF) x) with (Ascii.eqb x LF).
    unfold accepts in Hx. cbn in Hx. apply negb_true_iff in Hx. now rewrite Hx.
Qed.

Section SubSteps.
Variables (fl : flags) (r : regex) (tpl : template) (s : text).

(** A stretch where no attempt succeeds is copied. *)
Lemma sub_from_skip done bf w rest :
  (forall u1 u2, w = u1 ++ u2 -> u2 <> [] ->
     attempt fl r false (here (rev u1 ++ bf) (u2 ++ rest)) = None) ->
  sub_from fl r tpl s 0 done false bf (w ++ rest)
  = w ++ sub_from fl r tpl s 0 done false (rev w ++ bf) rest.
Proof.
  intros H. rewrite sub_from_eq, (sub_from_eq fl r tpl s 0 done false (rev w ++ bf)).
  cbn [Nat.eqb negb andb]. rewrite (scan_skip fl r w rest bf H).
  destruct (scan fl r false (rev w ++ bf) rest) as [[b e]|] eqn:E; [|reflexivity].
  destruct (scan_advance _ _ _ _ _ _ _ E) as (u & m & _ & Eb & _).
  unfold pos. rewrite Eb, !length_app, !length_rev.
  replace (length u + (length w + length bf) - length bf) with (length w + length u) by lia.
  replace (length u + (length w + length bf) - (length w + length bf)) with (length u) by lia.
  rewrite firstn_app_2. now rewrite <- app_assoc.
Qed.

(** A match at the position itself is replaced. *)
Lemma sub_from_hit done bf af e :
  attempt fl r false (here bf af) = Some e ->
  sub_from fl r tpl s 0 done false bf af
  = expand s tpl e
      ++ sub_from fl r tpl s 0 (S done) (pos e =? length bf) (before e) (after e).
Proof.
  intros H. rewrite sub_from_eq. cbn [Nat.eqb negb andb].
  rewrite (scan_hit fl r false bf af e H).
  unfold pos at 1. cbn [here before]. now rewrite Nat.sub_diag.
Qed.

Lemma sub_from_end done bf :
  attempt fl r false (here bf []) = None ->
  sub_from fl r tpl s 0 done false bf [] = [].
Proof.
  intros H. rewrite sub_from_eq. cbn [Nat.eqb negb andb scan].
  unfold here in H. now rewrite H.
Qed.

End SubSteps.

Lemma cut_at_None (p s : text) :
  cut_at p s = None ->
  forall u1 u2, s = u1 ++ u2 -> strip_prefix p u2 = None.
Proof.
  induction s as [|x s IH]; intros H u1 u2 E; cbn [cut_at] in H.
  - destruct u1, u2; try discriminate. destruct (strip_prefix p []); congruence.
  - destruct (strip_prefix p (x :: s)) eqn:S; [discriminate|].
    destruct (cut_at p s) as [[a b]|] eqn:C; [discriminate|].
    destruct u1 as [|y u1]; cbn in E.
    + now subst u2.
    + inversion E; subst. now apply (IH eq_refl u1 u2).
Qed.

Lemma cut_at_Some (p s a b : text) :
  cut_at p s = Some (a, b) ->
  s = a ++ p ++ b /\
  forall u1 u2, a = u1 ++ u2 -> u2 <> [] -> strip_prefix p (u2 ++ p ++ b) = None.
Proof.
  revert a. induction s as [|x s IH]; intros a H; cbn [cut_at] in H.
  - destruct (strip_prefix p []) eqn:S; [|discriminate].
    inversion H; subst. apply strip_prefix_Some in S. split; [exact S|].
    intros u1 u2 E N. destruct u1, u2; try discriminate. now elim N.
  - destruct (strip_prefix p (x :: s)) as [r0|] eqn:S.
    + inversion H; subst. apply strip_prefix_Some in S. split; [exact S|].
      intros u1 u2 E N. destruct u1, u2; try discriminate. now elim N.
    + destruct (cut_at p s) as [[a' b']|] eqn:C; [|discriminate].
      inversion H; subst. destruct (IH a' eq_refl) as [-> Hn].
      split; [reflexivity|].
      intros [|y u1] u2 E N; cbn in E.
      * subst u2. exact S.
      * inversion E; subst. now apply (Hn u1 u2).
Qed.

(** A prefix without line feed does not reach over a line feed. *)
Lemma strip_prefix_line (p u rest : text) :
  p <> [] -> no_LF p ->
  strip_prefix p u = None -> strip_prefix p (u ++ LF :: rest) = None.
Proof.
  revert u. induction p as [|c p IH]; intros u N Hp H; [now elim N|].
  destruct u as [|x u]; cbn [app strip_prefix] in *.
  - destruct (Ascii.eqb_spec LF c) as [<-|]; [|reflexivity].
    exfalso. apply Hp. now left.
  - destruct (Ascii.eqb x c); [|reflexivity].
    destruct p as [|c' p]; [discriminate|].
    apply IH; [discriminate | | exact H].
    intros Hin. apply Hp. now right.
Qed.

Lemma take_while_all (p : ascii -> bool) (u rest : text) :
  Forall (fun x => p x = true) u ->
  (match rest with [] => True | x :: _ => p x = false end) ->
  take_while p (u ++ rest) = u /\ Py.drop_while p (u ++ rest) = rest.
Proof.
  intros Hu Hr. induction u as [|x u IH]; cbn [app take_while Py.drop_while].
  - destruct rest as [|y rest]; [now split|].
    cbn [take_while Py.drop_while]. rewrite Hr. now split.
  - inversion Hu; subst. rewrite H1. destruct (IH H2) as [-> ->]. now split.
Qed.

Lemma no_LF_Forall (u : text) : no_LF u -> Forall (fun x => not_LF x = true) u.
Proof.
  intros H. apply Forall_forall. intros x Hx. unfold not_LF.
  destruct (Ascii.eqb_spec x LF) as [->|]; [now elim H | reflexivity].
Qed.

Lemma no_LF_UNRELEASED_LABEL : no_LF UNRELEASED_LABEL.
Proof. apply text_no_LF. reflexivity. Qed.

Lemma app_tail_split {A} (u1 u2 l : list A) (x : A) :
  u1 ++ u2 = l ++ [x] -> u2 <> [] ->
  exists u2', u2 = u2' ++ [x] /\ l = u1 ++ u2'.
Proof.
  induction u2 as [|y u2 _] using rev_ind; intros E N; [now elim N|].
  rewrite app_assoc in E. apply app_inj_tail in E. destruct E as [<- ->].
  now exists u2.
Qed.

Lemma singleton_split {A} (u1 u2 : list A) (x : A) :
  [x] = u1 ++ u2 -> u2 <> [] -> u1 = [] /\ u2 = [x].
Proof.
  intros E N. destruct u1 as [|y u1]; cbn in E.
  - now split.
  - inversion E. destruct u1, u2; try discriminate. now elim N.
Qed.

Lemma unreleased_link_flag (t a bf : text) :
  (length (rev t ++ rev UNRELEASED_LABEL ++ rev a ++ bf) =? length (rev a ++ bf))
  = false.
Proof.
  apply Nat.eqb_neq. rewrite !length_app, !length_rev. cbn. lia.
Qed.

(** The first substitution of [update_link_definitions], line by line. *)
Lemma rewrite_line_Some link l a b :
  cut_at UNRELEASED_LABEL l = Some (a, b) -> rewrite_line link l = a ++ link.
Proof. intros C. unfold rewrite_line. now rewrite C. Qed.

Lemma rewrite_line_None link l :
  cut_at UNRELEASED_LABEL l = None -> rewrite_line link l = l.
Proof. intros C. unfold rewrite_line. now rewrite C. Qed.

Lemma pass1_lines (link s : text) :
  forall ls bf done,
    ls <> [] -> Forall no_LF ls ->
    sub_from FL_0 unreleased_link_pattern [Text link] s 0 done false bf
      (Py.join NL ls)
    = Py.join NL (map (rewrite_line link) ls).
Proof.
  induction ls as [|l ls IH]; intros bf done N Hls; [now elim N|].
  inversion Hls as [|? ? Hl Hls']; subst.
  destruct ls as [|l2 ls].
  - (* the last line *)
    change (Py.join NL [l]) with l.
    change (Py.join NL (map (rewrite_line link) [l])) with (rewrite_line link l).
    destruct (cut_at UNRELEASED_LABEL l) as [[a b]|] eqn:C.
    + rewrite (rewrite_line_Some _ _ _ _ C).
      destruct (cut_at_Some _ _ _ _ C) as [-> Hn].
      apply no_LF_app in Hl. destruct Hl as [_ Hl].
      apply no_LF_app in Hl. destruct Hl as [_ Hb].
      rewrite sub_from_skip.
      2:{ intros u1 u2 E Nu. rewrite attempt_unreleased_link.
          now rewrite (Hn u1 u2 E Nu). }
      f_equal.
      erewrite sub_from_hit.
      2:{ rewrite attempt_unreleased_link, strip_prefix_app.
          destruct (take_while_all not_LF b [] (no_LF_Forall _ Hb) I) as [Ht Hd].
          rewrite app_nil_r in Ht, Hd. rewrite Ht, Hd. reflexivity. }
      unfold pos. cbn [before after expand map expand_piece concat].
      rewrite unreleased_link_flag, sub_from_end by reflexivity.
      now rewrite !app_nil_r.
    + rewrite (rewrite_line_None _ _ C).
      rewrite <- (app_nil_r l) at 1. rewrite sub_from_skip.
      * rewrite sub_from_end by reflexivity. apply app_nil_r.
      * intros u1 u2 E Nu. rewrite attempt_unreleased_link, app_nil_r.
        now rewrite (cut_at_None _ _ C u1 u2 E).
  - (* a line followed by others *)
    change (Py.join NL (l :: l2 :: ls)) with (l ++ NL ++ Py.join NL (l2 :: ls)).
    change (Py.join NL (map (rewrite_line link) (l :: l2 :: ls)))
      with (rewrite_line link l ++ NL
              ++ Py.join NL (map (rewrite_line link) (l2 :: ls))).
    set (rest := Py.join NL (l2 :: ls)) in *.
    assert (IH' : forall bf done,
               sub_from FL_0 unreleased_link_pattern [Text link] s 0 done false bf rest
               = Py.join NL (map (rewrite_line link) (l2 :: ls)))
      by (intros; apply IH; [discriminate | exact Hls']).
    destruct (cut_at UNRELEASED_LABEL l) as [[a b]|] eqn:C.
    + rewrite (rewrite_line_Some _ _ _ _ C).
      destruct (cut_at_Some _ _ _ _ C) as [-> Hn].
      apply no_LF_app in Hl. destruct Hl as [_ Hl].
      apply no_LF_app in Hl. destruct Hl as [_ Hb].
      rewrite <- !app_assoc. rewrite sub_from_skip.
      2:{ intros u1 u2 E Nu. rewrite attempt_unreleased_link.
          replace (u2 ++ UNRELEASED_LABEL ++ b ++ NL ++ rest)
            with ((u2 ++ UNRELEASED_LABEL ++ b) ++ LF :: rest)
            by (now rewrite <- !app_assoc).
          rewrite strip_prefix_line;
            [reflexivity | discriminate | exact no_LF_UNRELEASED_LABEL
            | now apply (Hn u1 u2)]. }
      f_equal.
      erewrite sub_from_hit.
      2:{ rewrite attempt_unreleased_link, strip_prefix_app.
          destruct (take_while_all not_LF b (NL ++ rest) (no_LF_Forall _ Hb)
                      eq_refl) as [Ht Hd].
          rewrite Ht, Hd. reflexivity. }
      unfold pos. cbn [before after expand map expand_piece concat].
      rewrite unreleased_link_flag, app_nil_r. f_equal.
      rewrite (sub_from_skip FL_0 _ _ s (S done) _ NL rest).
      * now rewrite IH'.
      * intros u1 u2 E Nu. apply singleton_split in E; [|exact Nu].
        destruct E as [-> ->]. reflexivity.
    + rewrite (rewrite_line_None _ _ C).
      rewrite app_assoc, sub_from_skip.
      * rewrite IH'. now rewrite <- app_assoc.
      * intros u1 u2 E Nu. symmetry in E.
        apply app_tail_split in E; [|exact Nu]. destruct E as (u2' & -> & El).
        rewrite attempt_unreleased_link.
        replace ((u2' ++ [LF]) ++ rest) with (u2' ++ LF :: rest)
          by (now rewrite <- app_assoc).
        rewrite strip_prefix_line;
          [reflexivity | discriminate | exact no_LF_UNRELEASED_LABEL |].
        now apply (cut_at_None _ _ C u1 u2').
Qed.

Lemma join_cons_not_nil (sep p : text) (rest : list text) :
  rest <> [] -> Py.join sep (p :: rest) = p ++ sep ++ Py.join sep rest.
Proof. destruct rest; [now intros N; elim N | reflexivity]. Qed.

Lemma insert_lines_not_nil (new : text) (ls : list text) :
  ls <> [] -> insert_lines new ls <> [].
Proof.
  destruct ls as [|l [|l2 ls]]; cbn [insert_lines]; intros N;
    [now elim N | discriminate |].
  destruct (is_some (cut_at UNRELEASED_LABEL l)); discriminate.
Qed.

Lemma insert_lines_cons (new l l2 : text) (ls : list text) :
  insert_lines new (l :: l2 :: ls) =
  (if is_some (cut_at UNRELEASED_LABEL l) then [l; new] else [l])
    ++ insert_lines new (l2 :: ls).
Proof. reflexivity. Qed.

Lemma unreleased_line_flag (t a bf : text) :
  (length (LF :: rev t ++ rev UNRELEASED_LABEL ++ rev a ++ bf)
     =? length (rev a ++ bf)) = false.
Proof.
  apply Nat.eqb_neq. cbn [length]. rewrite !length_app, !length_rev. cbn. lia.
Qed.

(** The second substitution of [update_link_definitions], line by line. *)
Lemma pass2_lines (new s : text) :
  forall ls bf done,
    ls <> [] -> Forall no_LF ls ->
    s = rev bf ++ Py.join NL ls ->
    sub_from FL_0 unreleased_link_line_pattern [Ref 1; Text (new ++ NL)] s 0
      done false bf (Py.join NL ls)
    = Py.join NL (insert_lines new ls).
Proof.
  induction ls as [|l ls IH]; intros bf done N Hls Es; [now elim N|].
  pose proof (Forall_inv Hls) as Hl. pose proof (Forall_inv_tail Hls) as Hls'.
  destruct ls as [|l2 ls].
  - (* the last line has no line feed after it *)
    change (Py.join NL [l]) with l in *.
    change (Py.join NL (insert_lines new [l])) with l.
    rewrite <- (app_nil_r l) at 1. rewrite sub_from_skip.
    + rewrite sub_from_end by reflexivity. apply app_nil_r.
    + intros u1 u2 E Nu. rewrite attempt_unreleased_link_line, app_nil_r.
      destruct (strip_prefix UNRELEASED_LABEL u2) as [r|] eqn:S; [|reflexivity].
      apply strip_prefix_Some in S. subst u2 l.
      apply no_LF_app in Hl. destruct Hl as [_ Hl].
      apply no_LF_app in Hl. destruct Hl as [_ Hr].
      destruct (take_while_all not_LF r [] (no_LF_Forall _ Hr) I) as [_ Hd].
      rewrite app_nil_r in Hd. now rewrite Hd.
  - change (Py.join NL (l :: l2 :: ls)) with (l ++ NL ++ Py.join NL (l2 :: ls)) in *.
    rewrite insert_lines_cons.
    pose proof (insert_lines_not_nil new (l2 :: ls)) as NX.
    set (X := insert_lines new (l2 :: ls)) in *.
    set (rest := Py.join NL (l2 :: ls)) in *.
    assert (IH' : forall bf done, s = rev bf ++ rest ->
               sub_from FL_0 unreleased_link_line_pattern
                 [Ref 1; Text (new ++ NL)] s 0 done false bf rest
               = Py.join NL X)
      by (intros; apply IH; [discriminate | exact Hls' | assumption]).
    destruct (cut_at UNRELEASED_LABEL l) as [[a b]|] eqn:C; cbn [is_some].
    + destruct (cut_at_Some _ _ _ _ C) as [El Hn]. subst l.
      apply no_LF_app in Hl. destruct Hl as [_ Hl].
      apply no_LF_app in Hl. destruct Hl as [_ Hb].
      cbn [app]. rewrite !join_cons_not_nil by (try discriminate; apply NX; discriminate).
      rewrite <- !app_assoc. rewrite sub_from_skip.
      2:{ intros u1 u2 E Nu. rewrite attempt_unreleased_link_line.
          replace (u2 ++ UNRELEASED_LABEL ++ b ++ NL ++ rest)
            with ((u2 ++ UNRELEASED_LABEL ++ b) ++ LF :: rest)
            by (now rewrite <- !app_assoc).
          rewrite strip_prefix_line;
            [reflexivity | discriminate | exact no_LF_UNRELEASED_LABEL
            | now apply (Hn u1 u2)]. }
      f_equal.
      erewrite sub_from_hit.
      2:{ rewrite attempt_unreleased_link_line, strip_prefix_app.
          destruct (take_while_all not_LF b (NL ++ rest) (no_LF_Forall _ Hb)
                      eq_refl) as [Ht Hd].
          rewrite Ht, Hd. cbn [NL app]. rewrite Ascii.eqb_refl. reflexivity. }
      unfold pos. cbn [before after spans].
      rewrite unreleased_line_flag.
      assert (Eexp : expand s [Ref 1; Text (new ++ NL)]
                       {| before := LF :: rev b ++ rev UNRELEASED_LABEL ++ rev a ++ bf;
                          after := rest;
                          spans := [(1, (length (rev a ++ bf),
                                         length (LF :: rev b ++ rev UNRELEASED_LABEL
                                                   ++ rev a ++ bf)))] |}
                     = (UNRELEASED_LABEL ++ b ++ NL) ++ new ++ NL).
      { unfold expand. cbn [map expand_piece spans lookup_span Nat.eqb concat].
        rewrite app_nil_r. f_equal.
        rewrite Es.
        replace (rev bf ++ (a ++ UNRELEASED_LABEL ++ b) ++ NL ++ rest)
          with ((rev bf ++ a) ++ (UNRELEASED_LABEL ++ b ++ NL) ++ rest)
          by (now rewrite <- !app_assoc).
        replace (length (rev a ++ bf)) with (length (rev bf ++ a))
          by (rewrite !length_app, !length_rev; lia).
        replace (length (LF :: rev b ++ rev UNRELEASED_LABEL ++ rev a ++ bf))
          with (length (rev bf ++ a) + length (UNRELEASED_LABEL ++ b ++ NL))
          by (cbn [length]; rewrite !length_app, !length_rev; cbn; lia).
        apply slice_app. }
      rewrite Eexp, <- !app_assoc. do 5 f_equal.
      apply IH'.
      rewrite Es. cbn [rev]. rewrite !rev_app_distr, !rev_involutive.
      now rewrite <- !app_assoc.
    + cbn [app]. rewrite join_cons_not_nil by (apply NX; discriminate).
      rewrite app_assoc, sub_from_skip.
      * rewrite IH'; [now rewrite <- app_assoc|].
        rewrite Es, rev_app_distr, rev_involutive. now rewrite <- !app_assoc.
      * intros u1 u2 E Nu. symmetry in E.
        apply app_tail_split in E; [|exact Nu]. destruct E as (u2' & -> & El).
        rewrite attempt_unreleased_link_line.
        replace ((u2' ++ [LF]) ++ rest) with (u2' ++ LF :: rest)
          by (now rewrite <- app_assoc).
        rewrite strip_prefix_line;
          [reflexivity | discriminate | exact no_LF_UNRELEASED_LABEL |].
        now apply (cut_at_None _ _ C u1 u2').
Qed.

Lemma lines_all_no_LF (s : text) : Forall no_LF (lines s).
Proof.
  unfold lines. induction s as [|c s IH]; cbn [Py.split].
  - constructor; [intros [] | constructor].
  - destruct (Ascii.eqb_spec c LF) as [->|N].
    + constructor; [intros [] | exact IH].
    + pose proof (split_not_nil LF s) as Hn.
      destruct (Py.split LF s) as [|h t]; [now elim Hn|].
      inversion IH; subst. constructor; [|assumption].
      intros [E|Hin]; [congruence | contradiction].
Qed.

Lemma join_lines (s : text) : Py.join NL (lines s) = s.
Proof. apply (join_split LF). Qed.

Lemma cut_at_occurs (p s : text) : cut_at p s = None -> ~ occurs p s.
Proof.
  intros C (i & pre & post & E & _).
  pose proof (cut_at_None _ _ C pre (p ++ post) E) as H.
  rewrite strip_prefix_app in H. discriminate.
Qed.

Lemma not_occurs_piece (p a l b : text) : ~ occurs p (a ++ l ++ b) -> ~ occurs p l.
Proof.
  intros H (i & pre & post & -> & _). apply H.
  exists (length (a ++ pre)), (a ++ pre), (post ++ b).
  split; [now rewrite <- !app_assoc | reflexivity].
Qed.

Lemma not_occurs_cut_at (p s : text) : ~ occurs p s -> cut_at p s = None.
Proof.
  intros H. destruct (cut_at p s) as [[a b]|] eqn:C; [|reflexivity].
  exfalso. apply H. destruct (cut_at_Some _ _ _ _ C) as [-> _].
  now exists (length a), a, b.
Qed.

Lemma rewrite_line_no_LF (link l : text) :
  no_LF link -> no_LF l -> no_LF (rewrite_line link l).
Proof.
  intros Hk Hl. unfold rewrite_line.
  destruct (cut_at UNRELEASED_LABEL l) as [[a b]|] eqn:C; [|exact Hl].
  destruct (cut_at_Some _ _ _ _ C) as [-> _].
  apply no_LF_app in Hl. destruct Hl as [Ha _].
  apply no_LF_app. now split.
Qed.

Lemma unreleased_link_no_LF (new_version : text) :
  no_LF new_version -> no_LF (unreleased_link new_version).
Proof.
  intros H. unfold unreleased_link.
  repeat (apply no_LF_app; split); try exact H; apply text_no_LF; reflexivity.
Qed.


(** What [update_link_definitions] does, line by line. *)
Lemma update_link_definitions_lines region new_version prev_version :
  no_LF new_version -> no_backslash new_version -> no_backslash prev_version ->
  update_link_definitions region new_version prev_version
  = Some (Py.join NL (updated_lines new_version prev_version (lines region))).
Proof.
  intros Hlf Hn Hp. rewrite update_link_definitions_eq by assumption.
  f_equal. unfold updated_lines.
  set (link := unreleased_link new_version).
  set (ls := lines region).
  assert (E1 : sub FL_0 unreleased_link_pattern [Text link] region 0
               = Py.join NL (map (rewrite_line link) ls)).
  { rewrite sub_eq. rewrite <- (join_lines region) at 2. fold ls.
    apply pass1_lines; [apply lines_not_nil | apply lines_all_no_LF]. }
  rewrite E1, sub_eq.
  apply pass2_lines.
  - intros Hm. apply map_eq_nil in Hm. now apply (lines_not_nil region).
  - apply Forall_forall. intros l Hin. apply in_map_iff in Hin.
    destruct Hin as (l0 & <- & Hin0).
    apply rewrite_line_no_LF; [now apply unreleased_link_no_LF|].
    pose proof (lines_all_no_LF region) as F. rewrite Forall_forall in F.
    now apply F.
  - reflexivity.
Qed.

Lemma insert_lines_id (new : text) (ls : list text) :
  (forall l, In l ls -> cut_at UNRELEASED_LABEL l = None) ->
  insert_lines new ls = ls.
Proof.
  intros H. induction ls as [|l ls IH]; [reflexivity|].
  destruct ls as [|l2 ls]; [reflexivity|].
  rewrite insert_lines_cons, (H l) by (now left). cbn [is_some app].
  rewrite IH; [reflexivity|]. intros l' Hl'. apply H. now right.
Qed.

Lemma map_rewrite_line_id (link : text) (ls : list text) :
  (forall l, In l ls -> cut_at UNRELEASED_LABEL l = None) ->
  map (rewrite_line link) ls = ls.
Proof.
  intros H. induction ls as [|l ls IH]; [reflexivity|]. cbn [map].
  rewrite rewrite_line_None by (apply H; now left).
  rewrite IH; [reflexivity|]. intros l' Hl'. apply H. now right.
Qed.

Lemma lines_without (p s : text) :
  ~ occurs p s -> forall l, In l (lines s) -> cut_at p l = None.
Proof.
  intros H l Hin. destruct (In_lines _ _ Hin) as (a & b & ->).
  apply not_occurs_cut_at. eapply not_occurs_piece. exact H.
Qed.

Lemma cut_at_prefix (p rest : text) : cut_at p (p ++ rest) = Some ([], rest).
Proof.
  destruct (p ++ rest) as [|x t] eqn:E; cbn [cut_at]; rewrite <- E;
    now rewrite strip_prefix_app.
Qed.

Lemma version_shape_head (v : text) :
  version_shape v -> exists c v', v = c :: v' /\ digit_or_dot_char c = true.
Proof.
  intros (a & b & [Na Fa] & _ & Hv).
  destruct a as [|c a]; [now elim Na|]. inversion Fa; subst.
  destruct Hv as [->|(l & d & _ & _ & ->)]; now eexists c, _.
Qed.

Lemma version_shape_no_LF (v : text) : version_shape v -> no_LF v.
Proof.
  intros H. apply version_shape_not_In; [exact H | reflexivity | reflexivity | discriminate].
Qed.





(** ** The frame of a successful run (C10) *)

(** C10, checked on a changelog whose introduction mentions the text
    [## [Unreleased]] inside a line: the run succeeds, the earlier release
    and the links are as expected, but the end of that line of the
    introduction is gone from the written document. *)
Theorem update_changelog_cuts_introduction :
  fst (update_changelog world_with_note) = Ret tt
  /\ files (snd (update_changelog world_with_note)) "CHANGES.md"
     = Some ("Notes go under the ## [Unreleased]" ++ NL ++ NL
               ++ "## [Unreleased]" ++ NL ++ NL
               ++ "## [1.2.3-4.5.6] 2026-01-02" ++ NL ++ NL
               ++ "### Changes" ++ NL ++ NL
               ++ "* chore: bump nearcore to 4.5.6 in [#42]" ++ NL ++ NL
               ++ "[#42]: " ++ REPO_URL ++ "/pull/42" ++ NL ++ NL
               ++ "## [1.0.0-2.0.0] 2024-01-01" ++ NL ++ NL
               ++ unreleased_link "1.2.3-4.5.6" ++ NL
               ++ version_link "1.2.3-4.5.6" "1.0.0-2.0.0" ++ NL)
  /\ files (snd (update_changelog world_with_note)) "CHANGES.md"
     <> Some ("Notes go under the ## [Unreleased] heading." ++ NL ++ NL
                ++ "## [Unreleased]" ++ NL ++ NL
                ++ "## [1.2.3-4.5.6] 2026-01-02" ++ NL ++ NL
                ++ "### Changes" ++ NL ++ NL
                ++ "* chore: bump nearcore to 4.5.6 in [#42]" ++ NL ++ NL
                ++ "[#42]: " ++ REPO_URL ++ "/pull/42" ++ NL ++ NL
                ++ "## [1.0.0-2.0.0] 2024-01-01" ++ NL ++ NL
                ++ unreleased_link "1.2.3-4.5.6" ++ NL
                ++ version_link "1.2.3-4.5.6" "1.0.0-2.0.0" ++ NL).
Proof.
  split; [vm_compute; reflexivity|].
  assert (E : files (snd (update_changelog world_with_note)) "CHANGES.md"
     = Some ("Notes go under the ## [Unreleased]" ++ NL ++ NL
               ++ "## [Unreleased]" ++ NL ++ NL
               ++ "## [1.2.3-4.5.6] 2026-01-02" ++ NL ++ NL
               ++ "### Changes" ++ NL ++ NL
               ++ "* chore: bump nearcore to 4.5.6 in [#42]" ++ NL ++ NL
               ++ "[#42]: " ++ REPO_URL ++ "/pull/42" ++ NL ++ NL
               ++ "## [1.0.0-2.0.0] 2024-01-01" ++ NL ++ NL
               ++ unreleased_link "1.2.3-4.5.6" ++ NL
               ++ version_link "1.2.3-4.5.6" "1.0.0-2.0.0" ++ NL))
    by (vm_compute; reflexivity).
  split; [exact E|].
  rewrite E. intros H. vm_compute in H. discriminate.
Qed.

(** ** The merge when the pattern finds the heading, or nothing *)

Lemma changes_matches bf af :
  (exists c', matches FL_M CHANGES_SECTION_PATTERN (here bf af) c')
  <->
  exists hashes blanks post,
    af = hashes ++ blanks ++ "Changes" ++ post /\
    all_of (fun c => Ascii.eqb c "#") hashes /\ all_of Py.isspace blanks.
Proof.
  unfold CHANGES_SECTION_PATTERN. split.
  - intros (c' & H). invert_matches. cbn [here after] in *.
    match goal with
    | H1 : af = ?h ++ after ?c1, H2 : after ?c1 = ?b ++ after ?c2,
      H3 : after ?c2 = _ ++ after c' |- _ =>
        exists h, b, (after c'); split;
        [ now rewrite H1, H2, H3 | split; split; assumption ]
    end.
  - intros (h & b & post & -> & [Nh Fh] & [Nb Fb]). unfold here.
    eexists.
    eapply M_Cat; [apply matches_Plus_intro; [exact Nh | exact Fh]|].
    eapply M_Cat; [apply matches_Plus_intro; [exact Nb | exact Fb]|].
    apply matches_Lit_intro.
Qed.

Lemma changes_end bf af e :
  attempt FL_M CHANGES_SECTION_PATTERN false (here bf af) = Some e ->
  exists hashes blanks,
    af = hashes ++ blanks ++ "Changes" ++ after e /\
    all_of (fun c => Ascii.eqb c "#") hashes /\ all_of Py.isspace blanks /\
    pos e = length bf + length (hashes ++ blanks ++ "Changes").
Proof.
  intros H. apply attempt_sound in H. destruct H as [H _].
  unfold CHANGES_SECTION_PATTERN in H. invert_matches. cbn [here after before] in *.
  match goal with
  | H1 : af = ?h ++ after ?c1, H2 : after ?c1 = ?b ++ after ?c2,
    H3 : after ?c2 = _ ++ after e,
    B1 : before ?c1 = _, B2 : before ?c2 = _, B3 : before e = _ |- _ =>
      exists h, b; split; [now rewrite H1, H2, H3|];
      split; [split; assumption|]; split; [split; assumption|];
      unfold pos; rewrite B3, B2, B1, !length_app, !length_rev; cbn; lia
  end.
Qed.

(** The run of [#] and the run of white space of a heading are determined
    by the text. *)
Lemma heading_unique (h b post h' b' post' : text) :
  all_of (fun c => Ascii.eqb c "#") h -> all_of Py.isspace b ->
  all_of (fun c => Ascii.eqb c "#") h' -> all_of Py.isspace b' ->
  h ++ b ++ "Changes" ++ post = h' ++ b' ++ "Changes" ++ post' ->
  h = h' /\ b = b' /\ post = post'.
Proof.
  intros [_ Fh] [Nb Fb] [_ Fh'] [Nb' Fb'] E.
  assert (Hh : forall x y t, Py.isspace x = true ->
             match (x :: y) ++ t with [] => True | c :: _ => Ascii.eqb c "#" = false end).
  { intros x y t Hx. cbn. destruct (Ascii.eqb_spec x "#") as [->|]; [discriminate | reflexivity]. }
  destruct b as [|x b]; [now elim Nb|]. destruct b' as [|x' b']; [now elim Nb'|].
  inversion Fb as [|? ? Hx Fb1]; inversion Fb' as [|? ? Hx' Fb1']; subst.
  pose proof (take_while_all _ h ((x :: b) ++ "Changes" ++ post) Fh
                (Hh x b ("Changes" ++ post) Hx)) as [T1 D1].
  pose proof (take_while_all _ h' ((x' :: b') ++ "Changes" ++ post') Fh'
                (Hh x' b' ("Changes" ++ post') Hx')) as [T2 D2].
  rewrite <- ?app_assoc in E. rewrite <- ?app_assoc in T1, D1, T2, D2.
  rewrite E in T1, D1. rewrite T2 in T1. rewrite D2 in D1. subst h'.
  split; [reflexivity|].
  pose proof (take_while_all Py.isspace (x :: b) ("Changes" ++ post) Fb eq_refl)
    as [T3 D3].
  pose proof (take_while_all Py.isspace (x' :: b') ("Changes" ++ post') Fb' eq_refl)
    as [T4 D4].
  rewrite <- D1 in T3, D3. rewrite T4 in T3. rewrite D4 in D3.
  split; [now symmetry|].
  now apply app_inv_head in D3.
Qed.

(** C4, as the script does it.  When the first text
    [#...# <white space> Changes] of the body is the heading, the bullet is
    put right below it after one blank line; the body up to and with the
    heading is kept as it is, and the text that followed the heading comes
    on the line after the bullet, from its first character that is no
    white space. *)
Theorem create_new_entry_after_heading (pre hashes blanks post new_entry : text) :
  all_of (fun c => Ascii.eqb c "#") hashes -> all_of Py.isspace blanks ->
  (forall i, i < length pre ->
     ~ changes_text_at (pre ++ hashes ++ blanks ++ "Changes" ++ post) i) ->
  create_new_entry (pre ++ hashes ++ blanks ++ "Changes" ++ post) new_entry
  = (pre ++ hashes ++ blanks ++ "Changes") ++ NL ++ NL ++ new_entry ++ NL
      ++ Py.lstrip post.
Proof.
  intros Hh Hb Hfirst.
  set (body := pre ++ hashes ++ blanks ++ "Changes" ++ post) in *.
  unfold create_new_entry.
  assert (Hne : Py.truthy body = true).
  { apply truthy_not_nil. unfold body. destruct Hh as [Nh _].
    destruct pre; [destruct hashes; [now elim Nh | discriminate] | discriminate]. }
  rewrite Hne. cbn [negb].
  assert (Hhit : exists e, attempt FL_M CHANGES_SECTION_PATTERN false
                   (here (rev pre) (hashes ++ blanks ++ "Changes" ++ post)) = Some e).
  { apply attempt_iff_matches; [reflexivity|].
    apply changes_matches. now exists hashes, blanks, post. }
  destruct Hhit as [e0 He0].
  destruct (search FL_M CHANGES_SECTION_PATTERN body) as [m|] eqn:E.
  2:{ now rewrite (search_None _ _ _ E pre _ eq_refl) in He0. }
  destruct (search_sound _ _ _ _ E) as (u & v & e & Euv & _ & Ha & Hme & _ & Hn).
  assert (Hlen : length u = length pre).
  { destruct (Nat.lt_trichotomy (length u) (length pre)) as [Lt|[Eq|Gt]];
      [|exact Eq|].
    - exfalso. apply (Hfirst (length u) Lt).
      destruct (changes_end _ _ _ Ha) as (h' & b' & Ev & Hh' & Hb' & _).
      exists u, h', b', (after e). rewrite Euv, Ev.
      split; [reflexivity|]. split; [reflexivity|]. split; assumption.
    - exfalso. unfold body in Euv.
      destruct (app_split_lt _ _ _ _ Euv Gt) as (u2 & -> & Ev & Nu).
      rewrite Ev, (Hn pre u2 eq_refl Nu) in He0. discriminate. }
  unfold body in Euv. apply split_at_length in Euv; [|now symmetry].
  destruct Euv as [<- <-].
  destruct (changes_end _ _ _ Ha) as (h' & b' & Ev & Hh' & Hb' & Hpos).
  destruct (heading_unique _ _ _ _ _ _ Hh Hb Hh' Hb' Ev) as (<- & <- & Hpost).
  rewrite Hme, Hpos, length_rev.
  replace (length pre + length (hashes ++ blanks ++ "Changes"))
    with (length (pre ++ hashes ++ blanks ++ "Changes"))
    by (now rewrite length_app).
  replace body with ((pre ++ hashes ++ blanks ++ "Changes") ++ post)
    by (unfold body; now rewrite <- !app_assoc).
  rewrite firstn_length_app, skipn_length_app. now rewrite <- !app_assoc.
Qed.

Lemma create_new_entry_after_heading_witness :
  create_new_entry ("### Changes" ++ NL ++ NL ++ "* foo")
    (new_entry_line "4.5.6" "42")
  = "### Changes" ++ NL ++ NL ++ new_entry_line "4.5.6" "42" ++ NL ++ "* foo".
Proof.
  apply (create_new_entry_after_heading [] "###" " " (NL ++ NL ++ "* foo")
           (new_entry_line "4.5.6" "42")).
  - split; [discriminate | repeat constructor].
  - split; [discriminate | repeat constructor].
  - cbn [length]. intros i Hi. lia.
Defined.

(** C4 as stated fails on a body whose bullet below the heading is
    indented: the white space in front of what follows the heading is
    dropped, so the line [  * foo] of the body is not a line of the
    result. *)
Lemma create_new_entry_strips_indentation :
  let bullet := new_entry_line "4.5.6" "42" in
  has_changes_heading body_with_indented_bullet = true
  /\ create_new_entry body_with_indented_bullet bullet
     = "### Changes" ++ NL ++ NL ++ bullet ++ NL ++ "* foo"
  /\ ~ keeps_lines body_with_indented_bullet
         (create_new_entry body_with_indented_bullet bullet).
Proof.
  cbv zeta. split; [reflexivity|]. split; [reflexivity|].
  intros H. specialize (H "  * foo").
  assert (Hin : In (list_ascii_of_string "  * foo") (lines body_with_indented_bullet))
    by (vm_compute; right; right; now left).
  apply H in Hin. vm_compute in Hin.
  repeat (destruct Hin as [Hin|Hin]; [discriminate|]). exact Hin.
Qed.

(** When the text [#...# <white space> Changes] occurs nowhere in a body
    that is not empty, a new heading with the bullet is put above the
    body. *)
Lemma create_new_entry_new_heading (body new_entry : text) :
  body <> [] -> (forall i, ~ changes_text_at body i) ->
  create_new_entry body new_entry
  = "### Changes" ++ NL ++ NL ++ new_entry ++ NL ++ NL ++ body.
Proof.
  intros Hne Hno. unfold create_new_entry.
  rewrite (proj2 (truthy_not_nil body) Hne). cbn [negb].
  destruct (search FL_M CHANGES_SECTION_PATTERN body) as [m|] eqn:E; [|reflexivity].
  exfalso.
  destruct (search_sound _ _ _ _ E) as (u & v & e & -> & _ & Ha & _).
  destruct (changes_end _ _ _ Ha) as (h & b & Ev & Hh & Hb & _).
  apply (Hno (length u)). exists u, h, b, (after e). rewrite Ev.
  split; [reflexivity|]. split; [reflexivity|]. split; assumption.
Qed.

(** * More properties of the stages *)

(** ** The first match of a search *)

Lemma search_from_at fl r (a u v : text) e :
  attempt fl r false (here (rev u ++ rev a) v) = Some e ->
  (forall u1 u2, u = u1 ++ u2 -> u2 <> [] ->
     attempt fl r false (here (rev u1 ++ rev a) (u2 ++ v)) = None) ->
  search_from fl r (a ++ u ++ v) (length a)
  = Some {| m_start := length a + length u; m_end := pos e; m_spans := spans e |}.
Proof.
  intros Ha Hn. unfold search_from.
  rewrite firstn_length_app, skipn_length_app.
  rewrite scan_skip by exact Hn.
  rewrite (scan_hit _ _ _ _ _ _ Ha). cbn [option_map]. unfold to_match, pos.
  cbn [fst snd here before]. rewrite length_app, !length_rev.
  f_equal. f_equal. lia.
Qed.

Lemma search_at fl r (u v : text) e :
  attempt fl r false (here (rev u) v) = Some e ->
  (forall u1 u2, u = u1 ++ u2 -> u2 <> [] ->
     attempt fl r false (here (rev u1) (u2 ++ v)) = None) ->
  search fl r (u ++ v)
  = Some {| m_start := length u; m_end := pos e; m_spans := spans e |}.
Proof.
  intros Ha Hn.
  pose proof (search_from_at fl r [] u v e) as H.
  cbn [rev app length] in H. rewrite app_nil_r in H.
  unfold search. apply H; [exact Ha|].
  intros u1 u2 E N. rewrite app_nil_r. now apply Hn.
Qed.

Lemma search_from_first fl r s i m :
  search_from fl r s i = Some m ->
  exists u v e,
    skipn i s = u ++ v /\ m_start m = length (firstn i s) + length u /\
    attempt fl r false (here (rev u ++ rev (firstn i s)) v) = Some e /\
    m_end m = pos e /\ m_spans m = spans e /\
    (forall u1 u2, u = u1 ++ u2 -> u2 <> [] ->
       attempt fl r false (here (rev u1 ++ rev (firstn i s)) (u2 ++ v)) = None).
Proof.
  unfold search_from.
  destruct (scan fl r false (rev (firstn i s)) (skipn i s)) as [[b e]|] eqn:E;
    [|discriminate].
  intros H; inversion H; subst; clear H.
  destruct (scan_sound _ _ _ _ _ _ _ E) as (u & v & Es & -> & Ha & Hn).
  exists u, v, e. cbn. unfold pos; cbn.
  rewrite length_app, !length_rev.
  split; [exact Es|]. split; [lia|]. split; [exact Ha|].
  split; [reflexivity|]. split; [reflexivity|].
  intros u1 u2 E12 N. exact (Hn u1 u2 E12 N).
Qed.

(** ** Lines that begin with a text *)

Lemma prefix_before_LF (p r b x : text) :
  no_LF p -> p ++ r = b ++ LF :: x -> exists b', b = p ++ b'.
Proof.
  revert b. induction p as [|c p IH]; intros b Hp E.
  - now exists b.
  - destruct b as [|c' b].
    + exfalso. apply Hp. cbn in E. inversion E. now left.
    + cbn in E. inversion E; subst c'.
      destruct (IH b) as [b' ->]; [|assumption|now exists b'].
      intros Hin. apply Hp. now right.
Qed.

Lemma ends_with_LF_tail (u1 u2 q : text) :
  u1 ++ u2 = q ++ NL -> u2 <> [] -> exists q', u2 = q' ++ NL.
Proof.
  intros E N. destruct (app_tail_split _ _ _ _ E N) as (u2' & -> & _).
  now exists u2'.
Qed.

(** A line that begins with [p] inside a text that a line feed ends. *)
Lemma line_before (p u1 u2 v r : text) :
  no_LF p -> (u1 = [] \/ exists q, u1 = q ++ NL) ->
  (exists q, u1 ++ u2 = q ++ NL) -> u2 <> [] ->
  u2 ++ v = p ++ r ->
  exists l, In l (lines (u1 ++ u2)) /\ starts_with p l.
Proof.
  intros Hp Hb [q Eq] N E.
  destruct (ends_with_LF_tail _ _ _ Eq N) as [q' ->].
  destruct (cut_first_line (q' ++ NL)) as (b & post2 & Eb & Hnb & Hpost).
  destruct Hpost as [->|[x ->]].
  - exfalso. rewrite app_nil_r in Eb. subst b. apply Hnb.
    apply in_or_app. right. now left.
  - rewrite Eb in E. rewrite <- app_assoc in E. cbn [app] in E.
    symmetry in E. destruct (prefix_before_LF _ _ _ _ Hp E) as [b' ->].
    exists (p ++ b'). split; [|now exists b'].
    rewrite Eb. apply In_line; [exact Hnb | exact Hb | right; now exists x].
Qed.

Lemma line_at_In (p s : text) (k : nat) :
  no_LF p -> line_at p s k -> exists l, In l (lines s) /\ starts_with p l.
Proof.
  intros Hp Hk. destruct (line_at_inv _ _ _ Hk) as (pre & post & -> & <-).
  apply line_at_split in Hk. destruct Hk as [Hb [rest ->]].
  destruct (cut_first_line rest) as (b & post2 & -> & Hnb & Hpost).
  exists (p ++ b). split; [|now exists b].
  replace (pre ++ p ++ b ++ post2) with (pre ++ (p ++ b) ++ post2)
    by (now rewrite <- !app_assoc).
  apply In_line; [|exact Hb | exact Hpost].
  apply no_LF_app. now split.
Qed.

Lemma no_LF_UNRELEASED_HEADING : no_LF UNRELEASED_HEADING.
Proof. apply text_no_LF. reflexivity. Qed.

(** ** Finding the Unreleased heading *)

Lemma unreleased_first pre rest :
  (pre = [] \/ exists pre', pre = pre' ++ NL) ->
  (forall l, In l (lines pre) -> ~ starts_with UNRELEASED_HEADING l) ->
  search FL_M UNRELEASED_SECTION_PATTERN (pre ++ UNRELEASED_HEADING ++ rest)
  = Some (plain_match (length pre) (length pre + 15)).
Proof.
  intros Hb Hno.
  assert (Ha : attempt FL_M UNRELEASED_SECTION_PATTERN false
                 (here (rev pre) (UNRELEASED_HEADING ++ rest))
               = Some {| before := rev "## [Unreleased]" ++ rev pre;
                         after := rest; spans := [] |}).
  { rewrite attempt_unreleased.
    rewrite (proj2 (at_bol_M_rev pre _) Hb).
    unfold UNRELEASED_HEADING. now rewrite strip_prefix_app. }
  rewrite (search_at _ _ _ _ _ Ha).
  - unfold plain_match, pos. cbn [before spans].
    rewrite length_app, !length_rev. cbn [length list_ascii_of_string].
    f_equal. f_equal. lia.
  - intros u1 u2 E N. rewrite attempt_unreleased.
    destruct (at_bol FL_M (here (rev u1) (u2 ++ UNRELEASED_HEADING ++ rest)))
      eqn:B; [|reflexivity].
    apply at_bol_M_rev in B.
    destruct (strip_prefix "## [Unreleased]" (u2 ++ UNRELEASED_HEADING ++ rest))
      as [r|] eqn:S; [|reflexivity].
    exfalso. apply strip_prefix_Some in S.
    assert (Hq : exists q, u1 ++ u2 = q ++ NL).
    { destruct Hb as [->|[q Hq]]; [destruct u1, u2; try discriminate; now elim N|].
      exists q. now rewrite <- E. }
    destruct (line_before UNRELEASED_HEADING u1 u2 _ r
                no_LF_UNRELEASED_HEADING B Hq N S) as (l & Hin & Hl).
    rewrite <- E in Hin. exact (Hno l Hin Hl).
Qed.

(** X6. [find_unreleased_section] returns the match of the first line of
    the upper region that begins with [## [Unreleased]]: it starts where
    that line starts and ends fifteen characters later, right after the
    closing bracket, whatever follows on the line; nothing is printed.
    When no line begins with that text, it prints its diagnostic and the
    process exits with status 1.  And a match it returns is always of that
    kind. *)
Theorem find_unreleased_section_first (upper : text) (w : world) :
  (forall pre rest,
     upper = pre ++ UNRELEASED_HEADING ++ rest ->
     (pre = [] \/ exists pre', pre = pre' ++ NL) ->
     (forall l, In l (lines pre) -> ~ starts_with UNRELEASED_HEADING l) ->
     find_unreleased_section upper w
     = (Ret (plain_match (length pre) (length pre + 15)), w))
  /\
  ((forall l, In l (lines upper) -> ~ starts_with UNRELEASED_HEADING l) ->
   find_unreleased_section upper w = (Exit 1, printed w msg_no_unreleased))
  /\
  (forall m w',
     find_unreleased_section upper w = (Ret m, w') ->
     w' = w /\
     exists pre rest,
       upper = pre ++ UNRELEASED_HEADING ++ rest /\
       (pre = [] \/ exists pre', pre = pre' ++ NL) /\
       m_start m = length pre /\ m_end m = length pre + 15).
Proof.
  split; [|split].
  - intros pre rest -> Hb Hno. unfold find_unreleased_section.
    now rewrite (unreleased_first pre rest Hb Hno).
  - intros Hno. unfold find_unreleased_section.
    rewrite unreleased_absent; [reflexivity|].
    intros k Hk.
    destruct (line_at_In _ _ _ no_LF_UNRELEASED_HEADING Hk) as (l & Hin & Hl).
    exact (Hno l Hin Hl).
  - intros m w' E.
    destruct (find_unreleased_section_found _ _ _ _ E)
      as (-> & pre & rest & Eu & Hs & He & Hb).
    split; [reflexivity|]. exists pre, rest.
    split; [exact Eu|]. split; [exact Hb|]. split; [exact Hs|].
    rewrite He, length_app. reflexivity.
Qed.

Lemma no_line_starts (p s : text) :
  forallb (fun l => negb (is_some (strip_prefix p l))) (lines s) = true ->
  forall l, In l (lines s) -> ~ starts_with p l.
Proof.
  intros H l Hin. rewrite forallb_forall in H. specialize (H l Hin).
  destruct (strip_prefix p l) eqn:S; [discriminate|].
  now apply strip_prefix_None.
Qed.

Lemma find_unreleased_section_first_witness :
  find_unreleased_section sample_upper sample_world
  = (Ret (plain_match 13 28), sample_world).
Proof.
  apply (proj1 (find_unreleased_section_first sample_upper sample_world)
           ("# Changelog" ++ NL ++ NL)
           (NL ++ NL ++ "### Changes" ++ NL ++ NL ++ "* foo" ++ NL ++ NL
              ++ "## [1.0.0-2.0.0] 2024-01-01" ++ NL ++ NL)).
  - reflexivity.
  - right. exists ("# Changelog" ++ NL). reflexivity.
  - apply no_line_starts. vm_compute. reflexivity.
Defined.

(** ** Finding the previous release *)

Lemma label_split (pv tail l tail' : text) :
  all_of (fun x => accepts FL_M label_char x) pv ->
  all_of (fun x => accepts FL_M label_char x) l ->
  pv ++ "]" ++ tail = l ++ "]" ++ tail' -> pv = l /\ tail = tail'.
Proof.
  intros [_ Hp] [_ Hl] E.
  pose proof (take_while_all (fun x => accepts FL_M label_char x) pv
                ("]" ++ tail) Hp eq_refl) as [T1 D1].
  pose proof (take_while_all (fun x => accepts FL_M label_char x) l
                ("]" ++ tail') Hl eq_refl) as [T2 D2].
  rewrite E in T1, D1. rewrite T2 in T1. rewrite D2 in D1.
  split; [now symmetry|]. inversion D1. reflexivity.
Qed.

Lemma release_entry_hit bf pv tail :
  at_bol FL_M (here bf ("## [" ++ pv ++ "]" ++ tail)) = true ->
  all_of (fun x => accepts FL_M label_char x) pv ->
  exists e,
    attempt FL_M RELEASE_ENTRY_PATTERN false
      (here bf ("## [" ++ pv ++ "]" ++ tail)) = Some e.
Proof.
  intros B [Np Hp].
  apply attempt_iff_matches; [reflexivity|].
  eexists. unfold RELEASE_ENTRY_PATTERN.
  eapply M_Cat; [apply M_Bol; exact B|].
  eapply M_Cat; [apply matches_Lit_intro|].
  eapply M_Cat.
  - apply M_Group. apply matches_Plus_intro; [exact Np | exact Hp].
  - unfold close_group. cbn [before after spans].
    apply matches_One_intro. reflexivity.
Qed.

Lemma release_heading_at_split (a u v : text) j pv :
  length (a ++ u) = j ->
  release_heading_at (a ++ u ++ v) j pv <->
  (a ++ u = [] \/ exists q, a ++ u = q ++ NL) /\
  all_of (fun x => accepts FL_M label_char x) pv /\
  exists tail, v = "## [" ++ pv ++ "]" ++ tail.
Proof.
  intros L. split.
  - intros (pre & tail & E & Lp & Hb & Hl).
    rewrite app_assoc in E. apply split_at_length in E; [|congruence].
    destruct E as [E1 E2]. rewrite E1. split; [exact Hb|]. split; [exact Hl|].
    now exists tail.
  - intros (Hb & Hl & tail & ->). exists (a ++ u), tail.
    split; [now rewrite app_assoc|]. split; [exact L|]. now split.
Qed.

Lemma previous_release_first upper i k pv :
  i <= k -> release_heading_at upper k pv ->
  (forall j pv', i <= j -> j < k -> ~ release_heading_at upper j pv') ->
  exists fr,
    search_from FL_M RELEASE_ENTRY_PATTERN upper i = Some fr /\
    m_start fr = k /\ group upper fr 1 = Some pv.
Proof.
  intros Hik (P & tail & Eu & LP & Hb & Hl) Hmin.
  set (A := firstn i P). set (mid := skipn i P).
  assert (EP : P = A ++ mid) by (symmetry; apply firstn_skipn).
  assert (LA : length A = i)
    by (unfold A; rewrite length_firstn; lia).
  assert (Eu' : upper = A ++ mid ++ "## [" ++ pv ++ "]" ++ tail)
    by (rewrite Eu, EP; now rewrite <- app_assoc).
  assert (B : at_bol FL_M (here (rev mid ++ rev A) ("## [" ++ pv ++ "]" ++ tail))
              = true).
  { rewrite <- rev_app_distr, <- EP. now apply at_bol_M_rev. }
  destruct (release_entry_hit _ pv tail B Hl) as [e He].
  assert (Hi : i <= length upper) by (rewrite Eu, length_app; lia).
  assert (Hs : search_from FL_M RELEASE_ENTRY_PATTERN upper i
               = Some {| m_start := length A + length mid; m_end := pos e;
                         m_spans := spans e |}).
  { rewrite Eu' at 1. rewrite <- LA at 1. apply search_from_at; [exact He|].
    intros u1 u2 E N.
    destruct (attempt FL_M RELEASE_ENTRY_PATTERN false
                (here (rev u1 ++ rev A) (u2 ++ "## [" ++ pv ++ "]" ++ tail)))
      as [e'|] eqn:Ea; [|reflexivity].
    exfalso.
    destruct (release_entry_inv _ _ _ Ea) as (l & t & El & Hl' & B' & _).
    rewrite <- rev_app_distr in B'. apply at_bol_M_rev in B'.
    apply (Hmin (length (A ++ u1)) l).
    - rewrite length_app. lia.
    - rewrite <- LP, EP, E, !length_app.
      destruct u2; [now elim N | cbn; lia].
    - rewrite Eu', E. rewrite <- ?app_assoc.
      apply (release_heading_at_split A u1 _ _ l eq_refl).
      split; [exact B'|]. split; [exact Hl'|]. now exists t. }
  eexists. split; [exact Hs|]. split.
  - cbn [m_start]. rewrite <- length_app, <- EP. exact LP.
  - destruct (previous_release_found _ _ _ Hi Hs)
      as (pv' & mid' & tail' & G & Hms & _ & E1 & _ & Hl').
    rewrite G. f_equal. cbn [m_start] in Hms.
    assert (Lm : length mid = length mid') by lia.
    rewrite Eu' in E1. rewrite <- LA in E1 at 1. rewrite skipn_length_app in E1.
    apply split_at_length in E1; [|exact Lm]. destruct E1 as [_ E1].
    cbn [list_ascii_of_string app] in E1. inversion E1 as [E2].
    destruct (label_split _ _ _ _ Hl Hl' E2) as [-> _]. reflexivity.
Qed.

Lemma previous_release_none upper i :
  (forall j pv', i <= j -> ~ release_heading_at upper j pv') ->
  search_from FL_M RELEASE_ENTRY_PATTERN upper i = None.
Proof.
  intros Hno.
  destruct (search_from FL_M RELEASE_ENTRY_PATTERN upper i) as [fr|] eqn:E;
    [|reflexivity].
  exfalso.
  destruct (search_from_sound _ _ _ _ _ E) as (u & v & e & Es & _ & Ha & _).
  destruct (release_entry_inv _ _ _ Ha) as (l & t & El & Hl & B & _).
  rewrite <- rev_app_distr in B. apply at_bol_M_rev in B.
  destruct (Nat.le_gt_cases i (length upper)) as [Le|Gt].
  - apply (Hno (length (firstn i upper ++ u)) l).
    + rewrite length_app, length_firstn. lia.
    + rewrite <- (firstn_skipn i upper) at 1. rewrite Es.
      apply (release_heading_at_split _ u _ _ l eq_refl).
      split; [exact B|]. split; [exact Hl|]. now exists t.
  - rewrite skipn_all2 in Es by lia.
    destruct u; [|discriminate]. cbn in Es. subst v. discriminate.
Qed.

(** No release heading begins inside a text whose lines do not begin with
    [## []. *)
Lemma no_release_heading_in (a mid v : text) j pv :
  (exists q, mid = q ++ NL) ->
  (forall l, In l (lines mid) -> ~ starts_with "## [" l) ->
  length a <= j -> j < length (a ++ mid) ->
  ~ release_heading_at (a ++ mid ++ v) j pv.
Proof.
  intros [q Hq] Hno Hle Hlt (pre & tail & E & L & Hb & _).
  destruct (app_split_le _ _ _ _ E) as (u1 & -> & E1); [lia|].
  rewrite length_app in L, Hlt.
  symmetry in E1.
  destruct (app_split_lt _ _ _ _ E1) as (u2 & Em & E2 & N); [lia|].
  assert (Hb1 : u1 = [] \/ exists p, u1 = p ++ NL).
  { destruct u1 as [|c u1]; [now left|]. right.
    destruct Hb as [Hb|[p Hb]]; [destruct a; discriminate|].
    apply (ends_with_LF_tail a (c :: u1) p Hb). discriminate. }
  destruct (line_before "## [" u1 u2 v (pv ++ "]" ++ tail)) as (l & Hin & Hl);
    try assumption.
  - apply text_no_LF. reflexivity.
  - exists q. now rewrite <- Em.
  - now rewrite <- E2.
  - rewrite <- Em in Hin. exact (Hno l Hin Hl).
Qed.

Lemma previous_release_sound upper i fr :
  search_from FL_M RELEASE_ENTRY_PATTERN upper i = Some fr ->
  exists pv,
    group upper fr 1 = Some pv /\ i <= m_start fr /\
    release_heading_at upper (m_start fr) pv.
Proof.
  intros E.
  destruct (search_from_sound _ _ _ _ _ E) as (u & v & e & Es & Hst & Ha & _).
  destruct (release_entry_inv _ _ _ Ha) as (l & t & El & Hl & B & _).
  rewrite <- rev_app_distr in B. apply at_bol_M_rev in B.
  destruct (Nat.le_gt_cases i (length upper)) as [Le|Gt].
  2:{ rewrite skipn_all2 in Es by lia.
      destruct u; [|discriminate]. cbn in Es. subst v. discriminate. }
  destruct (previous_release_found _ _ _ Le E)
    as (pv & mid & tail & G & Hms & _ & E1 & _ & Hpv).
  exists pv. split; [exact G|]. split; [lia|].
  assert (Lu : length u = length mid)
    by (rewrite length_firstn in Hst; lia).
  rewrite Es in E1. apply split_at_length in E1; [|exact Lu].
  destruct E1 as [-> Ev].
  rewrite <- (firstn_skipn i upper) at 1. rewrite Es.
  apply release_heading_at_split.
  - rewrite length_app, length_firstn. lia.
  - split; [exact B|]. split; [exact Hpv|]. now exists tail.
Qed.

(** X7. [find_previous_version] returns the first release heading
    [## [<label>]] that begins a line at or after the end of the Unreleased
    heading: the label (one or more digits, dots, hyphens and lower-case
    letters) as the previous version, the offset of the heading as the end
    of the Unreleased section, and the text between the two headings with
    the white space at both ends removed.  When no release heading follows,
    it prints its diagnostic and the process exits with status 1.  What it
    returns is always of that kind, so the previous version is never
    [Unreleased]. *)
Theorem find_previous_version_first (upper : text) (m : Match) (w : world) :
  (forall k pv,
     m_end m <= k -> release_heading_at upper k pv ->
     (forall j pv', m_end m <= j -> j < k -> ~ release_heading_at upper j pv') ->
     find_previous_version upper m w
     = (Ret (pv, k, Py.strip (Py.slice upper (m_end m) k)), w))
  /\
  ((forall j pv', m_end m <= j -> ~ release_heading_at upper j pv') ->
   find_previous_version upper m w = (Exit 1, printed w msg_no_previous))
  /\
  (forall pv k body w',
     find_previous_version upper m w = (Ret (pv, k, body), w') ->
     w' = w /\ m_end m <= k /\ release_heading_at upper k pv /\
     body = Py.strip (Py.slice upper (m_end m) k) /\
     pv <> "Unreleased").
Proof.
  split; [|split].
  - intros k pv Hk Hh Hmin.
    destruct (previous_release_first upper (m_end m) k pv Hk Hh Hmin)
      as (fr & Hs & Hst & G).
    unfold find_previous_version. rewrite Hs, G, Hst. reflexivity.
  - intros Hno. unfold find_previous_version.
    now rewrite (previous_release_none upper (m_end m) Hno).
  - intros pv k body w' E. unfold find_previous_version in E.
    destruct (search_from FL_M RELEASE_ENTRY_PATTERN upper (m_end m))
      as [fr|] eqn:Es; [|discriminate].
    destruct (previous_release_sound _ _ _ Es) as (pv0 & G & Hle & Hh).
    rewrite G in E. unfold ret in E. inversion E; subst.
    split; [reflexivity|]. split; [exact Hle|]. split; [exact Hh|].
    split; [reflexivity|].
    intros ->. destruct Hh as (_ & _ & _ & _ & _ & [_ Hl]).
    inversion Hl as [|c l Hc _]. discriminate.
Qed.

Lemma find_previous_version_first_witness :
  find_previous_version sample_upper (plain_match 13 28) sample_world
  = (Ret (list_ascii_of_string "1.0.0-2.0.0", 50,
          "### Changes" ++ NL ++ NL ++ "* foo"), sample_world).
Proof.
  apply (proj1 (find_previous_version_first sample_upper (plain_match 13 28)
                  sample_world) 50 "1.0.0-2.0.0").
  - cbn. lia.
  - exists ("# Changelog" ++ NL ++ NL ++ "## [Unreleased]" ++ NL ++ NL
              ++ "### Changes" ++ NL ++ NL ++ "* foo" ++ NL ++ NL),
           (" 2024-01-01" ++ NL ++ NL).
    split; [reflexivity|]. split; [reflexivity|]. split.
    + right. exists ("# Changelog" ++ NL ++ NL ++ "## [Unreleased]" ++ NL ++ NL
                       ++ "### Changes" ++ NL ++ NL ++ "* foo" ++ NL).
      reflexivity.
    + split; [discriminate | repeat constructor].
  - intros j pv' Hj Hk.
    change sample_upper
      with (("# Changelog" ++ NL ++ NL ++ "## [Unreleased]")
              ++ (NL ++ NL ++ "### Changes" ++ NL ++ NL ++ "* foo" ++ NL ++ NL)
              ++ "## [1.0.0-2.0.0] 2024-01-01" ++ NL ++ NL).
    apply no_release_heading_in.
    + exists (NL ++ NL ++ "### Changes" ++ NL ++ NL ++ "* foo" ++ NL). reflexivity.
    + apply no_line_starts. vm_compute. reflexivity.
    + exact Hj.
    + exact Hk.
Defined.

(** ** A whole run over a well-formed changelog *)

Lemma heading_first (pre : text) :
  (pre = [] \/ exists pre', pre = pre' ++ NL) ->
  ~ occurs UNRELEASED_HEADING pre ->
  forall i, i < length pre ->
    ~ occurs_at UNRELEASED_HEADING (pre ++ UNRELEASED_HEADING) i.
Proof.
  intros Hb Hno i Hi (a & b & E & La).
  symmetry in E.
  destruct (app_split_lt _ _ _ _ E) as (u2 & Ep & E2 & N); [lia|].
  destruct (Nat.le_gt_cases (length UNRELEASED_HEADING) (length u2)) as [Le|Gt].
  - destruct (app_split_le _ _ _ _ E2 Le) as (t & Et & _).
    apply Hno. exists (length a), a, t. split; [|reflexivity].
    now rewrite Ep, Et.
  - symmetry in E2.
    destruct (app_split_lt _ _ _ _ E2 Gt) as (t & Et & _).
    destruct Hb as [->|[p Hp]];
      [destruct a, u2; try discriminate; now elim N|].
    rewrite Ep in Hp.
    destruct (ends_with_LF_tail _ _ _ Hp N) as [q ->].
    apply no_LF_UNRELEASED_HEADING. rewrite Et.
    apply in_or_app. left. apply in_or_app. right. now left.
Qed.

Lemma lines_not_occurs (p s : text) :
  ~ occurs p s -> forall l, In l (lines s) -> ~ starts_with p l.
Proof.
  intros Hno l Hin [r ->].
  destruct (In_lines _ _ Hin) as (a & b & ->).
  apply Hno. exists (length a), a, (r ++ b). split; [|reflexivity].
  now rewrite <- !app_assoc.
Qed.

Lemma link_section_first upper bottom :
  (exists q, upper = q ++ NL) ->
  starts_with "[Unreleased]:" bottom ->
  (forall l, In l (lines upper) -> ~ starts_with "[Unreleased]:" l) ->
  exists ms,
    search FL_M link_section_pattern (upper ++ bottom) = Some ms /\
    m_start ms = length upper.
Proof.
  intros [q Hq] [rest Hr] Hno.
  assert (B : at_bol FL_M (here (rev upper) bottom) = true)
    by (apply at_bol_M_rev; right; now exists q).
  assert (Ha : attempt FL_M link_section_pattern false (here (rev upper) bottom)
               = Some (here (rev upper) bottom)).
  { rewrite attempt_link_section, B, Hr. now rewrite strip_prefix_app. }
  eexists. split; [apply (search_at _ _ _ _ _ Ha)|reflexivity].
  intros u1 u2 E N. rewrite attempt_link_section.
  destruct (at_bol FL_M (here (rev u1) (u2 ++ bottom))) eqn:B1; [|reflexivity].
  apply at_bol_M_rev in B1.
  destruct (strip_prefix "[Unreleased]:" (u2 ++ bottom)) as [r|] eqn:S;
    [|reflexivity].
  exfalso. apply strip_prefix_Some in S.
  destruct (line_before "[Unreleased]:" u1 u2 bottom r) as (l & Hin & Hl);
    try assumption.
  - apply text_no_LF. reflexivity.
  - exists q. now rewrite <- E.
  - rewrite <- E in Hin. exact (Hno l Hin Hl).
Qed.

Lemma update_changelog_release_eq (w : world)
    (new_version pr_number pre mid pv tail bottom : text) :
  let upper := pre ++ UNRELEASED_HEADING ++ mid ++ "## [" ++ pv ++ "]" ++ tail in
  let path := changelog_path_of w in
  configured w new_version pr_number ->
  files w path = Some (upper ++ bottom) ->
  ~ occurs (version_heading new_version) (upper ++ bottom) ->
  (exists q, tail = q ++ NL) ->
  starts_with "[Unreleased]:" bottom ->
  (forall l, In l (lines upper) -> ~ starts_with "[Unreleased]:" l) ->
  (pre = [] \/ exists pre', pre = pre' ++ NL) ->
  ~ occurs UNRELEASED_HEADING pre ->
  (exists q, mid = q ++ NL) ->
  all_of (fun x => accepts FL_M label_char x) pv ->
  (forall j pv',
     length (pre ++ UNRELEASED_HEADING) <= j ->
     j < length (pre ++ UNRELEASED_HEADING ++ mid) ->
     ~ release_heading_at upper j pv') ->
  exists links,
    update_link_definitions bottom new_version pv = Some links /\
    update_changelog w
    = (Ret tt,
       printed
         (written w path
            (pre ++ UNRELEASED_HEADING ++ NL ++ NL
               ++ new_version_section new_version pr_number (utc_today w)
                    (Py.strip mid)
               ++ NL ++ NL ++ "## [" ++ pv ++ "]" ++ tail ++ links))
         (msg_updated new_version path)).
Proof.
  intros upper path Hc Hf Hnv [qt Hqt] Hbot Hlines Hb Hno [qm Hqm] Hl Hmin.
  assert (Hnb : no_backslash new_version)
    by (apply validated_no_backslash; apply Hc).
  pose proof (update_link_definitions_eq bottom new_version pv Hnb
                (label_no_backslash _ Hl)) as Elinks.
  eexists. split; [exact Elinks|].
  rewrite (update_changelog_configured _ _ _ Hc).
  unfold release_outcome. fold path. rewrite Hf.
  destruct (is_some (search FL_M _ (upper ++ bottom))) eqn:Ev;
    [apply version_heading_search in Ev; contradiction|].
  destruct (link_section_first upper bottom) as (ms & -> & ->);
    [|exact Hbot|exact Hlines|].
  { exists (pre ++ UNRELEASED_HEADING ++ mid ++ "## [" ++ pv ++ "]" ++ qt).
    unfold upper. rewrite Hqt. now rewrite <- !app_assoc. }
  rewrite firstn_length_app, skipn_length_app.
  unfold upper at 1.
  rewrite (unreleased_first pre _ Hb (lines_not_occurs _ _ Hno)).
  cbn [plain_match m_end].
  assert (L15 : length pre + 15 = length (pre ++ UNRELEASED_HEADING))
    by (rewrite length_app; reflexivity).
  assert (Hh : release_heading_at upper
                 (length (pre ++ UNRELEASED_HEADING ++ mid)) pv).
  { exists (pre ++ UNRELEASED_HEADING ++ mid), tail.
    split; [unfold upper; now rewrite <- !app_assoc|].
    split; [reflexivity|]. split; [|exact Hl].
    right. exists (pre ++ UNRELEASED_HEADING ++ qm).
    rewrite Hqm. now rewrite <- !app_assoc. }
  destruct (previous_release_first upper (length pre + 15)
              (length (pre ++ UNRELEASED_HEADING ++ mid)) pv)
    as (fr & -> & Hst & ->).
  { rewrite !length_app. cbn [length UNRELEASED_HEADING list_ascii_of_string]. lia. }
  { exact Hh. }
  { intros j pv' Hj. apply Hmin. lia. }
  rewrite Hst, Elinks.
  assert (Ebody : Py.slice upper (length pre + 15)
                    (length (pre ++ UNRELEASED_HEADING ++ mid)) = mid).
  { rewrite L15. unfold upper.
    replace (pre ++ UNRELEASED_HEADING ++ mid ++ "## [" ++ pv ++ "]" ++ tail)
      with ((pre ++ UNRELEASED_HEADING) ++ mid ++ "## [" ++ pv ++ "]" ++ tail)
      by (now rewrite <- !app_assoc).
    replace (length (pre ++ UNRELEASED_HEADING ++ mid))
      with (length (pre ++ UNRELEASED_HEADING) + length mid)
      by (rewrite !length_app; lia).
    apply slice_app. }
  rewrite Ebody. unfold reassembled.
  assert (Efirst : firstn (length pre + 15) upper = pre ++ UNRELEASED_HEADING).
  { rewrite L15. unfold upper.
    replace (pre ++ UNRELEASED_HEADING ++ mid ++ "## [" ++ pv ++ "]" ++ tail)
      with ((pre ++ UNRELEASED_HEADING) ++ mid ++ "## [" ++ pv ++ "]" ++ tail)
      by (now rewrite <- !app_assoc).
    apply firstn_length_app. }
  assert (Eskip : skipn (length (pre ++ UNRELEASED_HEADING ++ mid)) upper
                  = "## [" ++ pv ++ "]" ++ tail).
  { unfold upper.
    replace (pre ++ UNRELEASED_HEADING ++ mid ++ "## [" ++ pv ++ "]" ++ tail)
      with ((pre ++ UNRELEASED_HEADING ++ mid) ++ "## [" ++ pv ++ "]" ++ tail)
      by (now rewrite <- !app_assoc).
    apply skipn_length_app. }
  rewrite Efirst, Eskip.
  set (X := new_version ++ "] " ++ utc_today w ++ NL ++ NL
              ++ merged_body new_version pr_number (Py.strip mid)
              ++ NL ++ NL ++ "## [" ++ pv ++ "]" ++ tail).
  replace ((pre ++ UNRELEASED_HEADING) ++ NL ++ NL
             ++ new_version_section new_version pr_number (utc_today w)
                  (Py.strip mid)
             ++ NL ++ NL ++ "## [" ++ pv ++ "]" ++ tail)
    with (pre ++ UNRELEASED_HEADING ++ NL ++ NL ++ "## [" ++ X)
    by (unfold X, new_version_section; now rewrite <- !app_assoc).
  rewrite (reset_sub_id pre X (heading_first pre Hb Hno)).
  do 3 f_equal. unfold X, new_version_section. now rewrite <- !app_assoc.
Qed.

(** X1. A run over a well-formed changelog.  The changelog is an
    introduction [pre] of whole lines that does not hold the text
    [## [Unreleased]], the Unreleased heading, the text [mid] of the
    Unreleased section up to a line feed, the heading [## [pv]] of the
    previous release (the first release heading below the Unreleased one),
    the rest [tail] of the earlier releases up to a line feed, and the link
    region [bottom], which begins with [[Unreleased]:] and is the first
    line to do so.  With NEW_VERSION well-formed, PR_NUMBER set and no
    heading of NEW_VERSION in the file, the run returns after writing the
    introduction, an empty Unreleased section, the section of the new
    release (its heading with the date, then the merged body), a blank
    line, the earlier releases as they were and the link region as
    [update_link_definitions] returns it, and it prints the success
    message. *)
Theorem update_changelog_release (w : world)
    (new_version pr_number pre mid pv tail bottom : text) :
  let upper := pre ++ UNRELEASED_HEADING ++ mid ++ "## [" ++ pv ++ "]" ++ tail in
  let path := changelog_path_of w in
  configured w new_version pr_number ->
  files w path = Some (upper ++ bottom) ->
  ~ occurs (version_heading new_version) (upper ++ bottom) ->
  (exists q, tail = q ++ NL) ->
  starts_with "[Unreleased]:" bottom ->
  (forall l, In l (lines upper) -> ~ starts_with "[Unreleased]:" l) ->
  (pre = [] \/ exists pre', pre = pre' ++ NL) ->
  ~ occurs UNRELEASED_HEADING pre ->
  (exists q, mid = q ++ NL) ->
  all_of (fun x => accepts FL_M label_char x) pv ->
  (forall j pv',
     length (pre ++ UNRELEASED_HEADING) <= j ->
     j < length (pre ++ UNRELEASED_HEADING ++ mid) ->
     ~ release_heading_at upper j pv') ->
  exists links,
    update_link_definitions bottom new_version pv = Some links /\
    update_changelog w
    = (Ret tt,
       printed
         (written w path
            (pre ++ UNRELEASED_HEADING ++ NL ++ NL
               ++ new_version_section new_version pr_number (utc_today w)
                    (Py.strip mid)
               ++ NL ++ NL ++ "## [" ++ pv ++ "]" ++ tail ++ links))
         (msg_updated new_version path)).
Proof. apply update_changelog_release_eq. Qed.

Lemma update_changelog_release_witness :
  exists links,
    update_link_definitions
      ("[Unreleased]: https://example.org/1.0.0-2.0.0...main" ++ NL)
      "1.2.3-4.5.6" "1.0.0-2.0.0" = Some links /\
    update_changelog world_with_entry
    = (Ret tt,
       printed
         (written world_with_entry "CHANGES.md"
            (("# Changelog" ++ NL ++ NL) ++ UNRELEASED_HEADING ++ NL ++ NL
               ++ new_version_section "1.2.3-4.5.6" "42" "2026-01-02"
                    (Py.strip (NL ++ NL ++ "### Changes" ++ NL ++ NL
                                 ++ "* foo" ++ NL ++ NL))
               ++ NL ++ NL ++ "## [" ++ "1.0.0-2.0.0" ++ "]"
               ++ (" 2024-01-01" ++ NL ++ NL) ++ links))
         (msg_updated "1.2.3-4.5.6" "CHANGES.md")).
Proof.
  apply (update_changelog_release world_with_entry "1.2.3-4.5.6" "42"
           ("# Changelog" ++ NL ++ NL)
           (NL ++ NL ++ "### Changes" ++ NL ++ NL ++ "* foo" ++ NL ++ NL)
           "1.0.0-2.0.0" (" 2024-01-01" ++ NL ++ NL)
           ("[Unreleased]: https://example.org/1.0.0-2.0.0...main" ++ NL)).
  - split; [reflexivity|]. split; [reflexivity|].
    split; [discriminate | vm_compute; reflexivity].
  - reflexivity.
  - apply cut_at_occurs. vm_compute. reflexivity.
  - exists (" 2024-01-01" ++ NL). reflexivity.
  - exists (" https://example.org/1.0.0-2.0.0...main" ++ NL). reflexivity.
  - apply no_line_starts. vm_compute. reflexivity.
  - right. exists ("# Changelog" ++ NL). reflexivity.
  - apply cut_at_occurs. vm_compute. reflexivity.
  - exists (NL ++ NL ++ "### Changes" ++ NL ++ NL ++ "* foo" ++ NL). reflexivity.
  - split; [discriminate | repeat constructor].
  - intros j pv' Hj Hk.
    change (("# Changelog" ++ NL ++ NL) ++ UNRELEASED_HEADING
              ++ (NL ++ NL ++ "### Changes" ++ NL ++ NL ++ "* foo" ++ NL ++ NL)
              ++ "## [" ++ "1.0.0-2.0.0" ++ "]" ++ " 2024-01-01" ++ NL ++ NL)
      with (("# Changelog" ++ NL ++ NL ++ "## [Unreleased]")
              ++ (NL ++ NL ++ "### Changes" ++ NL ++ NL ++ "* foo" ++ NL ++ NL)
              ++ "## [1.0.0-2.0.0] 2024-01-01" ++ NL ++ NL).
    apply no_release_heading_in.
    + exists (NL ++ NL ++ "### Changes" ++ NL ++ NL ++ "* foo" ++ NL). reflexivity.
    + apply no_line_starts. vm_compute. reflexivity.
    + exact Hj.
    + exact Hk.
Defined.

(** ** Version identifiers *)

(** X8. [validate_version] accepts exactly the texts
    [<digits-and-dots>-<digits-and-dots>], optionally followed by
    [-<lowercase-letters>.<digits>], and those texts followed by one line
    feed; [None] and every other text, the empty one included, are
    rejected. *)
Theorem validate_version_exact (version : option text) :
  validate_version version = true <->
  exists v, version = Some v /\
    (version_shape v \/ exists v', version_shape v' /\ v = v' ++ NL).
Proof.
  destruct version as [v|].
  - rewrite validate_version_accepts. split.
    + intros H. now exists v.
    + intros (v0 & E & H). inversion E. now subst.
  - split; [discriminate|]. intros (v & E & _). discriminate.
Qed.

Lemma extract_after_hyphen (semver rest : text) :
  Py.contains_char "-" semver = false ->
  extract_nearcore_version (semver ++ "-" ++ rest) = rest.
Proof.
  intros H. unfold extract_nearcore_version.
  rewrite contains_char_app. cbn [list_ascii_of_string app].
  replace (Py.contains_char "-" ("-"%char :: rest)) with true by reflexivity.
  rewrite orb_true_r, split_at_sep by exact H. cbn [tl].
  apply (join_split "-").
Qed.

Lemma digits_dots_no_hyphen (a : text) :
  all_of digit_or_dot_char a -> Py.contains_char "-" a = false.
Proof.
  intros H. apply contains_char_false.
  eapply all_of_not_In; [exact H | reflexivity].
Qed.

(** X9. For a version that [validate_version] accepts,
    [extract_nearcore_version] returns what follows its first group of
    digits and dots and the hyphen: the version is that group, a hyphen and
    the nearcore version, which is not empty and begins with a digit or a
    dot. *)
Theorem validated_nearcore_version (v : text) :
  validate_version (Some v) = true ->
  exists semver c rest,
    all_of digit_or_dot_char semver /\
    v = semver ++ "-" ++ extract_nearcore_version v /\
    extract_nearcore_version v = c :: rest /\
    digit_or_dot_char c = true.
Proof.
  intros H. apply validate_version_accepts in H.
  assert (Hs : exists a b t, all_of digit_or_dot_char a
                 /\ all_of digit_or_dot_char b /\ v = a ++ "-" ++ b ++ t).
  { destruct H as [H|(v' & H & ->)];
      destruct H as (a & b & Ha & Hb & [->|(l & d & _ & _ & ->)]).
    - exists a, b, []. now rewrite app_nil_r.
    - exists a, b, ("-" ++ l ++ "." ++ d). now split; [|split].
    - exists a, b, NL. split; [exact Ha|]. split; [exact Hb|].
      now rewrite <- !app_assoc.
    - exists a, b, ("-" ++ l ++ "." ++ d ++ NL).
      split; [exact Ha|]. split; [exact Hb|]. now rewrite <- !app_assoc. }
  destruct Hs as (a & b & t & Ha & Hb & ->).
  rewrite (extract_after_hyphen a (b ++ t) (digits_dots_no_hyphen a Ha)).
  destruct Hb as [Nb Fb]. destruct b as [|c b]; [now elim Nb|].
  exists a, c, (b ++ t). split; [exact Ha|]. split; [reflexivity|].
  split; [reflexivity|]. now inversion Fb.
Qed.

Lemma validated_nearcore_version_witness :
  exists semver c rest,
    all_of digit_or_dot_char semver /\
    list_ascii_of_string "1.2.3-4.5.6-rc.1"
    = semver ++ "-" ++ extract_nearcore_version "1.2.3-4.5.6-rc.1" /\
    extract_nearcore_version "1.2.3-4.5.6-rc.1" = c :: rest /\
    digit_or_dot_char c = true.
Proof.
  apply (validated_nearcore_version "1.2.3-4.5.6-rc.1"). vm_compute. reflexivity.
Defined.

(** ** The checks of the environment *)

(** X5. The checks of the environment, in their order.  A NEW_VERSION that
    is not empty and not well-formed is reported with the message that
    quotes it, whether PR_NUMBER is set or not; a NEW_VERSION that is unset
    or empty, and a well-formed NEW_VERSION with PR_NUMBER unset or empty,
    are reported with the message that both variables must be set.  Each
    time the process exits with status 1 before any file is looked at. *)
Theorem update_changelog_configuration (w : world) :
  (forall v, NEW_VERSION (env w) = Some v -> v <> [] ->
     validate_version (Some v) = false ->
     update_changelog w = (Exit 1, printed w (msg_invalid v)))
  /\
  (NEW_VERSION (env w) = None \/ NEW_VERSION (env w) = Some [] ->
   update_changelog w = (Exit 1, printed w msg_unset))
  /\
  (validate_version (NEW_VERSION (env w)) = true ->
   PR_NUMBER (env w) = None \/ PR_NUMBER (env w) = Some [] ->
   update_changelog w = (Exit 1, printed w msg_unset)).
Proof.
  unfold update_changelog. split; [|split].
  - intros v -> Nv Hv. rewrite Hv. cbn [Py.truthy_opt fmt].
    now rewrite (proj2 (truthy_not_nil v) Nv).
  - intros [->| ->]; reflexivity.
  - intros Hv Hp. rewrite Hv. cbn [negb]. rewrite andb_false_r.
    destruct (Py.truthy_opt (NEW_VERSION (env w))); cbn [negb orb];
      [|reflexivity].
    destruct Hp as [->| ->]; reflexivity.
Qed.

Lemma update_changelog_configuration_witness :
  let w := {| env := {| NEW_VERSION := Some (list_ascii_of_string "v1.2.3");
                        PR_NUMBER := None; CHANGELOG_PATH := None |};
              files := fun _ => None; utc_today := "2026-01-02";
              stdout := [] |} in
  update_changelog w = (Exit 1, printed w (msg_invalid "v1.2.3")).
Proof.
  cbv zeta.
  apply (proj1 (update_changelog_configuration
           {| env := {| NEW_VERSION := Some (list_ascii_of_string "v1.2.3");
                        PR_NUMBER := None; CHANGELOG_PATH := None |};
              files := fun _ => None; utc_today := "2026-01-02";
              stdout := [] |}) "v1.2.3").
  - reflexivity.
  - discriminate.
  - vm_compute. reflexivity.
Defined.

(** ** What a run leaves alone *)

Lemma text_eqb_neq (a b : text) : a <> b -> text_eqb a b = false.
Proof. unfold text_eqb. destruct (list_eq_dec ascii_dec a b); congruence. Qed.

(** X4. What a run leaves alone.  Whatever the world, a run prints exactly
    one line, leaves the environment as it was and changes no file but the
    changelog (the path in CHANGELOG_PATH, or [CHANGES.md] when that is
    unset or empty); it never creates the changelog when it is missing and
    never removes it. *)
Theorem update_changelog_frame (w : world) :
  let w' := snd (update_changelog w) in
  let path := changelog_path_of w in
  env w' = env w /\ utc_today w' = utc_today w
  /\ (exists line, stdout w' = stdout w ++ [line])
  /\ (forall p, p <> path -> files w' p = files w p)
  /\ (files w path = None -> files w' path = None)
  /\ (forall content, files w path = Some content ->
        exists content', files w' path = Some content').
Proof.
  cbv zeta.
  destruct (update_changelog_cases w)
    as [(msg & E & _)|[(nv & pr & content & _ & _ & _ & E)
                      |(nv & pr & doc & _ & Hrel & E)]];
    rewrite E; cbn [snd printed written env utc_today stdout files].
  - repeat split; try reflexivity; try (now eexists); auto.
    intros content Hc. now exists content.
  - repeat split; try reflexivity; try (now eexists); auto.
    intros c Hc. now exists c.
  - destruct Hrel as (content & upper & bottom & pre & mid & pv & tail & head
                      & links & Hf & _).
    repeat split; try reflexivity; try (now eexists).
    + intros p Hp. now rewrite (text_eqb_neq _ _ Hp).
    + intros Hn. rewrite Hn in Hf. discriminate.
    + intros c _. rewrite text_eqb_refl. now eexists.
Qed.

(** ** What a run writes *)



(** ** The merge, whatever the body *)

Lemma take_while_Forall (p : ascii -> bool) (s : text) :
  Forall (fun c => p c = true) (take_while p s).
Proof.
  induction s as [|c s IH]; cbn; [constructor|].
  destruct (p c) eqn:E; [now constructor | constructor].
Qed.

Lemma lstrip_split (s : text) :
  s = take_while Py.isspace s ++ Py.lstrip s.
Proof. symmetry. apply take_drop_while. Qed.

(** X10. [create_new_entry] only inserts.  Whatever the body, the result
    is the body with the bullet put in, after a blank line or after a fresh
    [### Changes] heading and a blank line, and followed by nothing, one
    line feed or a blank line; the only characters of the body that are
    not kept are white space at the place of the insertion. *)
Theorem create_new_entry_keeps_text (body new_entry : text) :
  exists kept_before dropped kept_after inserted_before inserted_after,
    body = kept_before ++ dropped ++ kept_after /\
    Forall (fun c => Py.isspace c = true) dropped /\
    create_new_entry body new_entry
    = kept_before ++ inserted_before ++ new_entry ++ inserted_after
        ++ kept_after /\
    (inserted_before = NL ++ NL \/ inserted_before = "### Changes" ++ NL ++ NL) /\
    (inserted_after = [] \/ inserted_after = NL \/ inserted_after = NL ++ NL).
Proof.
  unfold create_new_entry.
  destruct body as [|c body'] eqn:Eb; cbn [Py.truthy negb].
  - exists [], [], [], ("### Changes" ++ NL ++ NL), [].
    split; [reflexivity|]. split; [constructor|].
    split; [now rewrite !app_nil_r|]. split; [now right | now left].
  - rewrite <- Eb.
    destruct (search FL_M CHANGES_SECTION_PATTERN body) as [m|].
    + exists (firstn (m_end m) body),
             (take_while Py.isspace (skipn (m_end m) body)),
             (Py.lstrip (skipn (m_end m) body)), (NL ++ NL), NL.
      split; [rewrite <- lstrip_split; symmetry; apply firstn_skipn|].
      split; [apply take_while_Forall|].
      split; [now rewrite <- !app_assoc|]. split; [now left | right; now left].
    + exists [], [], body, ("### Changes" ++ NL ++ NL), (NL ++ NL).
      split; [reflexivity|]. split; [constructor|].
      split; [now rewrite <- !app_assoc|]. split; [now right | right; now right].
Qed.

Lemma no_changes_text (body : text) :
  search FL_M CHANGES_SECTION_PATTERN body = None ->
  forall i, ~ changes_text_at body i.
Proof.
  intros E i (pre & hashes & blanks & post & -> & _ & Hh & Hb).
  pose proof (search_None _ _ _ E pre _ eq_refl) as Ha.
  assert (Hm : exists e, attempt FL_M CHANGES_SECTION_PATTERN false
                 (here (rev pre) (hashes ++ blanks ++ "Changes" ++ post)) = Some e).
  { apply attempt_iff_matches; [reflexivity|].
    apply changes_matches. now exists hashes, blanks, post. }
  destruct Hm as [e He]. congruence.
Qed.

(** X11. When the text [#...# <white space> Changes] occurs nowhere in
    the body, [create_new_entry] returns a fresh [### Changes] heading, a
    blank line and the bullet, followed for a body that is not empty by a
    blank line and the body as it is. *)
Theorem create_new_entry_fresh_heading (body new_entry : text) :
  (forall i, ~ changes_text_at body i) ->
  create_new_entry body new_entry
  = "### Changes" ++ NL ++ NL ++ new_entry
      ++ (if is_nil body then [] else NL ++ NL ++ body).
Proof.
  intros Hno. destruct body as [|c body'] eqn:Eb.
  - rewrite create_new_entry_empty. cbn [is_nil]. now rewrite app_nil_r.
  - rewrite <- Eb in *. rewrite create_new_entry_new_heading;
      [now rewrite Eb | now rewrite Eb | exact Hno].
Qed.

Lemma create_new_entry_fresh_heading_witness :
  create_new_entry "#### Fixes" "* new"
  = "### Changes" ++ NL ++ NL ++ "* new" ++ NL ++ NL ++ "#### Fixes".
Proof.
  apply (create_new_entry_fresh_heading "#### Fixes" "* new").
  apply no_changes_text. vm_compute. reflexivity.
Defined.

(** ** The release section of an empty Unreleased section *)

Lemma drop_while_all (p : ascii -> bool) (s : text) :
  Forall (fun c => p c = true) s -> Py.drop_while p s = [].
Proof.
  induction 1 as [|c s Hc _ IH]; [reflexivity|]. cbn. now rewrite Hc.
Qed.

Lemma strip_blank (s : text) :
  Forall (fun c => Py.isspace c = true) s -> Py.strip s = [].
Proof.
  intros H. unfold Py.strip, Py.rstrip, Py.lstrip.
  rewrite (drop_while_all Py.isspace (rev s)); [reflexivity|].
  apply Forall_rev. exact H.
Qed.

Lemma first_char_split (c : ascii) (s : text) :
  Py.contains_char c s = true ->
  exists a rest, s = a ++ c :: rest /\ Py.contains_char c a = false.
Proof.
  unfold Py.contains_char.
  induction s as [|x s IH]; [discriminate|]. cbn [existsb]. intros H.
  destruct (Ascii.eqb_spec c x) as [->|N].
  - now exists [], s.
  - cbn [orb] in H. destruct (IH H) as (a & rest & -> & Ha).
    exists (x :: a), rest. split; [reflexivity|]. cbn [existsb].
    rewrite Ha. now rewrite (proj2 (Ascii.eqb_neq c x) N).
Qed.

Lemma extract_nearcore_version_incl (v : text) (x : ascii) :
  In x (extract_nearcore_version v) -> In x v.
Proof.
  destruct (Py.contains_char "-" v) eqn:E.
  - destruct (first_char_split _ _ E) as (a & rest & -> & Ha).
    change (a ++ "-"%char :: rest) with (a ++ "-" ++ rest).
    rewrite (extract_after_hyphen a rest Ha).
    intros H. apply in_or_app. right. now right.
  - unfold extract_nearcore_version. now rewrite E.
Qed.

Lemma validated_no_bracket (v : text) :
  validate_version (Some v) = true -> ~ In "["%char v.
Proof.
  intros H. apply validate_version_accepts in H.
  destruct H as [H|(v' & H & ->)].
  - apply version_shape_not_In; [exact H | reflexivity | reflexivity | discriminate].
  - apply not_In_app. split.
    + apply version_shape_not_In; [exact H | reflexivity | reflexivity | discriminate].
    + cbn. intros [E|[]]. discriminate.
Qed.

Lemma split_at_char_unique (c : ascii) (T S pre S' : text) :
  ~ In c T -> ~ In c S -> T ++ c :: S = pre ++ c :: S' -> pre = T /\ S = S'.
Proof.
  revert pre. induction T as [|t T IH]; intros pre HT HS E.
  - destruct pre as [|x pre]; cbn in E.
    + inversion E. now split.
    + inversion E; subst. exfalso. apply HS. apply in_or_app. right. now left.
  - destruct pre as [|x pre]; cbn in E.
    + inversion E; subst. exfalso. apply HT. now left.
    + inversion E; subst.
      destruct (IH pre) as [-> ->]; [|exact HS|assumption|now split].
      intros Hin. apply HT. now right.
Qed.

(** The fresh heading and the bullet hold no link reference. *)
Lemma fresh_entry_no_link (X pr : text) :
  ~ In "["%char X -> all_of Py.isdigit pr ->
  ~ pr_link_in ("### Changes" ++ NL ++ NL ++ new_entry_line X pr).
Proof.
  intros HX Hpr (pre & n1 & n2 & post & E & Hn1 & _).
  unfold new_entry_line in E.
  replace ("### Changes" ++ NL ++ NL ++ "* chore: bump nearcore to " ++ X
             ++ " in [#" ++ pr ++ "]")
    with (("### Changes" ++ NL ++ NL ++ "* chore: bump nearcore to " ++ X ++ " in ")
            ++ "["%char :: ("#" ++ pr ++ "]")) in E
    by (now rewrite <- !app_assoc).
  change (pre ++ "[#" ++ n1 ++ "]: " ++ REPO_URL ++ "/pull/" ++ n2 ++ post)
    with (pre ++ "["%char :: ("#" ++ n1 ++ "]: " ++ REPO_URL ++ "/pull/" ++ n2 ++ post))
    in E.
  apply split_at_char_unique in E.
  - destruct E as [_ E]. cbn [list_ascii_of_string app] in E.
    inversion E as [E1]. clear E.
    destruct Hpr as [_ Fp]. destruct Hn1 as [_ Fn].
    pose proof (take_while_all Py.isdigit pr ("]") Fp eq_refl) as [_ D1].
    pose proof (take_while_all Py.isdigit n1
                  ("]: " ++ REPO_URL ++ "/pull/" ++ n2 ++ post) Fn eq_refl)
      as [_ D2].
    assert (E2 : pr ++ "]" = n1 ++ "]: " ++ REPO_URL ++ "/pull/" ++ n2 ++ post)
      by exact E1.
    rewrite E2 in D1. rewrite D2 in D1. discriminate.
  - rewrite !not_In_app. repeat split; try assumption;
      apply text_not_In; reflexivity.
  - rewrite !not_In_app. repeat split;
      try (apply text_not_In; reflexivity).
    eapply all_of_not_In; [exact Hpr | reflexivity].
Qed.

(** X13. The section of a release made from an Unreleased section that
    holds nothing but white space: for a well-formed version and a pull
    request number made of digits it is the heading with the date, a blank
    line, [### Changes], a blank line, the bullet, a blank line and the
    link reference of the pull request. *)
Theorem new_version_section_empty (new_version pr_number date mid : text) :
  validate_version (Some new_version) = true ->
  all_of Py.isdigit pr_number ->
  Forall (fun c => Py.isspace c = true) mid ->
  new_version_section new_version pr_number date (Py.strip mid)
  = "## [" ++ new_version ++ "] " ++ date ++ NL ++ NL
      ++ "### Changes" ++ NL ++ NL
      ++ "* chore: bump nearcore to " ++ extract_nearcore_version new_version
      ++ " in [#" ++ pr_number ++ "]" ++ NL ++ NL
      ++ "[#" ++ pr_number ++ "]: " ++ REPO_URL ++ "/pull/" ++ pr_number.
Proof.
  intros Hv Hpr Hmid. rewrite (strip_blank mid Hmid).
  unfold new_version_section, merged_body.
  rewrite create_new_entry_empty, add_pr_link_eq.
  assert (Hno : ~ pr_link_in ("### Changes" ++ NL ++ NL
                   ++ new_entry_line (extract_nearcore_version new_version)
                        pr_number)).
  { apply fresh_entry_no_link; [|exact Hpr].
    intros Hin. apply (validated_no_bracket _ Hv).
    now apply extract_nearcore_version_incl. }
  destruct (is_some (search FL_0 PR_LINK_PATTERN _)) eqn:Es.
  - apply pr_link_search in Es. contradiction.
  - unfold new_entry_line, pr_link_line. now rewrite <- !app_assoc.
Qed.

Lemma new_version_section_empty_witness :
  new_version_section "1.2.3-4.5.6" "42" "2026-01-02" (Py.strip (NL ++ NL))
  = "## [" ++ "1.2.3-4.5.6" ++ "] " ++ "2026-01-02" ++ NL ++ NL
      ++ "### Changes" ++ NL ++ NL
      ++ "* chore: bump nearcore to " ++ extract_nearcore_version "1.2.3-4.5.6"
      ++ " in [#" ++ "42" ++ "]" ++ NL ++ NL
      ++ "[#" ++ "42" ++ "]: " ++ REPO_URL ++ "/pull/" ++ "42".
Proof.
  apply (new_version_section_empty "1.2.3-4.5.6" "42" "2026-01-02" (NL ++ NL)).
  - vm_compute. reflexivity.
  - split; [discriminate | repeat constructor].
  - repeat constructor.
Defined.

(** ** The link region after the update *)

Lemma starts_with_app (p s t : text) : starts_with p s -> starts_with p (s ++ t).
Proof. intros [r ->]. exists (r ++ t). now rewrite app_assoc. Qed.

Lemma join_head (sep x : text) (rest : list text) :
  exists t, Py.join sep (x :: rest) = x ++ t.
Proof.
  destruct rest as [|y rest].
  - exists []. cbn. now rewrite app_nil_r.
  - eexists. apply join_cons.
Qed.

Lemma insert_lines_head (new x : text) (rest : list text) :
  exists rest', insert_lines new (x :: rest) = x :: rest'.
Proof.
  destruct rest as [|y rest].
  - now exists [].
  - rewrite insert_lines_cons.
    destruct (is_some (cut_at UNRELEASED_LABEL x)); eexists; reflexivity.
Qed.

Lemma lines_head (p rest : text) :
  no_LF p -> exists b ls, lines (p ++ rest) = (p ++ b) :: ls.
Proof.
  intros Hp. destruct (cut_first_line rest) as (b & post2 & -> & Hb & Hpost).
  assert (Hpb : no_LF (p ++ b)) by (apply no_LF_app; now split).
  destruct Hpost as [->|[q ->]].
  - exists b, []. rewrite app_nil_r. now apply lines_no_LF.
  - exists b, (lines q). rewrite app_assoc, lines_app_LF.
    now rewrite (lines_no_LF _ Hpb).
Qed.

(** A line that begins with [[Unreleased]:] still does after its
    [[Unreleased]: ...] part is replaced. *)
Lemma rewrite_line_start (nv b : text) :
  starts_with "[Unreleased]:"
    (rewrite_line (unreleased_link nv) ("[Unreleased]:" ++ b)).
Proof.
  destruct (cut_at UNRELEASED_LABEL ("[Unreleased]:" ++ b)) as [[a b']|] eqn:C.
  - rewrite (rewrite_line_Some _ _ _ _ C).
    apply cut_at_Some in C. destruct C as [E _].
    destruct a as [|c a].
    + cbn [app]. eexists. reflexivity.
    + apply starts_with_app.
      destruct (Nat.le_gt_cases 13 (length (c :: a))) as [Le|Gt].
      * destruct (app_split_le _ _ _ _ E Le) as (t & -> & _). now exists t.
      * exfalso. symmetry in E.
        destruct (app_split_lt _ _ _ _ E Gt) as (t & Et & E2 & N).
        cbn [list_ascii_of_string app] in Et. inversion Et as [[Ec Ea]].
        assert (Hin : In "["%char (a ++ t)).
        { apply in_or_app. right.
          destruct t as [|x t]; cbn in E2; [now elim N|].
          inversion E2. now left. }
        rewrite <- Ea in Hin. revert Hin. apply text_not_In. reflexivity.
  - rewrite (rewrite_line_None _ _ C). now exists b.
Qed.

Lemma links_keep_start (region new_version prev_version : text) :
  no_LF new_version -> no_backslash new_version -> no_backslash prev_version ->
  starts_with "[Unreleased]:" region ->
  exists links,
    update_link_definitions region new_version prev_version = Some links /\
    starts_with "[Unreleased]:" links.
Proof.
  intros Hlf Hn Hp [rest ->].
  rewrite (update_link_definitions_lines _ _ _ Hlf Hn Hp).
  eexists. split; [reflexivity|].
  destruct (lines_head "[Unreleased]:" rest) as (b & ls & ->);
    [apply text_no_LF; reflexivity|].
  unfold updated_lines. cbn [map].
  destruct (insert_lines_head (version_link new_version prev_version)
              (rewrite_line (unreleased_link new_version) ("[Unreleased]:" ++ b))
              (map (rewrite_line (unreleased_link new_version)) ls))
    as [rest' ->].
  destruct (join_head NL
              (rewrite_line (unreleased_link new_version) ("[Unreleased]:" ++ b))
              rest') as [t ->].
  apply starts_with_app, rewrite_line_start.
Qed.

Lemma prefix_in_block (p u2 v r : text) :
  no_LF p -> (exists q, u2 = q ++ NL) -> u2 ++ v = p ++ r ->
  exists t, u2 = p ++ t.
Proof.
  intros Hp [q ->] E. rewrite <- app_assoc in E. cbn [NL app] in E.
  destruct (cut_first_line q) as (b & post2 & -> & Hb & Hpost).
  destruct Hpost as [->|[x ->]].
  - rewrite app_nil_r in *. symmetry in E.
    destruct (prefix_before_LF _ _ _ _ Hp E) as [b' ->].
    exists (b' ++ NL). now rewrite app_assoc.
  - rewrite <- app_assoc in E. cbn [app] in E. symmetry in E.
    destruct (prefix_before_LF _ _ _ _ Hp E) as [b' ->].
    exists (b' ++ LF :: x ++ NL). now rewrite <- !app_assoc.
Qed.

(** X14. The link update keeps the split.  When
    [split_changelog_content] splits a document into [upper] and [bottom],
    [update_link_definitions] returns a link region for [bottom] (with a
    new version without line feed or backslash and a previous version
    without backslash), and the document made of [upper] and that region
    splits at the same place. *)
Theorem update_link_definitions_keeps_split
    (upper bottom new_version prev_version : text) (w : world) :
  no_LF new_version -> no_backslash new_version -> no_backslash prev_version ->
  split_changelog_content (upper ++ bottom) w = (Ret (upper, bottom), w) ->
  exists links,
    update_link_definitions bottom new_version prev_version = Some links /\
    split_changelog_content (upper ++ links) w = (Ret (upper, links), w).
Proof.
  intros Hlf Hn Hp Hs.
  destruct (split_changelog_content_found _ _ _ _ _ Hs) as (_ & _ & Hl & Hmin).
  apply line_at_split in Hl. destruct Hl as [Hb Hstart].
  destruct (links_keep_start bottom new_version prev_version Hlf Hn Hp Hstart)
    as (links & El & [rest Hr]).
  exists links. split; [exact El|].
  assert (Ha : attempt FL_M link_section_pattern false (here (rev upper) links)
               = Some (here (rev upper) links)).
  { rewrite attempt_link_section, (proj2 (at_bol_M_rev upper links) Hb), Hr.
    now rewrite strip_prefix_app. }
  unfold split_changelog_content. rewrite (search_at _ _ _ _ _ Ha).
  - cbn [m_start]. now rewrite firstn_length_app, skipn_length_app.
  - intros u1 u2 E N. rewrite attempt_link_section.
    destruct (at_bol FL_M (here (rev u1) (u2 ++ links))) eqn:B1; [|reflexivity].
    apply at_bol_M_rev in B1.
    destruct (strip_prefix "[Unreleased]:" (u2 ++ links)) as [r|] eqn:S;
      [|reflexivity].
    exfalso. apply strip_prefix_Some in S.
    assert (Hq : exists q, u2 = q ++ NL).
    { destruct Hb as [->|[q Hq]]; [destruct u1, u2; try discriminate; now elim N|].
      rewrite E in Hq. exact (ends_with_LF_tail _ _ _ Hq N). }
    destruct (prefix_in_block "[Unreleased]:" u2 links r) as [t Ht];
      [apply text_no_LF; reflexivity | exact Hq | exact S |].
    assert (Hk : line_at "[Unreleased]:" (upper ++ bottom) (length u1)).
    { rewrite E, <- app_assoc. apply line_at_split. split; [exact B1|].
      exists (t ++ bottom). rewrite Ht. now rewrite <- app_assoc. }
    apply Hmin in Hk. rewrite E, length_app in Hk.
    destruct u2; [now elim N | cbn in Hk; lia].
Qed.

Lemma update_link_definitions_keeps_split_witness :
  exists links,
    update_link_definitions
      ("[Unreleased]: https://example.org/1.0.0-2.0.0...main" ++ NL)
      "1.2.3-4.5.6" "1.0.0-2.0.0" = Some links /\
    split_changelog_content (sample_upper ++ links) sample_world
    = (Ret (sample_upper, links), sample_world).
Proof.
  apply (update_link_definitions_keeps_split sample_upper
           ("[Unreleased]: https://example.org/1.0.0-2.0.0...main" ++ NL)
           "1.2.3-4.5.6" "1.0.0-2.0.0" sample_world).
  - apply text_no_LF. vm_compute. reflexivity.
  - apply text_not_In. vm_compute. reflexivity.
  - apply text_not_In. vm_compute. reflexivity.
  - vm_compute. reflexivity.
Defined.

(** ** Two releases in a row *)

Lemma version_shape_label (v : text) :
  version_shape v -> all_of (fun x => accepts FL_M label_char x) v.
Proof.
  assert (D : forall s, all_of digit_or_dot_char s ->
                Forall (fun x => accepts FL_M label_char x = true) s).
  { intros s [_ F]. eapply Forall_impl; [|exact F].
    intros c Hc. cbn. unfold digit_or_dot_char in Hc.
    apply orb_true_iff in Hc. destruct Hc as [-> | ->]; cbn;
      now rewrite ?orb_true_r. }
  assert (L : forall s, all_of Py.islower_az s ->
                Forall (fun x => accepts FL_M label_char x = true) s).
  { intros s [_ F]. eapply Forall_impl; [|exact F].
    intros c Hc. cbn. rewrite Hc. now rewrite !orb_true_r. }
  assert (G : forall s, all_of Py.isdigit s ->
                Forall (fun x => accepts FL_M label_char x = true) s).
  { intros s [_ F]. eapply Forall_impl; [|exact F].
    intros c Hc. cbn. now rewrite Hc. }
  intros (a & b & Ha & Hb & Hv). split.
  - destruct Ha as [Na _].
    destruct Hv as [->|(l & d & _ & _ & ->)]; destruct a; try discriminate;
      now elim Na.
  - destruct Hv as [->|(l & d & Hl & Hd & ->)];
      repeat (apply Forall_app; split); auto; repeat constructor.
Qed.

Lemma occurs_nil (p : text) : p <> [] -> ~ occurs p [].
Proof.
  intros N (i & pre & post & E & _).
  destruct pre; [destruct p; [now elim N | discriminate] | discriminate].
Qed.

Lemma occurs_inside (p a l b : text) : occurs p l -> occurs p (a ++ l ++ b).
Proof.
  intros (i & pre & post & -> & _).
  exists (length (a ++ pre)), (a ++ pre), (post ++ b). split; [|reflexivity].
  now rewrite <- !app_assoc.
Qed.

Lemma occurs_app_LF (p a b : text) :
  no_LF p -> occurs p (a ++ LF :: b) -> occurs p a \/ occurs p b.
Proof.
  intros Hp (i & pre & post & E & _).
  destruct (Nat.le_gt_cases (length (pre ++ p)) (length a)) as [Le|Gt].
  - left. rewrite app_assoc in E. symmetry in E.
    destruct (app_split_le _ _ _ _ E Le) as (t & -> & _).
    exists (length pre), pre, t. split; [now rewrite <- app_assoc | reflexivity].
  - destruct (Nat.le_gt_cases (length pre) (length a)) as [Le2|Gt2].
    + exfalso. symmetry in E.
      destruct (app_split_le _ _ _ _ E Le2) as (t & -> & E2).
      rewrite !length_app in Gt.
      destruct (app_split_lt t (LF :: b) p post) as (u & Eu & E3 & N);
        [now symmetry | lia |].
      apply Hp. rewrite Eu. apply in_or_app. right.
      destruct u as [|x u]; [now elim N|]. cbn in E3. inversion E3. now left.
    + right.
      destruct (app_split_lt _ _ _ _ E Gt2) as (u & -> & E2 & N).
      destruct u as [|x u]; [now elim N|]. cbn in E2. inversion E2; subst.
      exists (length u), u, post. now split.
Qed.

(** A text with a single bracket that opens something else than
    [[Unreleased]:]. *)
Lemma single_bracket (T S : text) :
  ~ In "["%char T -> ~ In "["%char S ->
  strip_prefix "Unreleased]:" S = None ->
  ~ occurs "[Unreleased]:" (T ++ "["%char :: S).
Proof.
  intros HT HS Hs (i & pre & post & E & _).
  change (pre ++ "[Unreleased]:" ++ post)
    with (pre ++ "["%char :: ("Unreleased]:" ++ post)) in E.
  apply split_at_char_unique in E; [|exact HT|exact HS].
  destruct E as [_ ->]. now rewrite strip_prefix_app in Hs.
Qed.

Lemma bullet_no_link_label (X pr : text) :
  ~ In "["%char X -> all_of Py.isdigit pr ->
  ~ occurs "[Unreleased]:" (new_entry_line X pr).
Proof.
  intros HX Hpr. unfold new_entry_line.
  replace ("* chore: bump nearcore to " ++ X ++ " in [#" ++ pr ++ "]")
    with (("* chore: bump nearcore to " ++ X ++ " in ")
            ++ "["%char :: ("#" ++ pr ++ "]"))
    by (now rewrite <- !app_assoc).
  apply single_bracket; [| |reflexivity].
  - rewrite !not_In_app. repeat split; try assumption;
      apply text_not_In; reflexivity.
  - rewrite !not_In_app. repeat split;
      try (apply text_not_In; reflexivity).
    eapply all_of_not_In; [exact Hpr | reflexivity].
Qed.

Lemma pr_link_no_link_label (pr : text) :
  all_of Py.isdigit pr -> ~ occurs "[Unreleased]:" (pr_link_line pr).
Proof.
  intros Hpr. unfold pr_link_line.
  change ("[#" ++ pr ++ "]: " ++ REPO_URL ++ "/pull/" ++ pr)
    with ([] ++ "["%char :: ("#" ++ pr ++ "]: " ++ REPO_URL ++ "/pull/" ++ pr)).
  apply single_bracket; [intros [] | | reflexivity].
  rewrite !not_In_app. repeat split;
    try (apply text_not_In; reflexivity);
    eapply all_of_not_In; try exact Hpr; reflexivity.
Qed.

(** The two ways [create_new_entry] builds its result. *)
Lemma create_new_entry_cases (body new_entry : text) :
  create_new_entry body new_entry
  = "### Changes" ++ NL ++ NL ++ new_entry
      ++ (if is_nil body then [] else NL ++ NL ++ body)
  \/ exists kept_before dropped kept_after,
       body = kept_before ++ dropped ++ kept_after /\
       Forall (fun c => Py.isspace c = true) dropped /\
       create_new_entry body new_entry
       = kept_before ++ NL ++ NL ++ new_entry ++ NL ++ kept_after.
Proof.
  unfold create_new_entry.
  destruct body as [|c body'] eqn:Eb; cbn [Py.truthy negb is_nil].
  - left. now rewrite app_nil_r.
  - rewrite <- Eb.
    destruct (search FL_M CHANGES_SECTION_PATTERN body) as [m|].
    + right.
      exists (firstn (m_end m) body),
             (take_while Py.isspace (skipn (m_end m) body)),
             (Py.lstrip (skipn (m_end m) body)).
      split; [rewrite <- lstrip_split; symmetry; apply firstn_skipn|].
      split; [apply take_while_Forall | reflexivity].
    + left. reflexivity.
Qed.

Lemma no_LF_link_label : no_LF (list_ascii_of_string "[Unreleased]:").
Proof. apply text_no_LF. reflexivity. Qed.

Lemma merged_body_no_link_label (nv pr body : text) :
  validate_version (Some nv) = true -> all_of Py.isdigit pr ->
  ~ occurs "[Unreleased]:" body ->
  ~ occurs "[Unreleased]:" (merged_body nv pr body).
Proof.
  intros Hv Hpr Hbody.
  assert (Hbul : ~ occurs "[Unreleased]:"
                   (new_entry_line (extract_nearcore_version nv) pr)).
  { apply bullet_no_link_label; [|exact Hpr].
    intros Hin. apply (validated_no_bracket _ Hv).
    now apply extract_nearcore_version_incl. }
  pose proof (pr_link_no_link_label pr Hpr) as Hlink.
  assert (Hnil : ~ occurs "[Unreleased]:" []) by (apply occurs_nil; discriminate).
  assert (Hhead : ~ occurs "[Unreleased]:" "### Changes")
    by (apply cut_at_occurs; reflexivity).
  set (e := new_entry_line (extract_nearcore_version nv) pr) in *.
  assert (Hentry : ~ occurs "[Unreleased]:" (create_new_entry body e)).
  { destruct (create_new_entry_cases body e) as [->|(kb & d & ka & Eb & _ & ->)].
    - intros H. cbn [NL app] in H.
      apply occurs_app_LF in H; [|exact no_LF_link_label].
      destruct H as [H|H]; [contradiction|].
      change (LF :: e ++ (if is_nil body then [] else LF :: LF :: body))
        with ([] ++ LF :: e ++ (if is_nil body then [] else LF :: LF :: body)) in H.
      apply occurs_app_LF in H; [|exact no_LF_link_label].
      destruct H as [H|H]; [contradiction|].
      destruct (is_nil body).
      + rewrite app_nil_r in H. contradiction.
      + apply occurs_app_LF in H; [|exact no_LF_link_label].
        destruct H as [H|H]; [contradiction|].
        change (LF :: body) with ([] ++ LF :: body) in H.
        apply occurs_app_LF in H; [|exact no_LF_link_label].
        destruct H as [H|H]; contradiction.
    - intros H. cbn [NL app] in H.
      apply occurs_app_LF in H; [|exact no_LF_link_label].
      destruct H as [H|H].
      + apply Hbody. rewrite Eb.
        apply (occurs_inside _ [] kb (d ++ ka)). exact H.
      + change (LF :: e ++ LF :: ka) with ([] ++ LF :: e ++ LF :: ka) in H.
        apply occurs_app_LF in H; [|exact no_LF_link_label].
        destruct H as [H|H]; [contradiction|].
        apply occurs_app_LF in H; [|exact no_LF_link_label].
        destruct H as [H|H]; [contradiction|].
        apply Hbody. rewrite Eb, app_assoc.
        rewrite <- (app_nil_r ka).
        apply (occurs_inside _ (kb ++ d) ka []). exact H. }
  unfold merged_body. fold e. rewrite add_pr_link_eq.
  destruct (is_some (search FL_0 PR_LINK_PATTERN (create_new_entry body e)));
    intros H; cbn [NL app] in H;
    apply occurs_app_LF in H; try exact no_LF_link_label;
    destruct H as [H|H]; try contradiction.
  change (LF :: pr_link_line pr) with ([] ++ LF :: pr_link_line pr) in H.
  apply occurs_app_LF in H; [|exact no_LF_link_label].
  destruct H as [H|H]; contradiction.
Qed.

Lemma strip_inside (s : text) : exists a b, s = a ++ Py.strip s ++ b.
Proof.
  unfold Py.strip.
  exists (take_while Py.isspace (Py.rstrip s)),
         (rev (take_while Py.isspace (rev s))).
  rewrite app_assoc, <- lstrip_split. unfold Py.rstrip.
  rewrite <- rev_app_distr, take_drop_while. now rewrite rev_involutive.
Qed.

Lemma lines_app (a b : text) (l : text) :
  In l (lines (a ++ LF :: b)) <-> In l (lines a) \/ In l (lines b).
Proof. rewrite lines_app_LF. apply in_app_iff. Qed.

(** The lines of the upper region after a release: none begins with
    [[Unreleased]:] when none did before. *)
Lemma released_upper_lines (pre mid pv tail head_line merged : text) :
  (pre = [] \/ exists pre', pre = pre' ++ NL) ->
  (exists q, mid = q ++ NL) ->
  (forall l, In l (lines (pre ++ UNRELEASED_HEADING ++ mid
                            ++ "## [" ++ pv ++ "]" ++ tail)) ->
     ~ starts_with "[Unreleased]:" l) ->
  no_LF head_line -> ~ starts_with "[Unreleased]:" head_line ->
  ~ occurs "[Unreleased]:" merged ->
  forall l,
    In l (lines (pre ++ UNRELEASED_HEADING ++ (NL ++ NL) ++ head_line
                   ++ NL ++ NL ++ merged ++ NL ++ NL ++ "## [" ++ pv ++ "]" ++ tail)) ->
    ~ starts_with "[Unreleased]:" l.
Proof.
  intros Hb [qm ->] Hlines Hhl Hhs Hm l Hin.
  assert (Hold : In l (lines ("## [" ++ pv ++ "]" ++ tail)) ->
                 ~ starts_with "[Unreleased]:" l).
  { intros H. apply Hlines.
    replace (pre ++ UNRELEASED_HEADING ++ (qm ++ NL) ++ "## [" ++ pv ++ "]" ++ tail)
      with ((pre ++ UNRELEASED_HEADING ++ qm) ++ LF :: "## [" ++ pv ++ "]" ++ tail)
      by (now rewrite <- !app_assoc).
    apply lines_app. now right. }
  assert (Hnil : ~ starts_with "[Unreleased]:" []) by (intros [r E]; discriminate).
  assert (Hheading : ~ starts_with "[Unreleased]:" UNRELEASED_HEADING)
    by (apply strip_prefix_None; reflexivity).
  replace (pre ++ UNRELEASED_HEADING ++ (NL ++ NL) ++ head_line
             ++ NL ++ NL ++ merged ++ NL ++ NL ++ "## [" ++ pv ++ "]" ++ tail)
    with ((pre ++ UNRELEASED_HEADING)
            ++ LF :: ([] ++ LF :: (head_line
            ++ LF :: ([] ++ LF :: (merged
            ++ LF :: ([] ++ LF :: ("## [" ++ pv ++ "]" ++ tail)))))))
    in Hin by (now rewrite <- !app_assoc).
  repeat (apply lines_app in Hin; destruct Hin as [Hin|Hin]).
  - destruct Hb as [->|[p' ->]].
    + cbn [app] in Hin. rewrite (lines_no_LF _ no_LF_UNRELEASED_HEADING) in Hin.
      destruct Hin as [<-|[]]. exact Hheading.
    + rewrite <- app_assoc in Hin. cbn [NL app] in Hin.
      apply lines_app in Hin. destruct Hin as [Hin|Hin].
      * apply Hlines. rewrite <- !app_assoc. cbn [NL app].
        apply lines_app. now left.
      * rewrite (lines_no_LF _ no_LF_UNRELEASED_HEADING) in Hin.
        destruct Hin as [<-|[]]. exact Hheading.
  - destruct Hin as [<-|[]]. exact Hnil.
  - rewrite (lines_no_LF _ Hhl) in Hin. destruct Hin as [<-|[]]. exact Hhs.
  - destruct Hin as [<-|[]]. exact Hnil.
  - intros [r ->]. destruct (In_lines _ _ Hin) as (a & b & E).
    apply Hm. rewrite E. apply occurs_inside.
    exists 0, [], r. now split.
  - destruct Hin as [<-|[]]. exact Hnil.
  - now apply Hold.
Qed.

(** X2. Two releases in a row.  After a run over a well-formed changelog
    (as in [update_changelog_release], with a version of the documented
    shape, a pull request number made of digits, a date without line feed
    and an Unreleased section that does not hold the text
    [[Unreleased]:]), a second run with another well-formed version that
    the file does not hold yet succeeds too: it takes the first version as
    the previous release, puts the section of the second release, made
    from the now empty Unreleased section, above the section of the first,
    and updates the link region the first run left. *)
Theorem update_changelog_twice (w1 w2 : world)
    (nv1 pr1 nv2 pr2 pre mid pv tail bottom : text) :
  let upper := pre ++ UNRELEASED_HEADING ++ mid ++ "## [" ++ pv ++ "]" ++ tail in
  let path := changelog_path_of w1 in
  configured w1 nv1 pr1 ->
  files w1 path = Some (upper ++ bottom) ->
  ~ occurs (version_heading nv1) (upper ++ bottom) ->
  (exists q, tail = q ++ NL) ->
  starts_with "[Unreleased]:" bottom ->
  (forall l, In l (lines upper) -> ~ starts_with "[Unreleased]:" l) ->
  (pre = [] \/ exists pre', pre = pre' ++ NL) ->
  ~ occurs UNRELEASED_HEADING pre ->
  (exists q, mid = q ++ NL) ->
  all_of (fun x => accepts FL_M label_char x) pv ->
  (forall j pv',
     length (pre ++ UNRELEASED_HEADING) <= j ->
     j < length (pre ++ UNRELEASED_HEADING ++ mid) ->
     ~ release_heading_at upper j pv') ->
  version_shape nv1 -> all_of Py.isdigit pr1 -> no_LF (utc_today w1) ->
  ~ occurs "[Unreleased]:" mid ->
  files w2 = files (snd (update_changelog w1)) ->
  changelog_path_of w2 = path ->
  configured w2 nv2 pr2 ->
  (forall doc, files w2 path = Some doc -> ~ occurs (version_heading nv2) doc) ->
  exists links1 links2,
    update_link_definitions bottom nv1 pv = Some links1 /\
    update_link_definitions links1 nv2 nv1 = Some links2 /\
    update_changelog w2
    = (Ret tt,
       printed
         (written w2 path
            (pre ++ UNRELEASED_HEADING ++ NL ++ NL
               ++ new_version_section nv2 pr2 (utc_today w2) []
               ++ NL ++ NL
               ++ new_version_section nv1 pr1 (utc_today w1) (Py.strip mid)
               ++ NL ++ NL ++ "## [" ++ pv ++ "]" ++ tail ++ links2))
         (msg_updated nv2 path)).
Proof.
  intros upper path Hc1 Hf1 Hnv1 Htail Hbot Hlines Hb Hno Hmid Hl Hmin
         Hshape Hpr1 Hdate Hmidno Hfiles Hpath Hc2 Hnv2.
  destruct (update_changelog_release_eq w1 nv1 pr1 pre mid pv tail bottom
              Hc1 Hf1 Hnv1 Htail Hbot Hlines Hb Hno Hmid Hl Hmin)
    as (links1 & El1 & E1).
  fold path in E1.
  assert (Hv1 : validate_version (Some nv1) = true) by apply Hc1.
  assert (Hlf1 : no_LF nv1) by (now apply version_shape_no_LF).
  destruct (links_keep_start bottom nv1 pv Hlf1 (validated_no_backslash _ Hv1)
              (label_no_backslash _ Hl) Hbot) as (links1' & El1' & Hstart).
  rewrite El1 in El1'. inversion El1'; subst links1'. clear El1'.
  set (merged := merged_body nv1 pr1 (Py.strip mid)).
  set (tail2 := " " ++ utc_today w1 ++ NL ++ NL ++ merged ++ NL ++ NL
                  ++ "## [" ++ pv ++ "]" ++ tail).
  assert (Edoc : pre ++ UNRELEASED_HEADING ++ NL ++ NL
                   ++ new_version_section nv1 pr1 (utc_today w1) (Py.strip mid)
                   ++ NL ++ NL ++ "## [" ++ pv ++ "]" ++ tail ++ links1
                 = (pre ++ UNRELEASED_HEADING ++ (NL ++ NL) ++ "## [" ++ nv1 ++ "]"
                      ++ tail2) ++ links1).
  { unfold new_version_section, tail2. fold merged.
    rewrite <- !app_assoc. reflexivity. }
  assert (Hf2 : files w2 (changelog_path_of w2)
                = Some ((pre ++ UNRELEASED_HEADING ++ (NL ++ NL) ++ "## [" ++ nv1
                           ++ "]" ++ tail2) ++ links1)).
  { rewrite Hfiles, Hpath, E1. cbn [snd printed written files].
    rewrite text_eqb_refl. now rewrite Edoc. }
  assert (Hmerged : ~ occurs "[Unreleased]:" merged).
  { apply merged_body_no_link_label; [exact Hv1 | exact Hpr1 |].
    intros H. apply Hmidno.
    destruct (strip_inside mid) as (a & b & E). rewrite E.
    now apply occurs_inside. }
  destruct (update_changelog_release_eq w2 nv2 pr2 pre (NL ++ NL) nv1 tail2 links1)
    as (links2 & El2 & E2).
  - exact Hc2.
  - exact Hf2.
  - apply Hnv2. rewrite <- Hpath. exact Hf2.
  - destruct Htail as [q ->].
    exists (" " ++ utc_today w1 ++ NL ++ NL ++ merged ++ NL ++ NL
              ++ "## [" ++ pv ++ "]" ++ q).
    unfold tail2. now rewrite <- !app_assoc.
  - exact Hstart.
  - intros l Hin.
    apply (released_upper_lines pre mid pv tail
             ("## [" ++ nv1 ++ "] " ++ utc_today w1) merged Hb Hmid Hlines).
    + rewrite !no_LF_app. repeat split; try assumption;
        apply text_no_LF; reflexivity.
    + apply strip_prefix_None. reflexivity.
    + exact Hmerged.
    + replace (pre ++ UNRELEASED_HEADING ++ (NL ++ NL)
                 ++ ("## [" ++ nv1 ++ "] " ++ utc_today w1)
                 ++ NL ++ NL ++ merged ++ NL ++ NL ++ "## [" ++ pv ++ "]" ++ tail)
        with (pre ++ UNRELEASED_HEADING ++ (NL ++ NL) ++ "## [" ++ nv1 ++ "]"
                ++ tail2)
        by (unfold tail2; rewrite <- !app_assoc; reflexivity).
      exact Hin.
  - exact Hb.
  - exact Hno.
  - exists NL. reflexivity.
  - now apply version_shape_label.
  - intros j pv' Hj Hk.
    replace (pre ++ UNRELEASED_HEADING ++ (NL ++ NL) ++ "## [" ++ nv1 ++ "]"
               ++ tail2)
      with ((pre ++ UNRELEASED_HEADING) ++ (NL ++ NL)
              ++ "## [" ++ nv1 ++ "]" ++ tail2)
      by (now rewrite <- !app_assoc).
    apply no_release_heading_in.
    + exists NL. reflexivity.
    + apply no_line_starts. reflexivity.
    + exact Hj.
    + rewrite <- app_assoc. exact Hk.
  - exists links1, links2. split; [exact El1|]. split; [exact El2|].
    rewrite E2, Hpath. do 3 f_equal.
    change (Py.strip (NL ++ NL)) with (@nil ascii).
    unfold new_version_section, tail2. fold merged.
    rewrite <- !app_assoc. reflexivity.
Qed.

Lemma update_changelog_twice_witness :
  exists links1 links2,
    update_link_definitions
      ("[Unreleased]: https://example.org/1.0.0-2.0.0...main" ++ NL)
      "1.2.3-4.5.6" "1.0.0-2.0.0" = Some links1 /\
    update_link_definitions links1 "1.3.0-4.6.0" "1.2.3-4.5.6" = Some links2 /\
    update_changelog later_world
    = (Ret tt,
       printed
         (written later_world "CHANGES.md"
            (("# Changelog" ++ NL ++ NL) ++ UNRELEASED_HEADING ++ NL ++ NL
               ++ new_version_section "1.3.0-4.6.0" "43" "2026-02-03" []
               ++ NL ++ NL
               ++ new_version_section "1.2.3-4.5.6" "42" "2026-01-02"
                    (Py.strip (NL ++ NL ++ "### Changes" ++ NL ++ NL
                                 ++ "* foo" ++ NL ++ NL))
               ++ NL ++ NL ++ "## [" ++ "1.0.0-2.0.0" ++ "]"
               ++ (" 2024-01-01" ++ NL ++ NL) ++ links2))
         (msg_updated "1.3.0-4.6.0" "CHANGES.md")).
Proof.
  apply (update_changelog_twice world_with_entry later_world
           "1.2.3-4.5.6" "42" "1.3.0-4.6.0" "43"
           ("# Changelog" ++ NL ++ NL)
           (NL ++ NL ++ "### Changes" ++ NL ++ NL ++ "* foo" ++ NL ++ NL)
           "1.0.0-2.0.0" (" 2024-01-01" ++ NL ++ NL)
           ("[Unreleased]: https://example.org/1.0.0-2.0.0...main" ++ NL)).
  - split; [reflexivity|]. split; [reflexivity|].
    split; [discriminate | vm_compute; reflexivity].
  - reflexivity.
  - apply cut_at_occurs. vm_compute. reflexivity.
  - exists (" 2024-01-01" ++ NL). reflexivity.
  - exists (" https://example.org/1.0.0-2.0.0...main" ++ NL). reflexivity.
  - apply no_line_starts. vm_compute. reflexivity.
  - right. exists ("# Changelog" ++ NL). reflexivity.
  - apply cut_at_occurs. vm_compute. reflexivity.
  - exists (NL ++ NL ++ "### Changes" ++ NL ++ NL ++ "* foo" ++ NL). reflexivity.
  - split; [discriminate | repeat constructor].
  - intros j pv' Hj Hk.
    change (("# Changelog" ++ NL ++ NL) ++ UNRELEASED_HEADING
              ++ (NL ++ NL ++ "### Changes" ++ NL ++ NL ++ "* foo" ++ NL ++ NL)
              ++ "## [" ++ "1.0.0-2.0.0" ++ "]" ++ " 2024-01-01" ++ NL ++ NL)
      with (("# Changelog" ++ NL ++ NL ++ "## [Unreleased]")
              ++ (NL ++ NL ++ "### Changes" ++ NL ++ NL ++ "* foo" ++ NL ++ NL)
              ++ "## [1.0.0-2.0.0] 2024-01-01" ++ NL ++ NL).
    apply no_release_heading_in.
    + exists (NL ++ NL ++ "### Changes" ++ NL ++ NL ++ "* foo" ++ NL). reflexivity.
    + apply no_line_starts. vm_compute. reflexivity.
    + exact Hj.
    + exact Hk.
  - exists "1.2.3", "4.5.6".
    split; [split; [discriminate | repeat constructor]|].
    split; [split; [discriminate | repeat constructor]|]. now left.
  - split; [discriminate | repeat constructor].
  - apply text_no_LF. vm_compute. reflexivity.
  - apply cut_at_occurs. vm_compute. reflexivity.
  - reflexivity.
  - reflexivity.
  - split; [reflexivity|]. split; [reflexivity|].
    split; [discriminate | vm_compute; reflexivity].
  - intros doc Hdoc. vm_compute in Hdoc. inversion Hdoc; subst doc.
    apply cut_at_occurs. vm_compute. reflexivity.
Defined.

(** ** The link region over several releases *)

Lemma update_link_definitions_single (nv pv old rest : text) :
  no_LF nv -> no_backslash nv -> no_backslash pv ->
  no_LF old -> ~ occurs UNRELEASED_LABEL rest ->
  update_link_definitions (UNRELEASED_LABEL ++ old ++ NL ++ rest) nv pv
  = Some (unreleased_link nv ++ NL ++ version_link nv pv ++ NL ++ rest).
Proof.
  intros Hlf Hn Hp Hold Hrest.
  rewrite (update_link_definitions_lines _ _ _ Hlf Hn Hp). f_equal.
  pose proof (lines_without _ _ Hrest) as Hnone.
  unfold lines at 1.
  replace (UNRELEASED_LABEL ++ old ++ NL ++ rest)
    with ((UNRELEASED_LABEL ++ old) ++ LF :: rest)
    by (now rewrite <- !app_assoc).
  rewrite split_at_sep.
  2:{ apply contains_char_false. apply no_LF_app.
      split; [exact no_LF_UNRELEASED_LABEL | exact Hold]. }
  fold (lines rest). unfold updated_lines. cbn [map].
  rewrite (rewrite_line_Some _ _ _ _ (cut_at_prefix UNRELEASED_LABEL old)).
  rewrite map_rewrite_line_id by exact Hnone. cbn [app].
  pose proof (lines_not_nil rest) as Nr.
  destruct (lines rest) as [|h t] eqn:El; [now elim Nr|].
  rewrite insert_lines_cons.
  unfold unreleased_link at 1.
  change ("[Unreleased]: " ++ REPO_URL ++ "/" ++ nv ++ "...main")
    with (UNRELEASED_LABEL ++ REPO_URL ++ "/" ++ nv ++ "...main").
  rewrite cut_at_prefix. cbn [is_some app].
  rewrite insert_lines_id by exact Hnone.
  rewrite !join_cons, <- El, join_lines. reflexivity.
Qed.

Lemma occurs_prefix (p q s : text) : occurs (p ++ q) s -> occurs p s.
Proof.
  intros (i & pre & post & -> & L). exists i, pre, (q ++ post).
  split; [now rewrite <- app_assoc | exact L].
Qed.

Lemma version_link_no_label (nv pv : text) :
  version_shape nv -> all_of (fun x => accepts FL_M label_char x) pv ->
  ~ occurs UNRELEASED_LABEL (version_link nv pv).
Proof.
  intros Hs Hpv H.
  apply (occurs_prefix "[Unreleased]:" " ") in H. revert H.
  pose proof (version_shape_label _ Hs) as Hl.
  unfold version_link.
  change ("[" ++ nv ++ "]: " ++ REPO_URL ++ "/compare/" ++ pv ++ "..." ++ nv)
    with ([] ++ "["%char :: (nv ++ "]: " ++ REPO_URL ++ "/compare/" ++ pv
                               ++ "..." ++ nv)).
  apply single_bracket; [intros [] | |].
  - rewrite !not_In_app. repeat split;
      try (apply text_not_In; reflexivity);
      eapply all_of_not_In; try eassumption; reflexivity.
  - destruct (version_shape_head _ Hs) as (c & v' & -> & Hc).
    cbn. destruct (Ascii.eqb_spec c "U") as [->|]; [discriminate | reflexivity].
Qed.

Lemma all_updates_eq (earlier : list text) :
  forall prev old rest v,
    Forall version_shape (earlier ++ [v]) ->
    all_of (fun x => accepts FL_M label_char x) prev ->
    no_LF old -> ~ occurs UNRELEASED_LABEL rest ->
    all_updates (UNRELEASED_LABEL ++ old ++ NL ++ rest) prev (earlier ++ [v])
    = Some (unreleased_link v ++ NL ++ version_links prev (earlier ++ [v]) rest).
Proof.
  induction earlier as [|v1 vs IH]; intros prev old rest v Hvs Hprev Hold Hrest;
    cbn [app] in Hvs; inversion Hvs as [|? ? Hs1 Hvs']; subst;
    pose proof (version_shape_label _ Hs1) as Hl1;
    cbn [app all_updates version_links];
    (rewrite update_link_definitions_single;
      [| now apply version_shape_no_LF | now apply label_no_backslash
       | now apply label_no_backslash | exact Hold | exact Hrest]).
  - reflexivity.
  - assert (Hrest' : ~ occurs UNRELEASED_LABEL (version_link v1 prev ++ NL ++ rest)).
    { intros H. cbn [NL app] in H.
      apply occurs_app_LF in H; [|exact no_LF_UNRELEASED_LABEL].
      destruct H as [H|H]; [|contradiction].
      revert H. now apply version_link_no_label. }
    assert (Hold' : no_LF (REPO_URL ++ "/" ++ v1 ++ "...main")).
    { rewrite !no_LF_app. repeat split;
        try (apply text_no_LF; reflexivity). now apply version_shape_no_LF. }
    replace (unreleased_link v1 ++ NL ++ version_link v1 prev ++ NL ++ rest)
      with (UNRELEASED_LABEL ++ (REPO_URL ++ "/" ++ v1 ++ "...main") ++ NL
              ++ (version_link v1 prev ++ NL ++ rest))
      by (unfold unreleased_link; rewrite <- !app_assoc; reflexivity).
    apply IH; assumption.
Qed.

Lemma version_links_no_label (versions : list text) :
  forall prev rest,
    Forall version_shape versions ->
    all_of (fun x => accepts FL_M label_char x) prev ->
    ~ occurs UNRELEASED_LABEL rest ->
    ~ occurs UNRELEASED_LABEL (version_links prev versions rest).
Proof.
  induction versions as [|v vs IH]; intros prev rest Hvs Hprev Hrest;
    [exact Hrest|].
  inversion Hvs as [|? ? Hs Hvs']; subst. cbn [version_links].
  apply IH; [exact Hvs' | now apply version_shape_label |].
  intros H. cbn [NL app] in H.
  apply occurs_app_LF in H; [|exact no_LF_UNRELEASED_LABEL].
  destruct H as [H|H]; [|contradiction].
  revert H. now apply version_link_no_label.
Qed.

Lemma one_unreleased_link (v below : text) :
  no_LF v -> ~ occurs UNRELEASED_LABEL below ->
  unreleased_link_lines (unreleased_link v ++ NL ++ below) = 1.
Proof.
  intros Hv Hno. unfold unreleased_link_lines, lines.
  change (unreleased_link v ++ NL ++ below)
    with (unreleased_link v ++ LF :: below).
  rewrite split_at_sep
    by (apply contains_char_false; now apply unreleased_link_no_LF).
  fold (lines below). cbn [filter].
  replace (is_some (strip_prefix UNRELEASED_LABEL (unreleased_link v)))
    with true by reflexivity.
  cbn [length]. f_equal.
  pose proof (lines_without _ _ Hno) as Hnone.
  assert (F : filter (fun l => is_some (strip_prefix UNRELEASED_LABEL l))
                (lines below) = []).
  { clear -Hnone. induction (lines below) as [|l ls IH]; [reflexivity|].
    cbn [filter].
    rewrite (cut_at_None _ _ (Hnone l (or_introl eq_refl)) [] l eq_refl).
    cbn [is_some]. apply IH. intros l' Hl'. apply Hnone. now right. }
  now rewrite F.
Qed.

(** X15. The link region over several releases.  From a region that
    begins with its only [[Unreleased]: ...] line, updating for the
    versions of a list in turn, each compared with the one before it,
    gives the Unreleased link of the last version, then the links of the
    versions from the newest to the oldest, then the links that were below
    the first line; one line only begins with [[Unreleased]: ]. *)
Theorem update_link_definitions_in_a_row
    (earlier : list text) (prev old rest v : text) :
  Forall version_shape (earlier ++ [v]) ->
  all_of (fun x => accepts FL_M label_char x) prev ->
  no_LF old -> ~ occurs UNRELEASED_LABEL rest ->
  all_updates (UNRELEASED_LABEL ++ old ++ NL ++ rest) prev (earlier ++ [v])
  = Some (unreleased_link v ++ NL ++ version_links prev (earlier ++ [v]) rest)
  /\ unreleased_link_lines
       (unreleased_link v ++ NL ++ version_links prev (earlier ++ [v]) rest) = 1.
Proof.
  intros Hvs Hprev Hold Hrest. split.
  - now apply all_updates_eq.
  - apply one_unreleased_link.
    + apply version_shape_no_LF.
      rewrite Forall_forall in Hvs. apply Hvs. apply in_or_app. right. now left.
    + now apply version_links_no_label.
Qed.

Lemma update_link_definitions_in_a_row_witness :
  all_updates sample_links "1.0.0-2.0.0"
    [list_ascii_of_string "1.2.3-4.5.6"; list_ascii_of_string "1.3.0-4.6.0"]
  = Some (unreleased_link "1.3.0-4.6.0" ++ NL
            ++ version_link "1.3.0-4.6.0" "1.2.3-4.5.6" ++ NL
            ++ version_link "1.2.3-4.5.6" "1.0.0-2.0.0" ++ NL
            ++ "[1.0.0-2.0.0]: https://example.org/compare/0.9.0-1.9.0...1.0.0-2.0.0"
            ++ NL).
Proof.
  refine (proj1 (update_link_definitions_in_a_row
            [list_ascii_of_string "1.2.3-4.5.6"] "1.0.0-2.0.0"
            "https://example.org/1.0.0-2.0.0...main"
            ("[1.0.0-2.0.0]: https://example.org/compare/0.9.0-1.9.0...1.0.0-2.0.0"
               ++ NL)
            "1.3.0-4.6.0" _ _ _ _)).
  - repeat constructor.
    + exists "1.2.3", "4.5.6".
      split; [split; [discriminate | repeat constructor]|].
      split; [split; [discriminate | repeat constructor]|]. now left.
    + exists "1.3.0", "4.6.0".
      split; [split; [discriminate | repeat constructor]|].
      split; [split; [discriminate | repeat constructor]|]. now left.
  - split; [discriminate | repeat constructor].
  - apply text_no_LF. vm_compute. reflexivity.
  - apply cut_at_occurs. vm_compute. reflexivity.
Defined.

(** ** The bullet and the link reference in the merged body *)

(** X12. In the merged body the bullet always stands after a blank line
    and is followed by a line feed, and the link reference of the pull
    request ends the body on a line of its own, whatever the Unreleased
    section held. *)
Theorem merged_body_layout (new_version pr_number body : text) :
  exists above between,
    merged_body new_version pr_number body
    = above ++ NL ++ NL
        ++ new_entry_line (extract_nearcore_version new_version) pr_number
        ++ NL ++ between ++ pr_link_line pr_number /\
    (between = [] \/ exists b, between = b ++ NL).
Proof.
  unfold merged_body.
  set (e := new_entry_line (extract_nearcore_version new_version) pr_number).
  set (l := pr_link_line pr_number).
  rewrite add_pr_link_eq.
  destruct (create_new_entry_cases body e) as [E|(kb & d & ka & _ & _ & E)];
    rewrite E; clear E.
  - exists "### Changes".
    destruct (is_nil body);
      destruct (is_some (search FL_0 PR_LINK_PATTERN _)).
    + exists []. split; [now rewrite <- !app_assoc | now left].
    + exists NL. split; [now rewrite <- !app_assoc | right; now exists []].
    + exists (NL ++ body ++ NL).
      split; [now rewrite <- !app_assoc | right; now exists (NL ++ body)].
    + exists (NL ++ body ++ NL ++ NL).
      split; [now rewrite <- !app_assoc|].
      right. exists (NL ++ body ++ NL). now rewrite <- !app_assoc.
  - exists kb.
    destruct (is_some (search FL_0 PR_LINK_PATTERN _)).
    + exists (ka ++ NL).
      split; [now rewrite <- !app_assoc | right; now exists ka].
    + exists (ka ++ NL ++ NL).
      split; [now rewrite <- !app_assoc|].
      right. exists (ka ++ NL). now rewrite <- !app_assoc.
Qed.
